(** * psycheos: the effect pipeline, the effect selector and the capture
      subsystem of [app.js], embedded in Rocq.

    Conventions of the embedding.

    - A JavaScript Number is an IEEE 754 binary64 value: fractional arithmetic
      (the luma weights, the red gain of the trickster effect, [Math.random])
      is carried out on Rocq's primitive [float], which is the same format
      with the same round-to-nearest-even operations.  Arithmetic whose
      operands and results are small integers (8-bit channel values, the
      Laplacian of the anima effect, the tick counter) is exact in binary64
      and is written on [Z].
    - A [Uint8ClampedArray] is a [list Z]; a store converts with
      [ToUint8Clamp] (ECMAScript 7.1.12), a store past the end is dropped
      (stdpp's list insert), a load past the end is [undefined].
    - The module-level [let] variables and the DOM nodes the script touches
      are the fields of [World]; a function of the script is a computation
      in the monad [M], which threads the world and ends normally or by a
      thrown exception, the world keeping what was written before the throw.
    - What the browser decides (rasterisation of fills and images, the
      values [Math.random] returns, image encoding, the formats the media
      recorder supports, what the camera does) is the record [Platform]. *)

From Stdlib Require Import ZArith Floats String Lia Bool DecimalString.
From stdpp Require Import base list gmap.

Set Warnings "-inexact-float".

(* ===================================================================== *)
(** * Part I: the program *)
(* ===================================================================== *)

(** ** JavaScript numbers and typed arrays *)

Module Js.

Local Open Scope Z_scope.

(** The Number with the value of a small non-negative integer. *)
Definition num (z : Z) : float := PrimFloat.of_uint63 (Uint63.of_Z z).

Definition NaN : float := PrimFloat.nan.

(** [floor (2 * m * 2^e)] for a positive mantissa. *)
Definition floor_twice (m : positive) (e : Z) : Z :=
  match e with
  | Zneg p => Z.shiftr (2 * Z.pos m) (Z.pos p)
  | _ => Z.shiftl (2 * Z.pos m) e
  end.

(** Whether [2 * m * 2^e] is an integer. *)
Definition twice_exact (m : positive) (e : Z) : bool :=
  match e with
  | Zneg p => Z.shiftl (floor_twice m e) (Z.pos p) =? 2 * Z.pos m
  | _ => true
  end.

(** ECMAScript ToUint8Clamp: NaN is 0, the value is clamped to [0,255],
    then rounded to the nearest integer, a tie going to the even one. *)
Definition ToUint8Clamp (f : float) : Z :=
  match Prim2SF f with
  | S754_finite false m e =>
      let t := floor_twice m e in
      let fl := t / 2 in
      if 255 <=? fl then 255
      else if Z.even t then fl
      else if twice_exact m e then (if Z.even fl then fl else fl + 1)
      else fl + 1
  | S754_infinity false => 255
  | _ => 0
  end.

(** The same conversion for a Number that is an integer. *)
Definition clamp8 (z : Z) : Z := Z.max 0 (Z.min 255 z).

(** [Math.floor] of a Number used as an array index: [None] when the
    property key is not an index (negative, infinite or NaN). *)
Definition floorIndex (f : float) : option nat :=
  match Prim2SF f with
  | S754_zero _ => Some 0%nat
  | S754_finite false m e => Some (Z.to_nat (floor_twice m e / 2))
  | _ => None
  end.

(** A load from a typed array as a Number: [undefined] is NaN in arithmetic. *)
Definition numAt (d : list Z) (i : nat) : float :=
  match d !! i with
  | Some v => num v
  | None => NaN
  end.

(** Number to decimal string, for an integer. *)
Definition toString (z : Z) : string := NilZero.string_of_int (Z.to_int z).

Definition byte (z : Z) : Prop := 0 <= z <= 255.

Definition bytes (d : list Z) : Prop := Forall byte d.

Definition dquote : string :=
  String (Ascii.Ascii false true false false false true false false) "".

Inductive JsError : Set :=
| TypeError
| IndexSizeError
| InvalidStateError
| DOMException (name message : string)  (* a rejection of the media API *)
| ErrorEvent.                           (* the event of [video.onerror] *)

End Js.

Export Js.

(** ** 2. Archetype data *)

Module Archetype.

Record t : Set := mk {
  id : string;
  name : string;
  symbol : string;
  description : string }.

End Archetype.

Definition archetypes : list Archetype.t :=
  [ Archetype.mk "self" "The Self" "fa-solid fa-circle-dot"
      "The unified whole of the conscious and unconscious. Wholeness, integration, and the center of the total personality.";
    Archetype.mk "persona" "The Persona" "fa-solid fa-theater-masks"
      "The social mask or facade you present to the world. It conceals your true self.";
    Archetype.mk "shadow" "The Shadow" "fa-solid fa-square-full"
      "The unknown, dark side of the personality. The repressed, instinctive, and inferior parts of the psyche.";
    Archetype.mk "anima" "The Anima/Animus" "fa-solid fa-moon"
      "The inner, unconscious feminine side in men (Anima) or masculine side in women (Animus). Represents intuition and soul.";
    Archetype.mk "trickster" "The Trickster" "fa-solid fa-wand-magic-sparkles"
      "The archetype of chaos, disruption, and challenging norms. It exposes hypocrisy and creates new possibilities." ].

(** ** The canvas and its 2D context *)

(** The current transformation matrix, on integers: the script only
    translates by the canvas width and scales by [-1]. *)
Record Matrix : Set := mkMatrix {
  ma : Z; mb : Z; mc : Z; md : Z; me : Z; mf : Z }.

Definition identityMatrix : Matrix := mkMatrix 1 0 0 1 0 0.

Definition translateMatrix (tx ty : Z) (m : Matrix) : Matrix :=
  mkMatrix (ma m) (mb m) (mc m) (md m)
           (me m + ma m * tx + mc m * ty) (mf m + mb m * tx + md m * ty).

Definition scaleMatrix (sx sy : Z) (m : Matrix) : Matrix :=
  mkMatrix (ma m * sx) (mb m * sx) (mc m * sy) (md m * sy) (me m) (mf m).

Inductive Style : Set :=
| CssColor (css : string)
| RadialGradient (x0 y0 r0 x1 y1 r1 : float) (stops : list (float * string)).

Definition addColorStop (offset : float) (color : string) (g : Style) : Style :=
  match g with
  | RadialGradient x0 y0 r0 x1 y1 r1 stops =>
      RadialGradient x0 y0 r0 x1 y1 r1 (stops ++ [(offset, color)])
  | CssColor c => CssColor c
  end.

(** The part of the context that [save] pushes and [restore] pops. *)
Record DrawState : Set := mkDrawState {
  transform : Matrix;
  fillStyle : Style;
  filter : string;
  globalCompositeOperation : string }.

Definition defaultDrawState : DrawState :=
  mkDrawState identityMatrix (CssColor "#000000") "none" "source-over".

(** The frame the video element shows: RGBA, opaque. *)
Record Frame : Set := mkFrame {
  videoWidth : nat;
  videoHeight : nat;
  framePixels : list Z }.

Record Canvas : Set := mkCanvas {
  width : nat;
  height : nat;
  className : string;
  bitmap : list Z;
  drawState : DrawState;
  stateStack : list DrawState }.

Record ImageData : Set := mkImageData {
  imgWidth : nat;
  imgHeight : nat;
  data : list Z }.

(** The drawing calls whose result the browser computes. *)
Inductive DrawCall : Set :=
| ClearRect (x y w h : float)
| FillRect (x y w h : float)
| DrawVideo (v : Frame) (dx dy dw dh : float)
| DrawCanvasSlice (sx sy sw sh dx dy dw dh : float)
| DrawCanvasAt (dx dy : float).

(** What the camera does when [startCamera] asks for it. *)
Inductive CameraOutcome : Set :=
| GetUserMediaRejected (name message : string)
    (* [getUserMedia] rejects, or throws, with an error of this name *)
| VideoError
    (* the video element fires [error] before its metadata is loaded *)
| PlayRejected (name message : string)
    (* the metadata is loaded and [video.play()] rejects *)
| Playing.
    (* the metadata is loaded and [video.play()] resolves *)

Record Platform : Type := mkPlatform {
  (** the bitmap after a drawing call, from the drawing state, the canvas
      width and height and the bitmap before *)
  raster : DrawCall -> DrawState -> nat -> nat -> list Z -> list Z;
  (** the value of the n-th call of [Math.random], a Number in [0, 1) *)
  mathRandom : nat -> float;
  (** [canvas.toDataURL('image/png')] *)
  encodePNG : nat -> nat -> list Z -> string;
  (** [MediaRecorder.isTypeSupported] *)
  isTypeSupported : string -> bool;
  (** [navigator.mediaDevices.getUserMedia] and the video element *)
  camera : CameraOutcome }.

(** ** 3. State *)

Inductive RecorderState : Set := inactive | recording | paused.

Record MediaRecorder : Set := mkMediaRecorder {
  mimeType : string;
  state : RecorderState }.

(** A Blob: its bytes. *)
Definition Blob : Set := list Z.

Record FilterButton : Set := mkFilterButton {
  title : string;
  datasetFilter : string;
  innerHTML : string;
  active : bool }.

Inductive Payload : Set :=
| DataURL (url : string)
| BlobOf (type : string) (parts : list Blob).

(** What the script shows or hands out. *)
Inductive Output : Set :=
| ConsoleLog (msg : string)
| ConsoleError (msg : string)
| ConsoleErrorOf (msg : string) (err : JsError)   (* console.error(msg, err) *)
| Alert (msg : string)
| Download (filename : string) (href : Payload).

(** What the script asks the browser to call later. *)
(** The control buttons of the page. *)
Inductive Control : Set := RandomBtn | ScreenshotBtn | RecordBtn.

Inductive Scheduled : Set :=
| AnimationFrame            (* requestAnimationFrame(renderLoop) *)
| StopTimer (ms : Z)        (* setTimeout(stopRecording, ms) *)
| RecorderStopTask.         (* the dataavailable and stop events of stop() *)

Record World : Type := mkWorld {
  (* the variables of the script *)
  currentFilter : option Archetype.t;
  videoReady : bool;
  mediaRecorder : option MediaRecorder;
  recordedChunks : list Blob;
  isRecording : bool;
  (* the document *)
  canvas : Canvas;
  video : Frame;
  descriptionHTML : string;
  descriptionVisible : bool;
  filterButtons : list FilterButton;
  randomBtnDisabled : bool;
  screenshotBtnDisabled : bool;
  recordBtnDisabled : bool;
  recordBtnRecording : bool;
  filterListPointerEvents : string;
  (* the browser *)
  intervals : gmap nat Z;         (* live spin intervals: handle to [loops] *)
  nextHandle : nat;
  scheduled : list Scheduled;
  randomCalls : nat;
  clock : Z;
  output : list Output;
  listeners : list Control }.     (* the controls that have their click listener *)
(** Assignment to one field of the world. *)

Definition set_currentFilter (v : option Archetype.t) (w : World) : World :=
  mkWorld v (videoReady w) (mediaRecorder w) (recordedChunks w) (isRecording
    w) (canvas w) (video w) (descriptionHTML w) (descriptionVisible w)
    (filterButtons w) (randomBtnDisabled w) (screenshotBtnDisabled w)
    (recordBtnDisabled w) (recordBtnRecording w) (filterListPointerEvents w)
    (intervals w) (nextHandle w) (scheduled w) (randomCalls w) (clock w)
    (output w) (listeners w).

Definition set_mediaRecorder (v : option MediaRecorder) (w : World) : World :=
  mkWorld (currentFilter w) (videoReady w) v (recordedChunks w) (isRecording
    w) (canvas w) (video w) (descriptionHTML w) (descriptionVisible w)
    (filterButtons w) (randomBtnDisabled w) (screenshotBtnDisabled w)
    (recordBtnDisabled w) (recordBtnRecording w) (filterListPointerEvents w)
    (intervals w) (nextHandle w) (scheduled w) (randomCalls w) (clock w)
    (output w) (listeners w).

Definition set_recordedChunks (v : list Blob) (w : World) : World :=
  mkWorld (currentFilter w) (videoReady w) (mediaRecorder w) v (isRecording w)
    (canvas w) (video w) (descriptionHTML w) (descriptionVisible w)
    (filterButtons w) (randomBtnDisabled w) (screenshotBtnDisabled w)
    (recordBtnDisabled w) (recordBtnRecording w) (filterListPointerEvents w)
    (intervals w) (nextHandle w) (scheduled w) (randomCalls w) (clock w)
    (output w) (listeners w).

Definition set_isRecording (v : bool) (w : World) : World :=
  mkWorld (currentFilter w) (videoReady w) (mediaRecorder w) (recordedChunks
    w) v (canvas w) (video w) (descriptionHTML w) (descriptionVisible w)
    (filterButtons w) (randomBtnDisabled w) (screenshotBtnDisabled w)
    (recordBtnDisabled w) (recordBtnRecording w) (filterListPointerEvents w)
    (intervals w) (nextHandle w) (scheduled w) (randomCalls w) (clock w)
    (output w) (listeners w).

Definition set_canvas (v : Canvas) (w : World) : World :=
  mkWorld (currentFilter w) (videoReady w) (mediaRecorder w) (recordedChunks
    w) (isRecording w) v (video w) (descriptionHTML w) (descriptionVisible w)
    (filterButtons w) (randomBtnDisabled w) (screenshotBtnDisabled w)
    (recordBtnDisabled w) (recordBtnRecording w) (filterListPointerEvents w)
    (intervals w) (nextHandle w) (scheduled w) (randomCalls w) (clock w)
    (output w) (listeners w).

Definition set_descriptionHTML (v : string) (w : World) : World :=
  mkWorld (currentFilter w) (videoReady w) (mediaRecorder w) (recordedChunks
    w) (isRecording w) (canvas w) (video w) v (descriptionVisible w)
    (filterButtons w) (randomBtnDisabled w) (screenshotBtnDisabled w)
    (recordBtnDisabled w) (recordBtnRecording w) (filterListPointerEvents w)
    (intervals w) (nextHandle w) (scheduled w) (randomCalls w) (clock w)
    (output w) (listeners w).

Definition set_descriptionVisible (v : bool) (w : World) : World :=
  mkWorld (currentFilter w) (videoReady w) (mediaRecorder w) (recordedChunks
    w) (isRecording w) (canvas w) (video w) (descriptionHTML w) v
    (filterButtons w) (randomBtnDisabled w) (screenshotBtnDisabled w)
    (recordBtnDisabled w) (recordBtnRecording w) (filterListPointerEvents w)
    (intervals w) (nextHandle w) (scheduled w) (randomCalls w) (clock w)
    (output w) (listeners w).

Definition set_filterButtons (v : list FilterButton) (w : World) : World :=
  mkWorld (currentFilter w) (videoReady w) (mediaRecorder w) (recordedChunks
    w) (isRecording w) (canvas w) (video w) (descriptionHTML w)
    (descriptionVisible w) v (randomBtnDisabled w) (screenshotBtnDisabled w)
    (recordBtnDisabled w) (recordBtnRecording w) (filterListPointerEvents w)
    (intervals w) (nextHandle w) (scheduled w) (randomCalls w) (clock w)
    (output w) (listeners w).

Definition set_randomBtnDisabled (v : bool) (w : World) : World :=
  mkWorld (currentFilter w) (videoReady w) (mediaRecorder w) (recordedChunks
    w) (isRecording w) (canvas w) (video w) (descriptionHTML w)
    (descriptionVisible w) (filterButtons w) v (screenshotBtnDisabled w)
    (recordBtnDisabled w) (recordBtnRecording w) (filterListPointerEvents w)
    (intervals w) (nextHandle w) (scheduled w) (randomCalls w) (clock w)
    (output w) (listeners w).

Definition set_screenshotBtnDisabled (v : bool) (w : World) : World :=
  mkWorld (currentFilter w) (videoReady w) (mediaRecorder w) (recordedChunks
    w) (isRecording w) (canvas w) (video w) (descriptionHTML w)
    (descriptionVisible w) (filterButtons w) (randomBtnDisabled w) v
    (recordBtnDisabled w) (recordBtnRecording w) (filterListPointerEvents w)
    (intervals w) (nextHandle w) (scheduled w) (randomCalls w) (clock w)
    (output w) (listeners w).

Definition set_recordBtnDisabled (v : bool) (w : World) : World :=
  mkWorld (currentFilter w) (videoReady w) (mediaRecorder w) (recordedChunks
    w) (isRecording w) (canvas w) (video w) (descriptionHTML w)
    (descriptionVisible w) (filterButtons w) (randomBtnDisabled w)
    (screenshotBtnDisabled w) v (recordBtnRecording w)
    (filterListPointerEvents w) (intervals w) (nextHandle w) (scheduled w)
    (randomCalls w) (clock w) (output w) (listeners w).

Definition set_recordBtnRecording (v : bool) (w : World) : World :=
  mkWorld (currentFilter w) (videoReady w) (mediaRecorder w) (recordedChunks
    w) (isRecording w) (canvas w) (video w) (descriptionHTML w)
    (descriptionVisible w) (filterButtons w) (randomBtnDisabled w)
    (screenshotBtnDisabled w) (recordBtnDisabled w) v (filterListPointerEvents
    w) (intervals w) (nextHandle w) (scheduled w) (randomCalls w) (clock w)
    (output w) (listeners w).

Definition set_filterListPointerEvents (v : string) (w : World) : World :=
  mkWorld (currentFilter w) (videoReady w) (mediaRecorder w) (recordedChunks
    w) (isRecording w) (canvas w) (video w) (descriptionHTML w)
    (descriptionVisible w) (filterButtons w) (randomBtnDisabled w)
    (screenshotBtnDisabled w) (recordBtnDisabled w) (recordBtnRecording w) v
    (intervals w) (nextHandle w) (scheduled w) (randomCalls w) (clock w)
    (output w) (listeners w).

Definition set_intervals (v : gmap nat Z) (w : World) : World :=
  mkWorld (currentFilter w) (videoReady w) (mediaRecorder w) (recordedChunks
    w) (isRecording w) (canvas w) (video w) (descriptionHTML w)
    (descriptionVisible w) (filterButtons w) (randomBtnDisabled w)
    (screenshotBtnDisabled w) (recordBtnDisabled w) (recordBtnRecording w)
    (filterListPointerEvents w) v (nextHandle w) (scheduled w) (randomCalls w)
    (clock w) (output w) (listeners w).

Definition set_nextHandle (v : nat) (w : World) : World :=
  mkWorld (currentFilter w) (videoReady w) (mediaRecorder w) (recordedChunks
    w) (isRecording w) (canvas w) (video w) (descriptionHTML w)
    (descriptionVisible w) (filterButtons w) (randomBtnDisabled w)
    (screenshotBtnDisabled w) (recordBtnDisabled w) (recordBtnRecording w)
    (filterListPointerEvents w) (intervals w) v (scheduled w) (randomCalls w)
    (clock w) (output w) (listeners w).

Definition set_scheduled (v : list Scheduled) (w : World) : World :=
  mkWorld (currentFilter w) (videoReady w) (mediaRecorder w) (recordedChunks
    w) (isRecording w) (canvas w) (video w) (descriptionHTML w)
    (descriptionVisible w) (filterButtons w) (randomBtnDisabled w)
    (screenshotBtnDisabled w) (recordBtnDisabled w) (recordBtnRecording w)
    (filterListPointerEvents w) (intervals w) (nextHandle w) v (randomCalls w)
    (clock w) (output w) (listeners w).

Definition set_randomCalls (v : nat) (w : World) : World :=
  mkWorld (currentFilter w) (videoReady w) (mediaRecorder w) (recordedChunks
    w) (isRecording w) (canvas w) (video w) (descriptionHTML w)
    (descriptionVisible w) (filterButtons w) (randomBtnDisabled w)
    (screenshotBtnDisabled w) (recordBtnDisabled w) (recordBtnRecording w)
    (filterListPointerEvents w) (intervals w) (nextHandle w) (scheduled w) v
    (clock w) (output w) (listeners w).

Definition set_output (v : list Output) (w : World) : World :=
  mkWorld (currentFilter w) (videoReady w) (mediaRecorder w) (recordedChunks
    w) (isRecording w) (canvas w) (video w) (descriptionHTML w)
    (descriptionVisible w) (filterButtons w) (randomBtnDisabled w)
    (screenshotBtnDisabled w) (recordBtnDisabled w) (recordBtnRecording w)
    (filterListPointerEvents w) (intervals w) (nextHandle w) (scheduled w)
    (randomCalls w) (clock w) v (listeners w).

Definition set_listeners (v : list Control) (w : World) : World :=
  mkWorld (currentFilter w) (videoReady w) (mediaRecorder w) (recordedChunks
    w) (isRecording w) (canvas w) (video w) (descriptionHTML w)
    (descriptionVisible w) (filterButtons w) (randomBtnDisabled w)
    (screenshotBtnDisabled w) (recordBtnDisabled w) (recordBtnRecording w)
    (filterListPointerEvents w) (intervals w) (nextHandle w) (scheduled w)
    (randomCalls w) (clock w) (output w) v.

(** Assignment to one field of the canvas and of its drawing state. *)

Definition set_className (v : string) (c : Canvas) : Canvas :=
  mkCanvas (width c) (height c) v (bitmap c) (drawState c) (stateStack c).

Definition set_bitmap (v : list Z) (c : Canvas) : Canvas :=
  mkCanvas (width c) (height c) (className c) v (drawState c) (stateStack c).

Definition set_drawState (v : DrawState) (c : Canvas) : Canvas :=
  mkCanvas (width c) (height c) (className c) (bitmap c) v (stateStack c).

Definition set_stateStack (v : list DrawState) (c : Canvas) : Canvas :=
  mkCanvas (width c) (height c) (className c) (bitmap c) (drawState c) v.

Definition set_transform (v : Matrix) (s : DrawState) : DrawState :=
  mkDrawState v (fillStyle s) (filter s) (globalCompositeOperation s).

Definition set_fillStyle (v : Style) (s : DrawState) : DrawState :=
  mkDrawState (transform s) v (filter s) (globalCompositeOperation s).

Definition set_filter (v : string) (s : DrawState) : DrawState :=
  mkDrawState (transform s) (fillStyle s) v (globalCompositeOperation s).

Definition set_globalCompositeOperation (v : string) (s : DrawState) :
    DrawState :=
  mkDrawState (transform s) (fillStyle s) (filter s) v.

(** ** Computations *)

Inductive Completion (A : Type) : Type :=
| Normal (a : A)       (* the call returned *)
| Throw (e : JsError)  (* an exception left the call *)
| Unfinished.          (* a loop used up the steps it was given *)

Arguments Normal {A} a.
Arguments Throw {A} e.
Arguments Unfinished {A}.

Definition M (A : Type) : Type := World -> World * Completion A.

Definition ret {A} (a : A) : M A := fun w => (w, Normal a).

Definition bind {A B} (m : M A) (k : A -> M B) : M B :=
  fun w =>
    match m w with
    | (w', Normal a) => k a w'
    | (w', Throw e) => (w', Throw e)
    | (w', Unfinished) => (w', Unfinished)
    end.

Definition throw {A} (e : JsError) : M A := fun w => (w, Throw e).

Definition gets {A} (f : World -> A) : M A := fun w => (w, Normal (f w)).

Definition modify (f : World -> World) : M unit := fun w => (f w, Normal tt).

Notation "x <- m ;; k" := (bind m (fun x => k))
  (at level 100, m at next level, right associativity).
Notation "m ;; k" := (bind m (fun _ => k))
  (at level 100, right associativity).

(** [try { m } catch (err) { handler err }] *)
Definition tryCatch {A} (m : M A) (handler : JsError -> M A) : M A :=
  fun w =>
    match m w with
    | (w', Throw e) => handler e w'
    | r => r
    end.

(** Reading a property of a value that may be [undefined]. *)
Definition prop {A B} (o : option A) (f : A -> B) : M B :=
  match o with
  | Some a => ret (f a)
  | None => throw TypeError
  end.

Definition modifyCanvas (f : Canvas -> Canvas) : M unit :=
  modify (fun w => set_canvas (f (canvas w)) w).

Definition modifyDrawState (f : DrawState -> DrawState) : M unit :=
  modifyCanvas (fun c => set_drawState (f (drawState c)) c).

Definition emit (o : Output) : M unit :=
  modify (fun w => set_output (output w ++ [o]) w).

Definition schedule (s : Scheduled) : M unit :=
  modify (fun w => set_scheduled (scheduled w ++ [s]) w).

(** [ctx.save()] and [ctx.restore()]. *)
Definition save : M unit :=
  modifyCanvas (fun c => set_stateStack (drawState c :: stateStack c) c).

Definition restore : M unit :=
  modifyCanvas (fun c =>
    match stateStack c with
    | s :: rest => set_stateStack rest (set_drawState s c)
    | [] => c
    end).

Definition translate (tx ty : Z) : M unit :=
  modifyDrawState (fun s => set_transform (translateMatrix tx ty (transform s)) s).

Definition scale (sx sy : Z) : M unit :=
  modifyDrawState (fun s => set_transform (scaleMatrix sx sy (transform s)) s).

(** [getImageData(0, 0, canvas.width, canvas.height)]: a copy of the whole
    bitmap; a zero width or height is an IndexSizeError. *)
Definition getImageData : M ImageData :=
  c <- gets canvas ;;
  if ((width c =? 0) || (height c =? 0))%nat then throw IndexSizeError
  else ret (mkImageData (width c) (height c) (bitmap c)).

(** [createImageData(canvas.width, canvas.height)]: transparent black. *)
Definition createImageData : M ImageData :=
  c <- gets canvas ;;
  if ((width c =? 0) || (height c =? 0))%nat then throw IndexSizeError
  else ret (mkImageData (width c) (height c)
              (replicate (4 * (width c * height c)) 0%Z)).

(** [putImageData(img, 0, 0)] for an image of the canvas's own size: the
    bitmap becomes the image, whatever the transform and the blending. *)
Definition putImageData (img : ImageData) : M unit :=
  modifyCanvas (set_bitmap (data img)).

Definition numN (n : nat) : float := num (Z.of_nat n).

Section Program.

Variable P : Platform.

(** What a drawing call does to the bitmap. *)
Definition paint (call : DrawCall) : M unit :=
  modifyCanvas (fun c =>
    set_bitmap (raster P call (drawState c) (width c) (height c) (bitmap c)) c).

(** A drawing call.  [ctx.drawImage(canvas, ...)] throws an
    InvalidStateError when the canvas it reads from has width or height
    zero; [clearRect], [fillRect] and [drawImage(video, ...)] do not throw.
    (The arguments of the script's calls are finite: they are canvas sizes
    and products of values of [Math.random], which lie between 0 and 1.) *)
Definition draw (call : DrawCall) : M unit :=
  match call with
  | DrawCanvasSlice _ _ _ _ _ _ _ _ | DrawCanvasAt _ _ =>
      c <- gets canvas ;;
      if ((width c =? 0) || (height c =? 0))%nat then throw InvalidStateError
      else paint call
  | _ => paint call
  end.

Definition random : M float :=
  n <- gets randomCalls ;;
  modify (set_randomCalls (S n)) ;;
  ret (mathRandom P n).

(** *** 5. Filter logic *)

Definition toggleActive (filterId : string) (b : FilterButton) : FilterButton :=
  mkFilterButton (title b) (datasetFilter b) (innerHTML b)
                 (String.eqb (datasetFilter b) filterId).

Definition applyFilter (filterId : string) : M unit :=
  modify (set_currentFilter
            (find (fun a => String.eqb (Archetype.id a) filterId) archetypes)) ;;
  cf <- gets currentFilter ;;
  cls <- prop cf Archetype.id ;;
  modifyCanvas (set_className cls) ;;
  nm <- prop cf Archetype.name ;;
  ds <- prop cf Archetype.description ;;
  modify (set_descriptionHTML ("<h3>" ++ nm ++ "</h3><p>" ++ ds ++ "</p>")) ;;
  modify (set_descriptionVisible true) ;;
  modify (fun w => set_filterButtons (map (toggleActive filterId) (filterButtons w)) w).

Definition applyDynamicFilter (filterId : string) : M unit :=
  modifyDrawState (set_filter "none").

(** **** Shadow *)

Definition sliceGlitch : M unit :=
  c <- gets canvas ;;
  r1 <- random ;;
  let y := (r1 * numN (height c))%float in
  r2 <- random ;;
  let h := (r2 * 30 + 10)%float in
  r3 <- random ;;
  let xOffset := ((r3 - 0.5) * 40)%float in
  draw (DrawCanvasSlice xOffset y (numN (width c)) h 0 y (numN (width c)) h).

Definition applyShadowEffect : M unit :=
  c <- gets canvas ;;
  let width := numN (width c) in
  let height := numN (height c) in
  let gradient :=
    addColorStop 1 "rgba(0,0,0,0.85)"
      (addColorStop 0 "rgba(0,0,0,0)"
         (RadialGradient (width / 2) (height / 2) (width / 3)
                         (width / 2) (height / 2) (width / 1.5) []))%float in
  modifyDrawState (set_fillStyle gradient) ;;
  draw (FillRect 0 0 width height) ;;
  r <- random ;;
  (if (0.85 <? r)%float then sliceGlitch ;; sliceGlitch else ret tt) ;;
  r' <- random ;;
  if (0.95 <? r')%float then
    modifyDrawState (set_globalCompositeOperation "lighter") ;;
    r'' <- random ;;
    let offset := ((r'' - 0.5) * 10)%float in
    draw (DrawCanvasAt offset 0) ;;
    draw (DrawCanvasAt (- offset) 0) ;;
    modifyDrawState (set_globalCompositeOperation "source-over")
  else ret tt.

(** **** Anima *)

Definition luma (d : list Z) (i : nat) : float :=
  (numAt d i * 0.299 + numAt d (i + 1) * 0.587 + numAt d (i + 2) * 0.114)%float.

(** The indices visited by [for (let i = 0; i < len; i += 4)]. *)
Definition stride4 (len : nat) : list nat :=
  map (fun k => 4 * k) (seq 0 ((len + 3) / 4)).

Definition grayBody (d : list Z) (gray : list Z) (i : nat) : list Z :=
  <[i / 4 := ToUint8Clamp (luma d i)]> gray.

Definition grayscale (w h : nat) (d : list Z) : list Z :=
  fold_left (grayBody d) (stride4 (length d)) (replicate (w * h) 0%Z).

Definition threshold : Z := 20.

(** The kernel at index [i] of the grayscale array; [None] is the NaN of a
    load past the end. *)
Definition kernel (gray : list Z) (w i : nat) : option Z :=
  c ← gray !! i;
  l ← gray !! (i - 1);
  r ← gray !! (i + 1);
  t ← gray !! (i - w);
  b ← gray !! (i + w);
  Some (4 * c - l - r - t - b)%Z.

Definition isEdge (gray : list Z) (w i : nat) : bool :=
  match kernel gray w i with
  | Some val => (threshold <? Z.abs val)%Z
  | None => false
  end.

Definition edgeBody (gray : list Z) (w y x : nat) (out : list Z) : list Z :=
  let i := y * w + x in
  let outI := i * 4 in
  if isEdge gray w i then
    <[outI + 3 := 255%Z]> (<[outI + 2 := 255%Z]> (<[outI + 1 := 255%Z]>
      (<[outI := 255%Z]> out)))
  else
    <[outI + 3 := 255%Z]> (<[outI + 2 := 20%Z]> (<[outI + 1 := 20%Z]>
      (<[outI := 20%Z]> out))).

Definition edgeDetect (gray : list Z) (w h : nat) (out : list Z) : list Z :=
  fold_left
    (fun out y => fold_left (fun out x => edgeBody gray w y x out)
                            (seq 1 (w - 2)) out)
    (seq 1 (h - 2)) out.

Definition applyAnimaEffect : M unit :=
  c <- gets canvas ;;
  let width := width c in
  let height := height c in
  imageData <- getImageData ;;
  outputData <- createImageData ;;
  let gray := grayscale width height (data imageData) in
  let out := edgeDetect gray width height (data outputData) in
  putImageData (mkImageData (imgWidth outputData) (imgHeight outputData) out).

(** **** Self *)

Definition applySelfEffect : M unit :=
  c <- gets canvas ;;
  let w := numN (width c) in
  let h := numN (height c) in
  let gradient :=
    addColorStop 1 "rgba(255, 220, 150, 0.15)"
      (addColorStop 0 "rgba(255, 220, 150, 0.0)"
         (RadialGradient (w / 2) (h / 2) (w * 0.7)
                         (w / 2) (h / 2) (w * 0.3) []))%float in
  modifyDrawState (set_fillStyle gradient) ;;
  draw (FillRect 0 0 w h).

(** **** Persona *)

(** [for (let i = 0; i < data.length; i += 4) body], in place. *)
Definition forEachPixel (body : nat -> list Z -> list Z) (d : list Z) : list Z :=
  fold_left (fun d i => body i d) (stride4 (length d)) d.

Definition invert (v : Z) : Z := clamp8 (255 - v).

Definition invertBody (i : nat) (d : list Z) : list Z :=
  let d := alter invert i d in
  let d := alter invert (i + 1) d in
  alter invert (i + 2) d.

Definition applyPersonaEffect : M unit :=
  imageData <- getImageData ;;
  putImageData (mkImageData (imgWidth imageData) (imgHeight imageData)
                  (forEachPixel invertBody (data imageData))) ;;
  c <- gets canvas ;;
  let w := numN (width c) in
  let h := numN (height c) in
  let gradient :=
    addColorStop 1 "rgba(0, 0, 0, 0.15)"
      (addColorStop 0 "rgba(255, 255, 255, 0.05)"
         (RadialGradient (w / 2) (h / 2) (w * 0.4)
                         (w / 2) (h / 2) (w * 0.6) []))%float in
  modifyDrawState (set_fillStyle gradient) ;;
  draw (FillRect 0 0 w h).

(** **** Trickster *)

Definition shadowThreshold : float := 55.

Definition passionFactor : float := 1.8.

Definition tricksterBody (i : nat) (d : list Z) : list Z :=
  let luminance := luma d i in
  if (luminance <=? shadowThreshold)%float then
    <[i + 2 := 0%Z]> (<[i + 1 := 0%Z]> (<[i := 0%Z]> d))
  else
    <[i + 2 := 0%Z]> (<[i + 1 := 0%Z]>
      (<[i := ToUint8Clamp (luminance * passionFactor)]> d)).

Definition applyTricksterEffect : M unit :=
  imageData <- getImageData ;;
  putImageData (mkImageData (imgWidth imageData) (imgHeight imageData)
                  (forEachPixel tricksterBody (data imageData))).

(** **** Dispatch *)

Definition applyOverlayFilter (filterId : string) : M unit :=
  if String.eqb filterId "shadow" then applyShadowEffect
  else if String.eqb filterId "anima" then applyAnimaEffect
  else if String.eqb filterId "self" then applySelfEffect
  else if String.eqb filterId "persona" then applyPersonaEffect
  else if String.eqb filterId "trickster" then applyTricksterEffect
  else ret tt.

(** *** 4. Core functions *)

(** [video.onloadedmetadata] up to the start of playback: sizing the canvas
    resets its bitmap and its context. *)
Definition onloadedmetadata : M unit :=
  v <- gets video ;;
  modifyCanvas (fun c =>
    mkCanvas (videoWidth v) (videoHeight v) (className c)
             (replicate (4 * (videoWidth v * videoHeight v)) 0%Z)
             defaultDrawState []) ;;
  modify (fun w =>
    mkWorld (currentFilter w) true (mediaRecorder w) (recordedChunks w)
      (isRecording w) (canvas w) (video w) (descriptionHTML w)
      (descriptionVisible w) (filterButtons w) (randomBtnDisabled w)
      (screenshotBtnDisabled w) (recordBtnDisabled w) (recordBtnRecording w)
      (filterListPointerEvents w) (intervals w) (nextHandle w) (scheduled w)
      (randomCalls w) (clock w) (output w) (listeners w)).

(** One call of [renderLoop]. *)
Definition renderLoop : M unit :=
  ready <- gets videoReady ;;
  if negb ready then schedule AnimationFrame
  else
    save ;;
    c <- gets canvas ;;
    translate (Z.of_nat (width c)) 0 ;;
    scale (-1) 1 ;;
    draw (ClearRect 0 0 (numN (width c)) (numN (height c))) ;;
    cf <- gets currentFilter ;;
    fid <- prop cf Archetype.id ;;
    applyDynamicFilter fid ;;
    v <- gets video ;;
    draw (DrawVideo v 0 0 (numN (width c)) (numN (height c))) ;;
    cf <- gets currentFilter ;;
    fid <- prop cf Archetype.id ;;
    applyOverlayFilter fid ;;
    restore ;;
    schedule AnimationFrame.

(** *** 6. UI and event listeners *)

Definition initFilterButtons : M unit :=
  modify (fun w =>
    set_filterButtons
      (filterButtons w ++
       map (fun arch =>
              mkFilterButton (Archetype.name arch) (Archetype.id arch)
                ("<i class=" ++ dquote ++ Archetype.symbol arch ++ dquote
                 ++ "></i>")
                false)
           archetypes) w).

(** The click listener of the button made for [arch]. *)
Definition filterButtonClick (arch : Archetype.t) : M unit :=
  applyFilter (Archetype.id arch).

(** [archetypes[Math.floor(Math.random() * archetypes.length)]] *)
Definition randomArchetype : M (option Archetype.t) :=
  r <- random ;;
  ret (i ← floorIndex (r * numN (length archetypes))%float; archetypes !! i).

(** [do { finalArch = ... } while (finalArch.id === currentFilter.id)], for
    at most [fuel] rounds; the result is [finalArch.id]. *)
Fixpoint pickFinal (fuel : nat) : M string :=
  match fuel with
  | O => fun w => (w, Unfinished)
  | S fuel' =>
      finalArch <- randomArchetype ;;
      fid <- prop finalArch Archetype.id ;;
      cf <- gets currentFilter ;;
      cid <- prop cf Archetype.id ;;
      if String.eqb fid cid then pickFinal fuel' else ret fid
  end.

(** [randomFilterSlotMachine]: the closure variable [loops] lives with the
    interval it belongs to; the result is the interval's handle. *)
Definition randomFilterSlotMachine : M nat :=
  modify (set_randomBtnDisabled true) ;;
  modify (set_filterListPointerEvents "none") ;;
  h <- gets nextHandle ;;
  modify (set_nextHandle (S h)) ;;
  modify (fun w => set_intervals (<[h := 15%Z]> (intervals w)) w) ;;
  ret h.

(** The callback of interval [h]; a cleared interval is not called. *)
Definition spinTick (fuel : nat) (h : nat) : M unit :=
  ivs <- gets intervals ;;
  match ivs !! h with
  | None => ret tt
  | Some loops =>
      let loops := (loops - 1)%Z in
      modify (fun w => set_intervals (<[h := loops]> (intervals w)) w) ;;
      randomArch <- randomArchetype ;;
      rid <- prop randomArch Archetype.id ;;
      modifyCanvas (set_className rid) ;;
      modify (fun w =>
        set_filterButtons (map (toggleActive rid) (filterButtons w)) w) ;;
      if (loops <=? 0)%Z then
        modify (fun w => set_intervals (delete h (intervals w)) w) ;;
        fid <- pickFinal fuel ;;
        applyFilter fid ;;
        modify (set_randomBtnDisabled false) ;;
        modify (set_filterListPointerEvents "auto")
      else ret tt
  end.

(** [n] calls of the callback in a row. *)
Fixpoint spinTicks (fuel : nat) (h : nat) (n : nat) : M unit :=
  match n with
  | O => ret tt
  | S n' => spinTick fuel h ;; spinTicks fuel h n'
  end.

(** A click on the random button and the ticks of its interval, nothing
    else running in between. *)
Definition spin (fuel : nat) : M unit :=
  h <- randomFilterSlotMachine ;;
  spinTicks fuel h 15.

(** A spin that other handlers of the page interrupt: the click, [before]
    ticks of the interval, then [others], then the ticks that are left. *)
Definition spinWith (fuel before : nat) (others : M unit) : M unit :=
  h <- randomFilterSlotMachine ;;
  spinTicks fuel h before ;;
  others ;;
  spinTicks fuel h (15 - before).

Definition takeScreenshot : M unit :=
  cf <- gets currentFilter ;;
  fid <- prop cf Archetype.id ;;
  let download := ("jungian_mirror_" ++ fid ++ ".png")%string in
  save ;;
  c <- gets canvas ;;
  draw (ClearRect 0 0 (numN (width c)) (numN (height c))) ;;
  cf <- gets currentFilter ;;
  fid <- prop cf Archetype.id ;;
  applyDynamicFilter fid ;;
  v <- gets video ;;
  draw (DrawVideo v 0 0 (numN (width c)) (numN (height c))) ;;
  cf <- gets currentFilter ;;
  fid <- prop cf Archetype.id ;;
  applyOverlayFilter fid ;;
  c <- gets canvas ;;
  let href := encodePNG P (width c) (height c) (bitmap c) in
  restore ;;
  emit (Download download (DataURL href)).

(** *** 7. Video recording *)

Definition mimeTypes : list string :=
  [ ("video/mp4; codecs=" ++ dquote ++ "avc1.42E01E" ++ dquote)%string;
    "video/webm; codecs=vp9"%string;
    "video/webm; codecs=vp8"%string;
    "video/webm"%string ].

(** [mediaRecorder.stop()] on a recording recorder: it becomes inactive at
    once, its last data and its stop event come in a later task. *)
Definition stopRecording : M unit :=
  mr <- gets mediaRecorder ;;
  match mr with
  | Some r =>
      match state r with
      | recording =>
          modify (set_mediaRecorder (Some (mkMediaRecorder (mimeType r) inactive))) ;;
          schedule RecorderStopTask
      | _ => ret tt
      end
  | None => ret tt
  end ;;
  modify (set_isRecording false) ;;
  modify (set_recordBtnRecording false) ;;
  modify (set_recordBtnDisabled false) ;;
  modify (set_screenshotBtnDisabled false) ;;
  modify (set_randomBtnDisabled false) ;;
  modify (set_filterListPointerEvents "auto").

Definition startRecording : M unit :=
  busy <- gets isRecording ;;
  if busy then ret tt
  else
    modify (set_isRecording true) ;;
    modify (set_recordedChunks []) ;;
    modify (set_recordBtnRecording true) ;;
    modify (set_recordBtnDisabled true) ;;
    modify (set_screenshotBtnDisabled true) ;;
    modify (set_randomBtnDisabled true) ;;
    modify (set_filterListPointerEvents "none") ;;
    match find (isTypeSupported P) mimeTypes with
    | None =>
        emit (ConsoleError "No supported MIME type found for MediaRecorder") ;;
        emit (Alert "Video recording is not supported on this browser.") ;;
        stopRecording
    | Some supportedMimeType =>
        emit (ConsoleLog ("Using MIME type: " ++ supportedMimeType)) ;;
        modify (set_mediaRecorder
                  (Some (mkMediaRecorder supportedMimeType inactive))) ;;
        modify (set_mediaRecorder
                  (Some (mkMediaRecorder supportedMimeType recording))) ;;
        schedule (StopTimer 5000)
    end.

(** [mediaRecorder.ondataavailable] *)
Definition ondataavailable (eventData : Blob) : M unit :=
  if (0 <? length eventData)%nat then
    modify (fun w => set_recordedChunks (recordedChunks w ++ [eventData]) w)
  else ret tt.

Definition handleRecordingStop : M unit :=
  mr <- gets mediaRecorder ;;
  mt <- prop mr mimeType ;;
  let fileExtension :=
    if String.prefix "video/mp4" mt then "mp4"%string else "webm"%string in
  chunks <- gets recordedChunks ;;
  mt <- prop mr mimeType ;;
  cf <- gets currentFilter ;;
  fid <- prop cf Archetype.id ;;
  t <- gets clock ;;
  emit (Download ("jungian_mirror_" ++ fid ++ "_" ++ toString t ++ "."
                  ++ fileExtension)
                 (BlobOf mt chunks)).

(** *** 8. Start *)

(** [initEventListeners] *)
Definition initEventListeners : M unit :=
  modify (fun w =>
    set_listeners (listeners w ++ [RandomBtn; ScreenshotBtn; RecordBtn]) w).

(** [startCamera], by what the camera does.  The promise it returns is
    rejected, which is a throw at the [await] of [init], when [getUserMedia]
    fails (after the [catch] of [startCamera] has reported it), when the
    video element fires [error], and when [video.play()] rejects, which
    happens after [onloadedmetadata] has sized the canvas. *)
Definition startCamera : M unit :=
  match camera P with
  | GetUserMediaRejected name message =>
      emit (ConsoleErrorOf "Camera access denied or failed:"
                           (DOMException name message)) ;;
      (if String.eqb name "NotAllowedError" then
         emit (Alert "Camera permission was denied. Please allow camera access in your browser settings and refresh.")
       else
         emit (Alert ("Could not access webcam. Is it being used by another app? Error: "
                      ++ message))) ;;
      throw (DOMException name message)
  | VideoError =>
      emit (ConsoleErrorOf "Video element error:" ErrorEvent) ;;
      emit (Alert "Video element error. Cannot play stream.") ;;
      throw ErrorEvent
  | PlayRejected name message =>
      onloadedmetadata ;;
      emit (ConsoleErrorOf "Video play failed:" (DOMException name message)) ;;
      emit (Alert "Video playback failed. Please check console.") ;;
      throw (DOMException name message)
  | Playing =>
      onloadedmetadata ;;
      emit (ConsoleLog "Video playback started successfully.")
  end.

Definition init : M unit :=
  tryCatch
    (startCamera ;;
     initFilterButtons ;;
     initEventListeners ;;
     cf <- gets currentFilter ;;
     fid <- prop cf Archetype.id ;;
     applyFilter fid ;;
     renderLoop)
    (fun err => emit (ConsoleErrorOf "Error initializing app:" err)).

End Program.

(** The page before the script runs: an empty 300 by 150 canvas, and the
    initial values of the script's variables. *)
Definition initialWorld (v : Frame) (now : Z) : World :=
  mkWorld (archetypes !! 0%nat) false None [] false
          (mkCanvas 300 150 "" (replicate (4 * (300 * 150)) 0%Z)
                    defaultDrawState [])
          v "" false [] false false false false "auto"
          ∅ 0 [] 0 now [] [].

(** ** Well-formed states *)

(** A canvas bitmap holds four bytes for each pixel. *)
Definition wfCanvas (c : Canvas) : Prop :=
  length (bitmap c) = 4 * (width c * height c) /\ bytes (bitmap c).

(** What the Canvas API promises of every drawing call: the bitmap keeps
    its size and holds bytes. *)
Definition RasterOK (P : Platform) : Prop :=
  forall call st w h px,
    length px = 4 * (w * h) -> bytes px ->
    length (raster P call st w h px) = length px /\
    bytes (raster P call st w h px).

(** The catalog ids. *)
Definition catalogIds : list string := map Archetype.id archetypes.

(** [currentFilter] is one of the catalog's entries. *)
Definition validFilter (w : World) : Prop :=
  exists a, currentFilter w = Some a /\ a ∈ archetypes.

(** No recorder is recording unless [isRecording] is set. *)
Definition recorderIdle (w : World) : Prop :=
  isRecording w = false ->
  match mediaRecorder w with
  | Some r => state r <> recording
  | None => True
  end.

(** Pixel [k] of an RGBA array. *)
Definition pixelAt (px : list Z) (k : nat) : list Z := take 4 (drop (4 * k) px).

(** ** A platform to run examples on *)

Definition byteb (z : Z) : bool := ((0 <=? z) && (z <=? 255))%Z.

Definition mirrorRows (w h : nat) (px : list Z) : list Z :=
  flat_map (fun k => pixelAt px (k / w * w + (w - 1 - k mod w))) (seq 0 (w * h)).

(** The result of a drawing call, kept when it is a bitmap of the right
    size. *)
Definition checked (px r : list Z) : list Z :=
  if (length r =? length px)%nat && forallb byteb r then r else px.

(** Clearing the whole canvas and drawing a frame of the canvas's size are
    exact under the identity and under the horizontal mirror; fills and
    canvas-to-canvas copies are not rendered. *)
Definition testRaster (call : DrawCall) (st : DrawState) (w h : nat)
    (px : list Z) : list Z :=
  match call with
  | ClearRect _ _ _ _ => replicate (length px) 0%Z
  | DrawVideo v _ _ _ _ =>
      if (videoWidth v =? w)%nat && (videoHeight v =? h)%nat then
        checked px (if (ma (transform st) =? -1)%Z
                    then mirrorRows w h (framePixels v)
                    else framePixels v)
      else px
  | _ => px
  end.

Definition testPlatform (rnd : nat -> float) (supported : string -> bool) :
    Platform :=
  mkPlatform testRaster rnd (fun _ _ _ => "data:image/png;base64,"%string)
             supported Playing.

(** The platform [P] with a camera that does [o]. *)
Definition withCamera (o : CameraOutcome) (P : Platform) : Platform :=
  mkPlatform (raster P) (mathRandom P) (encodePNG P) (isTypeSupported P) o.

(** ** Channel values *)




(** ** Invariants of computations *)

(** [m] keeps the invariant [I] of the world, however it ends, and a value
    it returns satisfies [Q]. *)
Definition keeps {A} (I : World -> Prop) (m : M A) (Q : A -> Prop) : Prop :=
  forall w, I w ->
    I (fst (m w)) /\
    match snd (m w) with
    | Normal a => Q a
    | _ => True
    end.

Definition anyValue {A} (_ : A) : Prop := True.

(** The canvas is [W] by [H] and its bitmap is well formed. *)
Definition canvasInv (W H : nat) (w : World) : Prop :=
  width (canvas w) = W /\ height (canvas w) = H /\ wfCanvas (canvas w).

(** An RGBA array for a [W] by [H] image. *)
Definition rgba (W H : nat) (d : list Z) : Prop :=
  length d = 4 * (W * H) /\ bytes d.

(** ** Anima: the colour of an interior pixel *)

(** The four values the edge loop stores for the pixel with index [i]. *)
Definition edgePixel (gray : list Z) (w i : nat) : list Z :=
  if isEdge gray w i then [255; 255; 255; 255]%Z else [20; 20; 20; 255]%Z.




(** ** Example states *)

(** A world whose canvas is [W] by [H] and shows [px]. *)
Definition worldWith (W H : nat) (px : list Z) : World :=
  set_canvas (mkCanvas W H "" px defaultDrawState [])
             (initialWorld (mkFrame W H px) 0).

Definition black : list Z := [0; 0; 0; 255]%Z.

Definition white : list Z := [255; 255; 255; 255]%Z.


(** Three by three: a black pixel in the middle of white. *)
Definition ring : list Z :=
  white ++ white ++ white ++
  white ++ black ++ white ++
  white ++ white ++ white.

(** Two by one: a bright pixel, then a dark one. *)
Definition twoPixels : Frame :=
  mkFrame 2 1 [200; 200; 200; 255; 10; 10; 10; 255]%Z.

Definition examplePlatform : Platform :=
  testPlatform (fun _ => 0.5%float) (fun _ => false).

(** Selecting trickster, then one frame of the render loop on [twoPixels]. *)
Definition liveWorld : World :=
  fst (renderLoop examplePlatform
         (fst (applyFilter "trickster"
                 (fst (init examplePlatform (initialWorld twoPixels 0)))))).

(** ** The frame pipeline *)

(** Steps 3 to 6 of a render tick, which [renderLoop] and [takeScreenshot]
    both write out: clear, pre-draw filter, draw the video frame, overlay. *)
Definition compositeFrame (P : Platform) : M unit :=
  c <- gets canvas ;;
  draw P (ClearRect 0 0 (numN (width c)) (numN (height c))) ;;
  cf <- gets currentFilter ;;
  fid <- prop cf Archetype.id ;;
  applyDynamicFilter fid ;;
  v <- gets video ;;
  draw P (DrawVideo v 0 0 (numN (width c)) (numN (height c))) ;;
  cf <- gets currentFilter ;;
  fid <- prop cf Archetype.id ;;
  applyOverlayFilter P fid.

(** [w] is [w0] up to what drawing changes: the bitmap, the drawing state
    and the number of random values used. *)
Definition redrawn (w0 w : World) : Prop :=
  exists px st n,
    w = set_randomCalls n
          (set_canvas (set_drawState st (set_bitmap px (canvas w0))) w0).

(** The archetype that the [n]-th random value selects. *)
Definition drawn (P : Platform) (n : nat) : option Archetype.t :=
  i ← floorIndex (mathRandom P n * numN (length archetypes))%float;
  archetypes !! i.

(** What a tick of the spin shows for the archetype [b]: the canvas class
    and the active button. *)
Definition showTick (b : Archetype.t) (w : World) : World :=
  set_filterButtons (map (toggleActive (Archetype.id b)) (filterButtons w))
    (set_canvas (set_className (Archetype.id b) (canvas w)) w).

(** The end of the last tick, after the interval has been cleared. *)
Definition settle (P : Platform) (fuel : nat) : M unit :=
  fid <- pickFinal P fuel ;;
  applyFilter fid ;;
  modify (set_randomBtnDisabled false) ;;
  modify (set_filterListPointerEvents "auto").

(** During a spin: the current filter is [a] and interval [h] has [l]
    ticks to go. *)
Definition spinning (a : Archetype.t) (h : nat) (l : Z) (w : World) : Prop :=
  currentFilter w = Some a /\ intervals w !! h = Some l.

(** A platform whose first 18 random values select the last archetype and
    whose later ones select the second. *)
Definition spinPlatform : Platform :=
  testPlatform (fun n => if (n <? 18)%nat then 0.99%float else 0.3%float)
               (fun _ => false).

(** A platform whose random values are all 0, so that every draw selects
    the first archetype, and which supports no recording format. *)
Definition stillPlatform : Platform :=
  testPlatform (fun _ => 0%float) (fun _ => false).

(** The page after [init] on that platform: The Self is selected. *)
Definition startWorld : World :=
  fst (init stillPlatform (initialWorld twoPixels 0)).

(** A platform that supports the two VP formats only. *)
Definition webmPlatform : Platform :=
  testPlatform (fun _ => 0.5%float)
    (fun t => String.eqb t "video/webm; codecs=vp9"
              || String.eqb t "video/webm; codecs=vp8").

(** A recording in progress that has received one chunk. *)
Definition recordingWorld : World :=
  fst (ondataavailable [1; 2; 3]%Z (fst (startRecording webmPlatform liveWorld))).

(** ** Sequences of events *)

(** The recorder's dataavailable events, in the order they are fired. *)
Fixpoint deliverData (bs : list Blob) : M unit :=
  match bs with
  | [] => ret tt
  | b :: rest => ondataavailable b ;; deliverData rest
  end.

(** The task that [mediaRecorder.stop()] queues: the last data, then the
    stop event, whose listener is [handleRecordingStop]. *)
Definition recorderStopTask (lastData : Blob) : M unit :=
  ondataavailable lastData ;; handleRecordingStop.

(** [event.data.size > 0] *)
Definition nonEmpty (b : Blob) : bool := (0 <? length b)%nat.

(** The extension [handleRecordingStop] gives the file. *)
Definition fileExtensionOf (mt : string) : string :=
  if String.prefix "video/mp4" mt then "mp4"%string else "webm"%string.

(** ** Invariants of the page *)

(** The record and screenshot buttons are disabled, and the record button
    shows as recording, exactly while [isRecording] is set. *)
Definition controlsFollowRecording (w : World) : Prop :=
  recordBtnDisabled w = isRecording w /\
  screenshotBtnDisabled w = isRecording w /\
  recordBtnRecording w = isRecording w.

(** [w] has the recording variables and the recording controls of [w0]. *)
Definition recordingFrame (w0 w : World) : Prop :=
  isRecording w = isRecording w0 /\
  recordedChunks w = recordedChunks w0 /\
  mediaRecorder w = mediaRecorder w0 /\
  recordBtnDisabled w = recordBtnDisabled w0 /\
  screenshotBtnDisabled w = screenshotBtnDisabled w0 /\
  recordBtnRecording w = recordBtnRecording w0.

(** The label of a filter button: all of it but the [active] class. *)
Definition label (b : FilterButton) : string * string * string :=
  (title b, datasetFilter b, innerHTML b).

(** [w] is [w0] up to the selection: nothing was drawn, emitted or
    scheduled, the recording, the video and the clock are those of [w0], and
    the filter buttons are the same up to the [active] class. *)
Definition selectionFrame (w0 w : World) : Prop :=
  recordingFrame w0 w /\
  videoReady w = videoReady w0 /\ video w = video w0 /\
  width (canvas w) = width (canvas w0) /\
  height (canvas w) = height (canvas w0) /\
  bitmap (canvas w) = bitmap (canvas w0) /\
  drawState (canvas w) = drawState (canvas w0) /\
  stateStack (canvas w) = stateStack (canvas w0) /\
  scheduled w = scheduled w0 /\ clock w = clock w0 /\
  output w = output w0 /\
  map label (filterButtons w) = map label (filterButtons w0).

(** The page shows the archetype [a]: it is the current filter, the canvas
    has its class, the description is visible, and a filter button is active
    exactly when it is the button of [a]. *)
Definition shows (a : Archetype.t) (w : World) : Prop :=
  currentFilter w = Some a /\
  className (canvas w) = Archetype.id a /\
  descriptionVisible w = true /\
  Forall (fun b => active b = String.eqb (datasetFilter b) (Archetype.id a))
         (filterButtons w).

(** ** When a frame can be drawn *)

(** The effects that read the pixels back with [getImageData]. *)
Definition readsPixels (filterId : string) : bool :=
  String.eqb filterId "persona" || String.eqb filterId "anima"
  || String.eqb filterId "trickster".

(** A canvas without pixels. *)
Definition zeroArea (c : Canvas) : bool :=
  ((width c =? 0) || (height c =? 0))%nat.

(** [m] returns normally from every state. *)
Definition completes {A} (m : M A) : Prop :=
  forall w, exists w' a, m w = (w', Normal a).

(** What a frame that was drawn to the end leaves of [w]: a bitmap and a
    number of random values used. *)
Definition frameDone (px : list Z) (n : nat) (w : World) : World :=
  set_randomCalls n (set_canvas (set_bitmap px (canvas w)) w).

(** What a frame that failed midway leaves of [w]: the saved drawing state
    is still on the stack. *)
Definition frameFailed (px : list Z) (st : DrawState) (n : nat) (w : World)
    : World :=
  set_randomCalls n
    (set_canvas
       (set_stateStack (drawState (canvas w) :: stateStack (canvas w))
          (set_drawState st (set_bitmap px (canvas w)))) w).

(** ** The random values of the shadow effect *)

(** The vignette of the shadow effect on a canvas of width [w] and height
    [h]. *)
Definition shadowGradient (w h : nat) : Style :=
  addColorStop 1 "rgba(0,0,0,0.85)"
    (addColorStop 0 "rgba(0,0,0,0)"
       (RadialGradient (numN w / 2) (numN h / 2) (numN w / 3)
                       (numN w / 2) (numN h / 2) (numN w / 1.5) []))%float.

(** The slice glitch runs when the random value number [n] is above 0.85. *)
Definition glitches (P : Platform) (n : nat) : bool :=
  (0.85 <? mathRandom P n)%float.

(** The number of random values used once the slice glitch is over: one for
    the test, and three for each of the two slices. *)
Definition afterGlitch (P : Platform) (n : nat) : nat :=
  if glitches P n then 7 + n else 1 + n.

(** The colour split runs when the next random value is above 0.95. *)
Definition splits (P : Platform) (n : nat) : bool :=
  (0.95 <? mathRandom P (afterGlitch P n))%float.

(** The number of random values used once the effect is over. *)
Definition afterShadow (P : Platform) (n : nat) : nat :=
  if splits P n then 2 + afterGlitch P n else 1 + afterGlitch P n.

(** The drawing calls that read the canvas itself: [drawImage(canvas, ...)]. *)
Definition fromCanvas (call : DrawCall) : bool :=
  match call with
  | DrawCanvasSlice _ _ _ _ _ _ _ _ | DrawCanvasAt _ _ => true
  | _ => false
  end.

(** The shadow effect copies the canvas onto itself when the slice glitch
    or the colour split runs. *)
Definition copiesCanvas (P : Platform) (n : nat) : bool :=
  glitches P n || splits P n.

(** The error with which the overlay of [filterId] ends on the canvas [c]
    when [n] random values have been used so far, if it ends with one: on a
    canvas without pixels [getImageData] throws an IndexSizeError and
    [drawImage(canvas, ...)] an InvalidStateError. *)
Definition overlayError (P : Platform) (filterId : string) (c : Canvas)
    (n : nat) : option JsError :=
  if zeroArea c then
    if readsPixels filterId then Some IndexSizeError
    else if String.eqb filterId "shadow" && copiesCanvas P n
         then Some InvalidStateError
         else None
  else None.

Definition completionOf (o : option JsError) : Completion unit :=
  match o with
  | Some e => Throw e
  | None => Normal tt
  end.

(** [m] does not stop for want of steps. *)
Definition finishes {A} (m : M A) : Prop :=
  forall w, snd (m w) <> Unfinished.

(** ** The page after [init] *)

(** The camera outcomes in which the video loads its metadata, so that
    [onloadedmetadata] runs. *)
Definition loadsMetadata (o : CameraOutcome) : bool :=
  match o with
  | PlayRejected _ _ | Playing => true
  | _ => false
  end.

(** The button that [initFilterButtons] makes for [arch]. *)
Definition buttonLabel (arch : Archetype.t) : string * string * string :=
  (Archetype.name arch, Archetype.id arch,
   ("<i class=" ++ dquote ++ Archetype.symbol arch ++ dquote ++ "></i>")%string).

(* ===================================================================== *)
(** * Part II: properties *)
(* ===================================================================== *)

(** ** Numbers *)

Lemma floor_twice_nonneg (m : positive) (e : Z) : (0 <= floor_twice m e)%Z.
Proof.
  unfold floor_twice. destruct e.
  - apply Z.shiftl_nonneg. lia.
  - apply Z.shiftl_nonneg. lia.
  - apply Z.shiftr_nonneg. lia.
Qed.

Lemma ToUint8Clamp_byte (f : float) : byte (ToUint8Clamp f).
Proof.
  unfold ToUint8Clamp, byte.
  destruct (Prim2SF f) as [s|[|]| |[|] m e]; try lia.
  pose proof (floor_twice_nonneg m e) as Ht.
  set (t := floor_twice m e) in *.
  assert (0 <= t / 2)%Z by (apply Z.div_pos; lia).
  destruct (255 <=? t / 2)%Z eqn:E; [lia|].
  apply Z.leb_gt in E.
  repeat match goal with |- context [if ?b then _ else _] => destruct b end; lia.
Qed.

Lemma clamp8_byte (z : Z) : byte (clamp8 z).
Proof. unfold clamp8, byte. lia. Qed.

Lemma clamp8_id (z : Z) : byte z -> clamp8 z = z.
Proof. unfold clamp8, byte. lia. Qed.

Lemma invert_byte (v : Z) : byte v -> invert v = (255 - v)%Z.
Proof. unfold invert, clamp8, byte. lia. Qed.

Lemma invert_invert (v : Z) : byte v -> invert (invert v) = v.
Proof. unfold invert, clamp8, byte. lia. Qed.

(** ** Pixels of a flat RGBA array *)

Lemma pixelAt_lookup (d : list Z) (k j : nat) :
  j < 4 -> pixelAt d k !! j = d !! (4 * k + j).
Proof.
  intros Hj. unfold pixelAt.
  rewrite lookup_take_lt by exact Hj. apply lookup_drop.
Qed.

Lemma pixelAt_eq (d : list Z) (k : nat) (r g b a : Z) :
  pixelAt d k = [r; g; b; a] <->
  d !! (4 * k) = Some r /\ d !! (4 * k + 1) = Some g /\
  d !! (4 * k + 2) = Some b /\ d !! (4 * k + 3) = Some a.
Proof.
  split.
  - intros E.
    rewrite <- (Nat.add_0_r (4 * k)) at 1.
    rewrite <- !pixelAt_lookup by lia. rewrite E. auto.
  - intros (H0 & H1 & H2 & H3). unfold pixelAt.
    rewrite <- (Nat.add_0_r (4 * k)) in H0.
    rewrite <- lookup_drop in H0, H1, H2, H3.
    destruct (drop (4 * k) d) as [|x0 [|x1 [|x2 [|x3 rest]]]];
      simplify_eq/=; reflexivity.
Qed.


(** ** The loop over the pixels *)

Section PixelLoop.

Variable body : nat -> list Z -> list Z.

(** The body keeps the length of the array, *)
Hypothesis body_length : forall i d, length (body i d) = length d.

(** writes the four slots of its own pixel only, *)
Hypothesis body_frame :
  forall i d j, j < i \/ i + 4 <= j -> body i d !! j = d !! j.

(** and reads the four slots of its own pixel only. *)
Hypothesis body_local :
  forall i d d',
    length d = length d' ->
    (forall j, i <= j < i + 4 -> d !! j = d' !! j) ->
    forall j, i <= j < i + 4 -> body i d !! j = body i d' !! j.

Lemma fold_pixels_length (ks : list nat) (d : list Z) :
  length (fold_left (fun d i => body i d) ks d) = length d.
Proof.
  revert d; induction ks as [|k ks IH]; intros d; simpl; [reflexivity|].
  rewrite IH. apply body_length.
Qed.

Lemma fold_pixels_prefix (n : nat) (d : list Z) (j : nat) :
  fold_left (fun d i => body i d) (map (fun k => 4 * k) (seq 0 n)) d !! j =
  if decide (j < 4 * n) then body (4 * (j / 4)) d !! j else d !! j.
Proof.
  induction n as [|n IH] in j |- *.
  - cbn [seq map fold_left]. case_decide; [lia | reflexivity].
  - rewrite seq_S, map_app, fold_left_app. cbn [map fold_left Nat.add].
    set (prev := fold_left _ _ d) in *.
    assert (Hlen : length prev = length d)
      by (subst prev; apply fold_pixels_length).
    destruct (decide (j < 4 * n)) as [Hold|Hnew].
    + rewrite body_frame by lia. rewrite IH.
      rewrite !decide_True by lia. reflexivity.
    + destruct (decide (j < 4 * S n)) as [Hlt|Hge].
      * assert (Hq : j / 4 = n).
        { symmetry. apply (Nat.div_unique j 4 n (j - 4 * n)); lia. }
        rewrite Hq. apply body_local; [exact Hlen | | lia].
        intros j' Hj'. rewrite IH. rewrite decide_False by lia. reflexivity.
      * rewrite body_frame by lia. rewrite IH.
        rewrite decide_False by lia. reflexivity.
Qed.

(** Every slot of the result is the one the body computes for its pixel from
    the original array. *)
Lemma forEachPixel_lookup (d : list Z) (j : nat) :
  j < length d ->
  forEachPixel body d !! j = body (4 * (j / 4)) d !! j.
Proof.
  intros Hj. unfold forEachPixel, stride4.
  rewrite fold_pixels_prefix.
  case_decide as Hn; [reflexivity|].
  exfalso; apply Hn.
  pose proof (Nat.div_mod_eq (length d + 3) 4) as E.
  pose proof (Nat.mod_upper_bound (length d + 3) 4). lia.
Qed.

Lemma forEachPixel_length (d : list Z) :
  length (forEachPixel body d) = length d.
Proof. apply fold_pixels_length. Qed.


End PixelLoop.

(** A loop whose body keeps an invariant keeps it. *)
Lemma fold_left_invariant {A B} (I : A -> Prop) (f : A -> B -> A)
    (l : list B) (a : A) :
  (forall a b, I a -> I (f a b)) -> I a -> I (fold_left f l a).
Proof.
  intros Hf. revert a. induction l as [|b l IH]; intros a Ha; simpl; auto.
Qed.

(** ** Persona: the inversion *)

Lemma invertBody_lookup (i : nat) (d : list Z) (j : nat) :
  invertBody i d !! j =
  if decide (i <= j < i + 3) then invert <$> d !! j else d !! j.
Proof.
  unfold invertBody. rewrite !list_lookup_alter.
  repeat case_decide; subst; try lia; reflexivity.
Qed.

Lemma invertBody_length (i : nat) (d : list Z) :
  length (invertBody i d) = length d.
Proof. unfold invertBody. rewrite !length_alter. reflexivity. Qed.

Lemma invertBody_frame (i : nat) (d : list Z) (j : nat) :
  j < i \/ i + 4 <= j -> invertBody i d !! j = d !! j.
Proof. intros H. rewrite invertBody_lookup. rewrite decide_False by lia. reflexivity. Qed.

Lemma invertBody_local (i : nat) (d d' : list Z) :
  length d = length d' ->
  (forall j, i <= j < i + 4 -> d !! j = d' !! j) ->
  forall j, i <= j < i + 4 -> invertBody i d !! j = invertBody i d' !! j.
Proof.
  intros _ H j Hj. rewrite !invertBody_lookup. rewrite (H j Hj). reflexivity.
Qed.

(** The inversion loop, slot by slot: alpha slots stay, the others are
    inverted. *)
Lemma invert_loop_lookup (d : list Z) (j : nat) :
  forEachPixel invertBody d !! j =
  if decide (j mod 4 = 3) then d !! j else invert <$> d !! j.
Proof.
  destruct (decide (j < length d)) as [Hj|Hj].
  - rewrite (forEachPixel_lookup invertBody invertBody_length
               invertBody_frame invertBody_local) by exact Hj.
    rewrite invertBody_lookup.
    pose proof (Nat.div_mod_eq j 4). pose proof (Nat.mod_upper_bound j 4).
    repeat case_decide; try lia; reflexivity.
  - rewrite (lookup_ge_None_2 d j) by lia.
    rewrite lookup_ge_None_2; [case_decide; reflexivity|].
    rewrite (forEachPixel_length invertBody invertBody_length). lia.
Qed.

(** ** Running computations *)

Ltac run_unfold :=
  cbv [bind gets modify ret throw prop modifyCanvas modifyDrawState emit
       schedule].

Lemma bind_normal {A B} (m : M A) (k : A -> M B) (w w' : World) (a : A) :
  m w = (w', Normal a) -> bind m k w = k a w'.
Proof. intros E. unfold bind. rewrite E. reflexivity. Qed.

Lemma bind_throw {A B} (m : M A) (k : A -> M B) (w w' : World) (e : JsError) :
  m w = (w', Throw e) -> bind m k w = (w', Throw e).
Proof. intros E. unfold bind. rewrite E. reflexivity. Qed.

Lemma getImageData_ok (w : World) :
  width (canvas w) <> 0 -> height (canvas w) <> 0 ->
  getImageData w =
  (w, Normal (mkImageData (width (canvas w)) (height (canvas w))
                          (bitmap (canvas w)))).
Proof.
  intros Hw Hh. unfold getImageData. run_unfold.
  apply Nat.eqb_neq in Hw, Hh. rewrite Hw, Hh. reflexivity.
Qed.

Lemma getImageData_zero (w : World) :
  width (canvas w) = 0 \/ height (canvas w) = 0 ->
  getImageData w = (w, Throw IndexSizeError).
Proof.
  intros H. unfold getImageData. run_unfold.
  destruct H as [H|H]; rewrite H; cbn; [reflexivity|].
  rewrite orb_true_r. reflexivity.
Qed.

Lemma createImageData_ok (w : World) :
  width (canvas w) <> 0 -> height (canvas w) <> 0 ->
  createImageData w =
  (w, Normal (mkImageData (width (canvas w)) (height (canvas w))
                (replicate (4 * (width (canvas w) * height (canvas w))) 0%Z))).
Proof.
  intros Hw Hh. unfold createImageData. run_unfold.
  apply Nat.eqb_neq in Hw, Hh. rewrite Hw, Hh. reflexivity.
Qed.

(** ** Trickster *)




Lemma tricksterBody_length (i : nat) (d : list Z) :
  length (tricksterBody i d) = length d.
Proof.
  unfold tricksterBody. destruct (_ <=? _)%float; rewrite !length_insert; reflexivity.
Qed.








Lemma applyTricksterEffect_run (w : World) :
  width (canvas w) <> 0 -> height (canvas w) <> 0 ->
  applyTricksterEffect w =
  (set_canvas (set_bitmap (forEachPixel tricksterBody (bitmap (canvas w)))
                          (canvas w)) w, Normal tt).
Proof.
  intros Hw Hh. unfold applyTricksterEffect.
  rewrite (bind_normal _ _ _ _ _ (getImageData_ok w Hw Hh)). reflexivity.
Qed.



(** ** Persona *)

Lemma slot_mod4 (k c : nat) : c < 4 -> (4 * k + c) mod 4 = c.
Proof. intros H. symmetry. apply (Nat.mod_unique _ 4 k c); lia. Qed.

Lemma invert_loop_pixel (d : list Z) (k : nat) (r g b a : Z) :
  bytes d ->
  pixelAt d k = [r; g; b; a] ->
  pixelAt (forEachPixel invertBody d) k = [255 - r; 255 - g; 255 - b; a]%Z.
Proof.
  intros Hd E. apply pixelAt_eq in E. destruct E as (H0 & H1 & H2 & H3).
  pose proof (proj1 (Forall_lookup _ _) Hd) as Hb.
  apply pixelAt_eq. rewrite !invert_loop_lookup.
  rewrite H0, H1, H2, H3.
  pose proof (slot_mod4 k 0). pose proof (slot_mod4 k 1).
  pose proof (slot_mod4 k 2). pose proof (slot_mod4 k 3).
  rewrite Nat.add_0_r in *.
  repeat case_decide; try lia; cbn;
    rewrite ?invert_byte by eauto; auto.
Qed.

Lemma invert_loop_involutive (d : list Z) :
  bytes d -> forEachPixel invertBody (forEachPixel invertBody d) = d.
Proof.
  intros Hd. apply list_eq. intros j.
  rewrite !invert_loop_lookup.
  case_decide; [reflexivity|].
  destruct (d !! j) as [v|] eqn:E; [|reflexivity]. cbn.
  rewrite invert_invert; [reflexivity|].
  exact (proj1 (Forall_lookup _ _) Hd j v E).
Qed.

(** ** Invariants of computations *)

Lemma keeps_ret {A} (I : World -> Prop) (a : A) (Q : A -> Prop) :
  Q a -> keeps I (ret a) Q.
Proof. intros Ha w Hw. split; [exact Hw | exact Ha]. Qed.

Lemma keeps_throw {A} (I : World -> Prop) (e : JsError) (Q : A -> Prop) :
  keeps I (throw e) Q.
Proof. intros w Hw. split; [exact Hw | exact Logic.I]. Qed.

Lemma keeps_bind {A B} (I : World -> Prop) (m : M A) (k : A -> M B)
    (Q : A -> Prop) (R : B -> Prop) :
  keeps I m Q -> (forall a, Q a -> keeps I (k a) R) -> keeps I (bind m k) R.
Proof.
  intros Hm Hk w Hw. unfold bind.
  destruct (Hm w Hw) as [H1 H2].
  destruct (m w) as [w' [a|e|]]; cbn in *.
  - exact (Hk a H2 w' H1).
  - split; [exact H1 | exact Logic.I].
  - split; [exact H1 | exact Logic.I].
Qed.

Lemma keeps_gets {A} (I : World -> Prop) (f : World -> A) :
  keeps I (gets f) (fun a => exists w, I w /\ a = f w).
Proof. intros w Hw. split; [exact Hw | exists w; auto]. Qed.

Lemma keeps_modify (I : World -> Prop) (f : World -> World) (Q : unit -> Prop) :
  (forall w, I w -> I (f w)) -> (forall u, Q u) -> keeps I (modify f) Q.
Proof. intros Hf HQ w Hw. split; [exact (Hf w Hw) | apply HQ]. Qed.

Lemma keeps_weaken {A} (I : World -> Prop) (m : M A) (Q Q' : A -> Prop) :
  keeps I m Q -> (forall a, Q a -> Q' a) -> keeps I m Q'.
Proof.
  intros Hm HQ w Hw. destruct (Hm w Hw) as [H1 H2]. split; [exact H1|].
  destruct (snd (m w)); auto.
Qed.


(** A drawing call paints or throws before it has changed anything. *)
Lemma draw_cases (P : Platform) (call : DrawCall) (w : World) :
  draw P call w = paint P call w \/
  draw P call w = (w, Throw InvalidStateError).
Proof.
  destruct call; try (left; reflexivity);
    unfold draw, bind, gets; destruct (_ || _); auto.
Qed.

Lemma keeps_draw_of_paint (P : Platform) (I : World -> Prop)
    (call : DrawCall) :
  keeps I (paint P call) anyValue -> keeps I (draw P call) anyValue.
Proof.
  intros Hp w Hw. destruct (draw_cases P call w) as [-> | ->].
  - apply Hp, Hw.
  - split; [exact Hw | exact Logic.I].
Qed.

(** ** The effects keep the canvas well formed *)

Section CanvasInvariant.

Variable P : Platform.
Hypothesis raster_ok : RasterOK P.
Variables W H : nat.

Local Abbreviation Inv := (canvasInv W H).

Lemma keeps_modifyDrawState (f : DrawState -> DrawState) :
  keeps Inv (modifyDrawState f) anyValue.
Proof. apply keeps_modify; [|exact (fun _ => Logic.I)]. intros w Hw. exact Hw. Qed.

Lemma keeps_paint (call : DrawCall) : keeps Inv (paint P call) anyValue.
Proof.
  apply keeps_modify; [|exact (fun _ => Logic.I)].
  intros w (Hw & Hh & Hlen & Hb). unfold canvasInv, wfCanvas. cbn.
  destruct (raster_ok call (drawState (canvas w)) (width (canvas w))
              (height (canvas w)) (bitmap (canvas w)) Hlen Hb) as [H1 H2].
  repeat split; auto. lia.
Qed.

Lemma keeps_draw (call : DrawCall) : keeps Inv (draw P call) anyValue.
Proof. apply keeps_draw_of_paint, keeps_paint. Qed.

Lemma keeps_random : keeps Inv (random P) anyValue.
Proof.
  intros w Hw. split; [exact Hw | exact Logic.I].
Qed.

Lemma keeps_canvas : keeps Inv (gets canvas) (fun c => width c = W /\ height c = H).
Proof.
  eapply keeps_weaken; [apply keeps_gets|].
  intros c (w & (Hw & Hh & _) & ->). auto.
Qed.

Lemma keeps_getImageData : keeps Inv getImageData (fun img => rgba W H (data img)).
Proof.
  intros w (Hw & Hh & Hlen & Hb). unfold getImageData. run_unfold.
  destruct (_ || _); cbn; (split; [repeat split; assumption|]); [exact Logic.I|].
  split; [rewrite <- Hw, <- Hh; exact Hlen | exact Hb].
Qed.

Lemma keeps_createImageData :
  keeps Inv createImageData (fun img => rgba W H (data img)).
Proof.
  intros w (Hw & Hh & Hlen & Hb). unfold createImageData. run_unfold.
  destruct (_ || _); cbn; (split; [repeat split; assumption|]); [exact Logic.I|].
  split; [rewrite length_replicate, Hw, Hh; reflexivity|].
  apply Forall_replicate. unfold byte. lia.
Qed.

Lemma keeps_putImageData (img : ImageData) :
  rgba W H (data img) -> keeps Inv (putImageData img) anyValue.
Proof.
  intros [Hlen Hb]. apply keeps_modify; [|exact (fun _ => Logic.I)].
  intros w (Hw & Hh & _). unfold canvasInv, wfCanvas.
  cbn [canvas set_canvas width height bitmap set_bitmap].
  rewrite Hw, Hh. repeat split; auto.
Qed.

Lemma invert_loop_rgba (d : list Z) :
  rgba W H d -> rgba W H (forEachPixel invertBody d).
Proof.
  intros [Hlen Hb]. split.
  - rewrite (forEachPixel_length invertBody invertBody_length). exact Hlen.
  - unfold forEachPixel. apply fold_left_invariant; [|exact Hb].
    intros a i Ha. unfold invertBody.
    repeat (apply Forall_alter; [|intros; apply clamp8_byte]). exact Ha.
Qed.

Lemma trickster_loop_rgba (d : list Z) :
  rgba W H d -> rgba W H (forEachPixel tricksterBody d).
Proof.
  intros [Hlen Hb]. split.
  - rewrite (forEachPixel_length tricksterBody tricksterBody_length). exact Hlen.
  - unfold forEachPixel. apply fold_left_invariant; [|exact Hb].
    intros a i Ha. unfold tricksterBody.
    destruct (_ <=? _)%float;
      repeat (apply Forall_insert);
      first [exact Ha | apply ToUint8Clamp_byte | unfold byte; lia].
Qed.

Lemma edgeBody_rgba (gray : list Z) (w y x : nat) (out : list Z) :
  rgba W H out -> rgba W H (edgeBody gray w y x out).
Proof.
  intros [Hlen Hb]. unfold edgeBody. destruct (isEdge _ _ _); split;
    rewrite ?length_insert; try exact Hlen;
    repeat (apply Forall_insert); first [exact Hb | unfold byte; lia].
Qed.

Lemma edgeDetect_rgba (gray : list Z) (w h : nat) (out : list Z) :
  rgba W H out -> rgba W H (edgeDetect gray w h out).
Proof.
  intros Hout. unfold edgeDetect.
  apply fold_left_invariant; [|exact Hout].
  intros a y Ha. apply fold_left_invariant; [|exact Ha].
  intros a' x Ha'. apply edgeBody_rgba. exact Ha'.
Qed.

Lemma keeps_applySelfEffect : keeps Inv (applySelfEffect P) anyValue.
Proof.
  unfold applySelfEffect.
  eapply keeps_bind; [apply keeps_canvas|]. intros c _.
  eapply keeps_bind; [apply keeps_modifyDrawState|]. intros _ _.
  apply keeps_draw.
Qed.

Lemma keeps_sliceGlitch : keeps Inv (sliceGlitch P) anyValue.
Proof.
  unfold sliceGlitch.
  eapply keeps_bind; [apply keeps_canvas|]. intros c _.
  eapply keeps_bind; [apply keeps_random|]. intros r1 _.
  eapply keeps_bind; [apply keeps_random|]. intros r2 _.
  eapply keeps_bind; [apply keeps_random|]. intros r3 _.
  apply keeps_draw.
Qed.

Lemma keeps_applyShadowEffect : keeps Inv (applyShadowEffect P) anyValue.
Proof.
  unfold applyShadowEffect.
  eapply keeps_bind; [apply keeps_canvas|]. intros c _.
  eapply keeps_bind; [apply keeps_modifyDrawState|]. intros _ _.
  eapply keeps_bind; [apply keeps_draw|]. intros _ _.
  eapply keeps_bind; [apply keeps_random|]. intros r _.
  eapply keeps_bind.
  { instantiate (1 := anyValue). destruct (_ <? _)%float.
    - eapply keeps_bind; [apply keeps_sliceGlitch|]. intros _ _.
      apply keeps_sliceGlitch.
    - apply keeps_ret. exact Logic.I. }
  intros _ _.
  eapply keeps_bind; [apply keeps_random|]. intros r' _.
  destruct (_ <? _)%float; [|apply keeps_ret; exact Logic.I].
  eapply keeps_bind; [apply keeps_modifyDrawState|]. intros _ _.
  eapply keeps_bind; [apply keeps_random|]. intros r'' _.
  eapply keeps_bind; [apply keeps_draw|]. intros _ _.
  eapply keeps_bind; [apply keeps_draw|]. intros _ _.
  apply keeps_modifyDrawState.
Qed.

Lemma keeps_applyPersonaEffect : keeps Inv (applyPersonaEffect P) anyValue.
Proof.
  unfold applyPersonaEffect.
  eapply keeps_bind; [apply keeps_getImageData|]. intros img Himg.
  eapply keeps_bind.
  { apply keeps_putImageData. cbn. apply invert_loop_rgba. exact Himg. }
  intros _ _.
  eapply keeps_bind; [apply keeps_canvas|]. intros c _.
  eapply keeps_bind; [apply keeps_modifyDrawState|]. intros _ _.
  apply keeps_draw.
Qed.

Lemma keeps_applyTricksterEffect : keeps Inv applyTricksterEffect anyValue.
Proof.
  unfold applyTricksterEffect.
  eapply keeps_bind; [apply keeps_getImageData|]. intros img Himg.
  apply keeps_putImageData. cbn. apply trickster_loop_rgba. exact Himg.
Qed.

Lemma keeps_applyAnimaEffect : keeps Inv applyAnimaEffect anyValue.
Proof.
  unfold applyAnimaEffect.
  eapply keeps_bind; [apply keeps_canvas|]. intros c _.
  eapply keeps_bind; [apply keeps_getImageData|]. intros img Himg.
  eapply keeps_bind; [apply keeps_createImageData|]. intros out Hout.
  apply keeps_putImageData. cbn. apply edgeDetect_rgba. exact Hout.
Qed.

Lemma keeps_applyOverlayFilter (filterId : string) :
  keeps Inv (applyOverlayFilter P filterId) anyValue.
Proof.
  unfold applyOverlayFilter.
  destruct (String.eqb filterId "shadow"); [apply keeps_applyShadowEffect|].
  destruct (String.eqb filterId "anima"); [apply keeps_applyAnimaEffect|].
  destruct (String.eqb filterId "self"); [apply keeps_applySelfEffect|].
  destruct (String.eqb filterId "persona"); [apply keeps_applyPersonaEffect|].
  destruct (String.eqb filterId "trickster"); [apply keeps_applyTricksterEffect|].
  apply keeps_ret. exact Logic.I.
Qed.

End CanvasInvariant.

(** ** Anima *)





Lemma edgeBody_length (gray : list Z) (w y x : nat) (out : list Z) :
  length (edgeBody gray w y x out) = length out.
Proof.
  unfold edgeBody. destruct (isEdge _ _ _); rewrite !length_insert; reflexivity.
Qed.

Lemma edgeBody_lookup (gray : list Z) (w y x : nat) (out : list Z) (i c : nat) :
  c < 4 ->
  edgeBody gray w y x out !! (4 * i + c) =
  if decide (i = y * w + x /\ 4 * i + c < length out)
  then edgePixel gray w i !! c
  else out !! (4 * i + c).
Proof.
  intros Hc. unfold edgeBody, edgePixel.
  destruct (isEdge gray w (y * w + x)) eqn:E;
    rewrite !list_lookup_insert, !length_insert;
    repeat case_decide; destruct_and?; subst; try lia;
    rewrite ?E;
    try reflexivity;
    (assert (Hc' : c = 0 \/ c = 1 \/ c = 2 \/ c = 3) by lia;
     destruct Hc' as [-> | [-> | [-> | ->]]]; try lia; try reflexivity).
Qed.

Lemma edgeRow_length (gray : list Z) (w y : nat) (xs : list nat) (out : list Z) :
  length (fold_left (fun out x => edgeBody gray w y x out) xs out) = length out.
Proof.
  revert out. induction xs as [|x xs IH]; intros out; cbn [fold_left]; [reflexivity|].
  rewrite IH. apply edgeBody_length.
Qed.

Lemma edgeRow_lookup (gray : list Z) (w y n : nat) (out : list Z) (i c : nat) :
  c < 4 ->
  fold_left (fun out x => edgeBody gray w y x out) (seq 1 n) out !! (4 * i + c) =
  if decide (y * w + 1 <= i < y * w + 1 + n /\ 4 * i + c < length out)
  then edgePixel gray w i !! c
  else out !! (4 * i + c).
Proof.
  intros Hc. induction n as [|n IH].
  - cbn [seq fold_left]. rewrite decide_False by lia. reflexivity.
  - rewrite seq_S, fold_left_app. cbn [fold_left].
    rewrite edgeBody_lookup by exact Hc. rewrite edgeRow_length, IH.
    repeat case_decide; destruct_and?; subst; try lia; reflexivity.
Qed.

Lemma edgeDetect_length (gray : list Z) (w h : nat) (out : list Z) :
  length (edgeDetect gray w h out) = length out.
Proof.
  unfold edgeDetect. generalize (seq 1 (h - 2)). intros ys. revert out.
  induction ys as [|y ys IH]; intros out; cbn [fold_left]; [reflexivity|].
  rewrite IH. apply edgeRow_length.
Qed.

(** The cell [(y, x)] lies in the span of row [y'] that the inner loop
    visits exactly when it is an inner cell of that row. *)
Lemma cell_in_row (w y y' x : nat) :
  x < w ->
  (y' * w + 1 <= y * w + x < y' * w + 1 + (w - 2)) <->
  (y = y' /\ 1 <= x < w - 1).
Proof.
  intros Hx. split.
  - intros [H1 H2].
    destruct (lt_eq_lt_dec y y') as [[Hlt|Heq]|Hgt].
    + assert ((y + 1) * w <= y' * w) by (apply Nat.mul_le_mono_r; lia). lia.
    + subst. lia.
    + assert ((y' + 1) * w <= y * w) by (apply Nat.mul_le_mono_r; lia). lia.
  - intros [-> H]. lia.
Qed.

Lemma edgeRows_lookup (gray : list Z) (w m : nat) (out : list Z) (x y c : nat) :
  x < w -> c < 4 ->
  fold_left
    (fun out y => fold_left (fun out x => edgeBody gray w y x out)
                            (seq 1 (w - 2)) out)
    (seq 1 m) out !! (4 * (y * w + x) + c) =
  if decide ((1 <= y < 1 + m /\ 1 <= x < w - 1) /\
             4 * (y * w + x) + c < length out)
  then edgePixel gray w (y * w + x) !! c
  else out !! (4 * (y * w + x) + c).
Proof.
  intros Hx Hc. induction m as [|m IH].
  - cbn [seq fold_left]. rewrite decide_False by lia. reflexivity.
  - rewrite seq_S, fold_left_app. cbn [fold_left].
    rewrite edgeRow_lookup by exact Hc.
    fold (edgeDetect gray w (m + 2) out) in *.
    replace (seq 1 m) with (seq 1 (m + 2 - 2)) in * by (f_equal; lia).
    fold (edgeDetect gray w (m + 2) out) in *.
    rewrite edgeDetect_length, IH.
    pose proof (cell_in_row w y (1 + m) x Hx) as Hcell.
    repeat case_decide; destruct_and?; try reflexivity; exfalso; lia.
Qed.

(** The edge loop, cell by cell: an inner cell gets its edge colour, every
    other cell keeps what the output array held. *)
Lemma edgeDetect_lookup (gray : list Z) (w h : nat) (out : list Z) (x y c : nat) :
  x < w -> c < 4 -> 4 * (y * w + x) + c < length out ->
  edgeDetect gray w h out !! (4 * (y * w + x) + c) =
  if decide (1 <= y < h - 1 /\ 1 <= x < w - 1)
  then edgePixel gray w (y * w + x) !! c
  else out !! (4 * (y * w + x) + c).
Proof.
  intros Hx Hc Hlen. unfold edgeDetect.
  rewrite edgeRows_lookup by assumption.
  repeat case_decide; destruct_and?; try reflexivity; exfalso; lia.
Qed.

Lemma applyAnimaEffect_run (w : World) :
  width (canvas w) <> 0 -> height (canvas w) <> 0 ->
  applyAnimaEffect w =
  (set_canvas
     (set_bitmap
        (edgeDetect
           (grayscale (width (canvas w)) (height (canvas w)) (bitmap (canvas w)))
           (width (canvas w)) (height (canvas w))
           (replicate (4 * (width (canvas w) * height (canvas w))) 0%Z))
        (canvas w)) w,
   Normal tt).
Proof.
  intros Hw Hh. unfold applyAnimaEffect.
  rewrite (bind_normal _ _ w w (canvas w) eq_refl).
  rewrite (bind_normal _ _ _ _ _ (getImageData_ok w Hw Hh)).
  rewrite (bind_normal _ _ _ _ _ (createImageData_ok w Hw Hh)).
  reflexivity.
Qed.

Lemma pixelAt_of_lookup (d : list Z) (k : nat) (l : list Z) :
  length l = 4 ->
  (forall c, c < 4 -> d !! (4 * k + c) = l !! c) ->
  pixelAt d k = l.
Proof.
  intros Hl H. apply list_eq. intros c. unfold pixelAt.
  rewrite lookup_take. case_decide.
  - rewrite lookup_drop. auto.
  - symmetry. apply lookup_ge_None_2. lia.
Qed.

Lemma edgePixel_length (gray : list Z) (w i : nat) :
  length (edgePixel gray w i) = 4.
Proof. unfold edgePixel. destruct (isEdge _ _ _); reflexivity. Qed.

Lemma cell_index_bound (W H x y : nat) :
  x < W -> y < H -> y * W + x < W * H.
Proof.
  intros Hx Hy.
  assert ((y + 1) * W <= H * W) by (apply Nat.mul_le_mono_r; lia). lia.
Qed.

Section Anima.

Variable w : World.
Variables W H : nat.
Hypothesis width_w : width (canvas w) = W.
Hypothesis height_w : height (canvas w) = H.
Hypothesis wf_w : wfCanvas (canvas w).
Hypothesis W_pos : W <> 0.
Hypothesis H_pos : H <> 0.

Local Abbreviation d := (bitmap (canvas w)).
Local Abbreviation out := (bitmap (canvas (fst (applyAnimaEffect w)))).

Lemma anima_out :
  out = edgeDetect (grayscale W H d) W H (replicate (4 * (W * H)) 0%Z).
Proof.
  rewrite applyAnimaEffect_run by congruence.
  cbn [fst canvas set_canvas bitmap set_bitmap]. rewrite width_w, height_w.
  reflexivity.
Qed.


Lemma anima_inner_pixel (x y : nat) :
  1 <= x < W - 1 -> 1 <= y < H - 1 ->
  pixelAt out (y * W + x) = edgePixel (grayscale W H d) W (y * W + x).
Proof.
  intros Hx Hy. rewrite anima_out.
  apply pixelAt_of_lookup; [apply edgePixel_length|].
  intros c Hc.
  pose proof (cell_index_bound W H x y ltac:(lia) ltac:(lia)).
  rewrite edgeDetect_lookup by (rewrite ?length_replicate; lia).
  rewrite decide_True by lia. reflexivity.
Qed.

Lemma anima_outer_pixel (x y : nat) :
  x < W -> y < H -> x = 0 \/ x = W - 1 \/ y = 0 \/ y = H - 1 ->
  pixelAt out (y * W + x) = [0; 0; 0; 0]%Z.
Proof.
  intros Hx Hy Hborder. rewrite anima_out.
  pose proof (cell_index_bound W H x y Hx Hy).
  apply pixelAt_of_lookup; [reflexivity|].
  intros c Hc.
  rewrite edgeDetect_lookup by (rewrite ?length_replicate; lia).
  rewrite decide_False by lia.
  rewrite lookup_replicate_2 by lia.
  assert (Hc' : c = 0 \/ c = 1 \/ c = 2 \/ c = 3) by lia.
  destruct Hc' as [-> | [-> | [-> | ->]]]; reflexivity.
Qed.


End Anima.




(** C8 (as amended).  After the anima effect on a canvas of non-zero size
    every pixel of the 1-pixel border is transparent black (0,0,0,0),
    whatever it was before: the output image is created blank, the loop
    writes interior pixels only, and the whole image is put on the canvas. *)
Theorem anima_border_transparent (w : World) (W H : nat) :
  width (canvas w) = W -> height (canvas w) = H ->
  W <> 0 -> H <> 0 ->
  forall x y, x < W -> y < H ->
    x = 0 \/ x = W - 1 \/ y = 0 \/ y = H - 1 ->
    pixelAt (bitmap (canvas (fst (applyAnimaEffect w)))) (y * W + x)
    = [0; 0; 0; 0]%Z.
Proof.
  intros Hw Hh HW HH x y Hx Hy Hb.
  apply (anima_outer_pixel w W H); assumption.
Qed.

Lemma anima_border_transparent_witness :
  pixelAt (bitmap (canvas (fst (applyAnimaEffect (worldWith 3 3 ring)))))
          (0 * 3 + 2) = [0; 0; 0; 0]%Z.
Proof.
  exact (anima_border_transparent (worldWith 3 3 ring) 3 3 eq_refl eq_refl
           ltac:(discriminate) ltac:(discriminate) 2 0
           ltac:(lia) ltac:(lia) ltac:(lia)).
Defined.

(** C8, the claim as stated fails: the top-left pixel of [ring] is opaque
    white before the effect and transparent black after it. *)
Lemma anima_border_counterexample :
  pixelAt (bitmap (canvas (worldWith 3 3 ring))) 0 = [255; 255; 255; 255]%Z /\
  pixelAt (bitmap (canvas (fst (applyAnimaEffect (worldWith 3 3 ring))))) 0
  = [0; 0; 0; 0]%Z.
Proof. vm_compute. auto. Qed.

(** ** The example platform rasterises bitmaps *)

Lemma forallb_byteb (l : list Z) : forallb byteb l = true -> bytes l.
Proof.
  intros Hl. apply Forall_forall. intros z Hz.
  rewrite forallb_forall in Hl. apply list_elem_of_In in Hz.
  specialize (Hl z Hz). unfold byteb in Hl.
  apply andb_true_iff in Hl. destruct Hl as [H0 H1].
  apply Z.leb_le in H0, H1. split; assumption.
Qed.

Lemma checked_ok (px r : list Z) :
  bytes px -> length (checked px r) = length px /\ bytes (checked px r).
Proof.
  intros Hpx. unfold checked.
  destruct (length r =? length px) eqn:E; cbn; [|auto].
  destruct (forallb byteb r) eqn:F; [|auto].
  apply Nat.eqb_eq in E. split; [exact E | apply forallb_byteb; exact F].
Qed.

Lemma testPlatform_ok (rnd : nat -> float) (supported : string -> bool) :
  RasterOK (testPlatform rnd supported).
Proof.
  intros call st w h px Hlen Hpx. cbn [raster testPlatform].
  destruct call; cbn [testRaster]; auto.
  - split; [apply length_replicate|].
    apply Forall_replicate. unfold byte. lia.
  - destruct (_ && _); [apply checked_ok; exact Hpx | auto].
Qed.

(** ** The five effects *)

Lemma applyOverlayFilter_catalog (P : Platform) :
  catalogIds = ["self"; "persona"; "shadow"; "anima"; "trickster"]%string /\
  applyOverlayFilter P "self" = applySelfEffect P /\
  applyOverlayFilter P "persona" = applyPersonaEffect P /\
  applyOverlayFilter P "shadow" = applyShadowEffect P /\
  applyOverlayFilter P "anima" = applyAnimaEffect /\
  applyOverlayFilter P "trickster" = applyTricksterEffect.
Proof. repeat split. Qed.

(** C4.  On a platform whose drawing calls return bitmaps (the canvas keeps
    its size and stores bytes), applying the overlay of any effect id, the
    five catalog ids among them, to a well-formed canvas leaves the width and
    the height of the canvas as they were, and the bitmap afterwards has four
    values for each pixel, every one of them within [0,255].  This holds
    however the effect ends. *)
Theorem effects_keep_size_and_range (P : Platform) (filterId : string)
    (w : World) :
  RasterOK P -> wfCanvas (canvas w) ->
  let w' := fst (applyOverlayFilter P filterId w) in
  width (canvas w') = width (canvas w) /\
  height (canvas w') = height (canvas w) /\
  length (bitmap (canvas w')) = 4 * (width (canvas w) * height (canvas w)) /\
  Forall (fun v => 0 <= v <= 255)%Z (bitmap (canvas w')).
Proof.
  intros HP Hwf w'.
  destruct (keeps_applyOverlayFilter P HP (width (canvas w))
              (height (canvas w)) filterId w) as [(Hw & Hh & Hlen & Hb) _].
  { repeat split; try reflexivity; apply Hwf. }
  fold w' in Hw, Hh, Hlen, Hb. rewrite Hw, Hh in Hlen. auto.
Qed.

Lemma effects_keep_size_and_range_witness :
  RasterOK examplePlatform /\
  wfCanvas (canvas (worldWith 3 3 ring)) /\
  width (canvas (fst (applyOverlayFilter examplePlatform "trickster"
                        (worldWith 3 3 ring)))) = 3 /\
  height (canvas (fst (applyOverlayFilter examplePlatform "trickster"
                         (worldWith 3 3 ring)))) = 3 /\
  length (bitmap (canvas (fst (applyOverlayFilter examplePlatform "trickster"
                                 (worldWith 3 3 ring))))) = 4 * (3 * 3) /\
  Forall (fun v => 0 <= v <= 255)%Z
    (bitmap (canvas (fst (applyOverlayFilter examplePlatform "trickster"
                            (worldWith 3 3 ring))))).
Proof.
  assert (HP : RasterOK examplePlatform) by apply testPlatform_ok.
  assert (Hwf : wfCanvas (canvas (worldWith 3 3 ring))).
  { split; [reflexivity|]. repeat constructor; unfold byte; lia. }
  split; [exact HP|]. split; [exact Hwf|].
  exact (effects_keep_size_and_range examplePlatform "trickster"
           (worldWith 3 3 ring) HP Hwf).
Defined.

(** ** Persona *)

Lemma applyPersonaEffect_run (P : Platform) (w : World) :
  width (canvas w) <> 0 -> height (canvas w) <> 0 ->
  let w' := fst (applyPersonaEffect P w) in
  snd (applyPersonaEffect P w) = Normal tt /\
  bitmap (canvas w') =
  raster P (FillRect 0 0 (numN (width (canvas w))) (numN (height (canvas w))))
         (drawState (canvas w')) (width (canvas w)) (height (canvas w))
         (forEachPixel invertBody (bitmap (canvas w))).
Proof.
  intros Hw Hh. unfold applyPersonaEffect.
  rewrite (bind_normal _ _ _ _ _ (getImageData_ok w Hw Hh)).
  split; reflexivity.
Qed.

(** C6.  The persona effect inverts the bitmap and then fills the vignette
    over the inverted bitmap.  The inversion maps the red, green and blue
    value of every pixel to 255 minus the value and leaves alpha as it is,
    and it is an involution: inverting twice gives the original array
    back. *)
Theorem persona_inversion_involutive :
  (forall (P : Platform) (w : World),
      width (canvas w) <> 0 -> height (canvas w) <> 0 ->
      let w' := fst (applyPersonaEffect P w) in
      snd (applyPersonaEffect P w) = Normal tt /\
      bitmap (canvas w') =
      raster P
        (FillRect 0 0 (numN (width (canvas w))) (numN (height (canvas w))))
        (drawState (canvas w')) (width (canvas w)) (height (canvas w))
        (forEachPixel invertBody (bitmap (canvas w)))) /\
  (forall (d : list Z) (k : nat) (r g b a : Z),
      bytes d -> pixelAt d k = [r; g; b; a] ->
      pixelAt (forEachPixel invertBody d) k
      = [255 - r; 255 - g; 255 - b; a]%Z) /\
  (forall d : list Z,
      bytes d -> forEachPixel invertBody (forEachPixel invertBody d) = d).
Proof.
  split; [exact applyPersonaEffect_run|].
  split; [intros; apply invert_loop_pixel; assumption|].
  exact invert_loop_involutive.
Qed.

Lemma persona_inversion_involutive_witness :
  bytes [0; 10; 255; 77; 1; 2; 3; 4]%Z /\
  forEachPixel invertBody (forEachPixel invertBody [0; 10; 255; 77; 1; 2; 3; 4]%Z)
  = [0; 10; 255; 77; 1; 2; 3; 4]%Z.
Proof.
  assert (Hb : bytes [0; 10; 255; 77; 1; 2; 3; 4]%Z)
    by (repeat constructor; unfold byte; lia).
  split; [exact Hb|].
  exact (proj2 (proj2 persona_inversion_involutive) _ Hb).
Defined.

(** ** Drawing changes the bitmap and the drawing state only *)

Lemma redrawn_refl (w : World) : redrawn w w.
Proof.
  exists (bitmap (canvas w)), (drawState (canvas w)), (randomCalls w).
  destruct w as [? ? ? ? ? [] ? ? ? ? ? ? ? ? ? ? ? ? ? ? ? ?]. reflexivity.
Qed.

Section Redrawn.

Variable P : Platform.
Variable w0 : World.

Local Abbreviation Inv := (redrawn w0).

Lemma redrawn_modifyCanvas (f : Canvas -> Canvas) :
  (forall c, exists px st, f c = set_drawState st (set_bitmap px c)) ->
  keeps Inv (modifyCanvas f) anyValue.
Proof.
  intros Hf. apply keeps_modify; [|exact (fun _ => Logic.I)].
  intros w (px & st & n & ->).
  destruct (Hf (canvas (set_randomCalls n
      (set_canvas (set_drawState st (set_bitmap px (canvas w0))) w0))))
    as (px' & st' & E).
  exists px', st', n. rewrite E. reflexivity.
Qed.

Lemma redrawn_modifyDrawState (f : DrawState -> DrawState) :
  keeps Inv (modifyDrawState f) anyValue.
Proof.
  apply redrawn_modifyCanvas. intros c.
  exists (bitmap c), (f (drawState c)). destruct c. reflexivity.
Qed.

Lemma redrawn_draw (call : DrawCall) : keeps Inv (draw P call) anyValue.
Proof.
  apply keeps_draw_of_paint.
  apply redrawn_modifyCanvas. intros c.
  exists (raster P call (drawState c) (width c) (height c) (bitmap c)),
         (drawState c).
  destruct c. reflexivity.
Qed.

Lemma redrawn_putImageData (img : ImageData) :
  keeps Inv (putImageData img) anyValue.
Proof.
  apply redrawn_modifyCanvas. intros c.
  exists (data img), (drawState c). destruct c. reflexivity.
Qed.

Lemma redrawn_random : keeps Inv (random P) anyValue.
Proof.
  intros w (px & st & n & ->). split; [|exact Logic.I].
  exists px, st, (S n). reflexivity.
Qed.

Lemma redrawn_getImageData : keeps Inv getImageData anyValue.
Proof.
  intros w Hw. unfold getImageData. run_unfold.
  destruct (_ || _); split; solve [exact Hw | exact Logic.I].
Qed.

Lemma redrawn_createImageData : keeps Inv createImageData anyValue.
Proof.
  intros w Hw. unfold createImageData. run_unfold.
  destruct (_ || _); split; solve [exact Hw | exact Logic.I].
Qed.

Lemma redrawn_canvas : keeps Inv (gets canvas) anyValue.
Proof. intros w Hw. split; [exact Hw | exact Logic.I]. Qed.

Lemma redrawn_sliceGlitch : keeps Inv (sliceGlitch P) anyValue.
Proof.
  unfold sliceGlitch.
  eapply keeps_bind; [apply redrawn_canvas|]. intros c _.
  eapply keeps_bind; [apply redrawn_random|]. intros r1 _.
  eapply keeps_bind; [apply redrawn_random|]. intros r2 _.
  eapply keeps_bind; [apply redrawn_random|]. intros r3 _.
  apply redrawn_draw.
Qed.

Lemma redrawn_applyShadowEffect : keeps Inv (applyShadowEffect P) anyValue.
Proof.
  unfold applyShadowEffect.
  eapply keeps_bind; [apply redrawn_canvas|]. intros c _.
  eapply keeps_bind; [apply redrawn_modifyDrawState|]. intros _ _.
  eapply keeps_bind; [apply redrawn_draw|]. intros _ _.
  eapply keeps_bind; [apply redrawn_random|]. intros r _.
  eapply keeps_bind.
  { instantiate (1 := anyValue). destruct (_ <? _)%float.
    - eapply keeps_bind; [apply redrawn_sliceGlitch|]. intros _ _.
      apply redrawn_sliceGlitch.
    - apply keeps_ret. exact Logic.I. }
  intros _ _.
  eapply keeps_bind; [apply redrawn_random|]. intros r' _.
  destruct (_ <? _)%float; [|apply keeps_ret; exact Logic.I].
  eapply keeps_bind; [apply redrawn_modifyDrawState|]. intros _ _.
  eapply keeps_bind; [apply redrawn_random|]. intros r'' _.
  eapply keeps_bind; [apply redrawn_draw|]. intros _ _.
  eapply keeps_bind; [apply redrawn_draw|]. intros _ _.
  apply redrawn_modifyDrawState.
Qed.

Lemma redrawn_applyOverlayFilter (filterId : string) :
  keeps Inv (applyOverlayFilter P filterId) anyValue.
Proof.
  unfold applyOverlayFilter.
  destruct (String.eqb filterId "shadow"); [apply redrawn_applyShadowEffect|].
  destruct (String.eqb filterId "anima").
  { unfold applyAnimaEffect.
    eapply keeps_bind; [apply redrawn_canvas|]. intros c _.
    eapply keeps_bind; [apply redrawn_getImageData|]. intros img _.
    eapply keeps_bind; [apply redrawn_createImageData|]. intros o _.
    apply redrawn_putImageData. }
  destruct (String.eqb filterId "self").
  { unfold applySelfEffect.
    eapply keeps_bind; [apply redrawn_canvas|]. intros c _.
    eapply keeps_bind; [apply redrawn_modifyDrawState|]. intros _ _.
    apply redrawn_draw. }
  destruct (String.eqb filterId "persona").
  { unfold applyPersonaEffect.
    eapply keeps_bind; [apply redrawn_getImageData|]. intros img _.
    eapply keeps_bind; [apply redrawn_putImageData|]. intros _ _.
    eapply keeps_bind; [apply redrawn_canvas|]. intros c _.
    eapply keeps_bind; [apply redrawn_modifyDrawState|]. intros _ _.
    apply redrawn_draw. }
  destruct (String.eqb filterId "trickster").
  { unfold applyTricksterEffect.
    eapply keeps_bind; [apply redrawn_getImageData|]. intros img _.
    apply redrawn_putImageData. }
  apply keeps_ret. exact Logic.I.
Qed.

Lemma redrawn_compositeFrame : keeps Inv (compositeFrame P) anyValue.
Proof.
  unfold compositeFrame.
  eapply keeps_bind; [apply redrawn_canvas|]. intros c _.
  eapply keeps_bind; [apply redrawn_draw|]. intros _ _.
  eapply keeps_bind; [apply (keeps_gets _ currentFilter)|]. intros cf _.
  eapply keeps_bind.
  { instantiate (1 := anyValue). destruct cf;
      [apply keeps_ret; exact Logic.I | apply keeps_throw]. }
  intros fid _.
  eapply keeps_bind; [apply redrawn_modifyDrawState|]. intros _ _.
  eapply keeps_bind; [apply (keeps_gets _ video)|]. intros v _.
  eapply keeps_bind; [apply redrawn_draw|]. intros _ _.
  eapply keeps_bind; [apply (keeps_gets _ currentFilter)|]. intros cf' _.
  eapply keeps_bind.
  { instantiate (1 := anyValue). destruct cf';
      [apply keeps_ret; exact Logic.I | apply keeps_throw]. }
  intros fid' _.
  apply redrawn_applyOverlayFilter.
Qed.

End Redrawn.

Lemma compositeFrame_frame (P : Platform) (w : World) :
  redrawn w (fst (compositeFrame P w)).
Proof. exact (proj1 (redrawn_compositeFrame P w w (redrawn_refl w))). Qed.

(** ** Render tick and snapshot *)

Ltac proj :=
  cbn [fst snd negb
       currentFilter videoReady mediaRecorder recordedChunks isRecording canvas
       video descriptionHTML descriptionVisible filterButtons randomBtnDisabled
       screenshotBtnDisabled recordBtnDisabled recordBtnRecording
       filterListPointerEvents intervals nextHandle scheduled randomCalls clock
       output listeners set_listeners
       set_currentFilter set_mediaRecorder set_recordedChunks set_isRecording
       set_canvas set_descriptionHTML set_descriptionVisible set_filterButtons
       set_randomBtnDisabled set_screenshotBtnDisabled set_recordBtnDisabled
       set_recordBtnRecording set_filterListPointerEvents set_intervals
       set_nextHandle set_scheduled set_randomCalls set_output
       width height className bitmap drawState stateStack
       set_className set_bitmap set_drawState set_stateStack
       transform fillStyle filter globalCompositeOperation
       set_transform set_fillStyle set_filter set_globalCompositeOperation].

Ltac run :=
  cbv [bind gets modify ret throw prop modifyCanvas modifyDrawState emit
       schedule save restore translate scale draw paint applyDynamicFilter];
  proj.

Lemma bind_assoc {A B C} (m : M A) (k : A -> M B) (k' : B -> M C) (w : World) :
  bind (bind m k) k' w = bind m (fun a => bind (k a) k') w.
Proof. unfold bind. destruct (m w) as [w' [a|e|]]; reflexivity. Qed.

Lemma bind_ext {A B} (m : M A) (k k' : A -> M B) (w : World) :
  (forall a w', k a w' = k' a w') -> bind m k w = bind m k' w.
Proof. intros E. unfold bind. destruct (m w) as [w' [a|e|]]; auto. Qed.

Lemma bind_modify {B} (f : World -> World) (k : unit -> M B) (w : World) :
  bind (modify f) k w = k tt (f w).
Proof. reflexivity. Qed.

Lemma bind_gets {A B} (f : World -> A) (k : A -> M B) (w : World) :
  bind (gets f) k w = k (f w) w.
Proof. reflexivity. Qed.

Lemma bind_ret {A B} (a : A) (k : A -> M B) (w : World) :
  bind (ret a) k w = k a w.
Proof. reflexivity. Qed.

Ltac flatten_bind :=
  repeat (rewrite bind_assoc; apply bind_ext; intros ? ?).

(** The pipeline followed by [k], as one chain. *)
Lemma compositeFrame_bind {B} (P : Platform) (k : unit -> M B) (w : World) :
  bind (compositeFrame P) k w =
  (c <- gets canvas ;;
   draw P (ClearRect 0 0 (numN (width c)) (numN (height c))) ;;
   cf <- gets currentFilter ;;
   fid <- prop cf Archetype.id ;;
   applyDynamicFilter fid ;;
   v <- gets video ;;
   draw P (DrawVideo v 0 0 (numN (width c)) (numN (height c))) ;;
   cf <- gets currentFilter ;;
   fid <- prop cf Archetype.id ;;
   u <- applyOverlayFilter P fid ;;
   k u) w.
Proof. unfold compositeFrame. flatten_bind. reflexivity. Qed.

Lemma renderLoop_pipeline (P : Platform) (w : World) (a : Archetype.t) :
  currentFilter w = Some a -> videoReady w = true ->
  renderLoop P w =
  (save ;;
   c <- gets canvas ;;
   translate (Z.of_nat (width c)) 0 ;;
   scale (-1) 1 ;;
   compositeFrame P ;;
   restore ;;
   schedule AnimationFrame) w.
Proof.
  intros Hcf Hready. unfold renderLoop.
  rewrite (bind_normal (gets videoReady) _ w w true)
    by (unfold gets; rewrite Hready; reflexivity).
  cbn [negb].
  unfold save, translate, scale, modifyDrawState, modifyCanvas.
  do 2 rewrite bind_modify.
  do 2 rewrite bind_gets.
  do 4 rewrite bind_modify.
  rewrite compositeFrame_bind, bind_gets.
  proj. reflexivity.
Qed.

Lemma takeScreenshot_pipeline (P : Platform) (w : World) (a : Archetype.t) :
  currentFilter w = Some a ->
  takeScreenshot P w =
  (save ;;
   compositeFrame P ;;
   c <- gets canvas ;;
   restore ;;
   emit (Download ("jungian_mirror_" ++ Archetype.id a ++ ".png")
                  (DataURL (encodePNG P (width c) (height c) (bitmap c))))) w.
Proof.
  intros Hcf. unfold takeScreenshot.
  rewrite (bind_normal (gets currentFilter) _ w w (Some a))
    by (unfold gets; rewrite Hcf; reflexivity).
  rewrite (bind_normal (prop (Some a) Archetype.id) _ w w (Archetype.id a) eq_refl).
  apply bind_ext. intros _ w1.
  rewrite compositeFrame_bind. reflexivity.
Qed.

(** C3 (as amended).  The snapshot draws one frame on the live canvas
    itself; there is no scratch buffer.  It runs the pipeline of steps 3 to 6
    of the render tick (clear, pre-draw filter, draw the video frame,
    overlay), which the tick runs after mirroring, in the drawing state the
    context is in when the snapshot is taken, that is without the mirror.
    When the pipeline ends normally the canvas bitmap is the frame just drawn
    (the live canvas shows the snapshot frame until the next tick redraws
    it), that frame is what is encoded and handed out as
    [jungian_mirror_<id>.png], and the drawing state and the stack of saved
    states are again those of before the snapshot. *)
Theorem takeScreenshot_on_live_canvas (P : Platform) (w : World)
    (a : Archetype.t) :
  currentFilter w = Some a ->
  (videoReady w = true ->
   renderLoop P w =
   (save ;;
    c <- gets canvas ;;
    translate (Z.of_nat (width c)) 0 ;;
    scale (-1) 1 ;;
    compositeFrame P ;;
    restore ;;
    schedule AnimationFrame) w) /\
  takeScreenshot P w =
  (save ;;
   compositeFrame P ;;
   c <- gets canvas ;;
   restore ;;
   emit (Download ("jungian_mirror_" ++ Archetype.id a ++ ".png")
                  (DataURL (encodePNG P (width c) (height c) (bitmap c))))) w /\
  drawState (canvas (fst (save w))) = drawState (canvas w) /\
  bitmap (canvas (fst (save w))) = bitmap (canvas w) /\
  (forall w1,
     compositeFrame P (fst (save w)) = (w1, Normal tt) ->
     let w' := fst (takeScreenshot P w) in
     snd (takeScreenshot P w) = Normal tt /\
     bitmap (canvas w') = bitmap (canvas w1) /\
     drawState (canvas w') = drawState (canvas w) /\
     stateStack (canvas w') = stateStack (canvas w) /\
     output w' =
     output w ++
     [Download ("jungian_mirror_" ++ Archetype.id a ++ ".png")
        (DataURL (encodePNG P (width (canvas w)) (height (canvas w))
                            (bitmap (canvas w1))))]).
Proof.
  intros Hcf.
  split; [intros Hready; exact (renderLoop_pipeline P w a Hcf Hready)|].
  split; [exact (takeScreenshot_pipeline P w a Hcf)|].
  split; [reflexivity|]. split; [reflexivity|].
  intros w1 Hframe w'. subst w'.
  rewrite (takeScreenshot_pipeline P w a Hcf).
  pose proof (compositeFrame_frame P (fst (save w))) as Hred.
  rewrite Hframe in Hred. destruct Hred as (px & st & n & Hw1).
  cbn [fst] in Hw1.
  rewrite (bind_normal save _ w (fst (save w)) tt eq_refl).
  rewrite (bind_normal _ _ _ _ _ Hframe).
  subst w1. run. repeat split; reflexivity.
Qed.

Lemma takeScreenshot_on_live_canvas_witness :
  currentFilter liveWorld = archetypes !! 4 /\
  bitmap (canvas liveWorld) = [0; 0; 0; 255; 255; 0; 0; 255]%Z /\
  bitmap (canvas (fst (takeScreenshot examplePlatform liveWorld)))
  = [255; 0; 0; 255; 0; 0; 0; 255]%Z /\
  stateStack (canvas (fst (takeScreenshot examplePlatform liveWorld))) = [].
Proof.
  assert (Hcf : currentFilter liveWorld = archetypes !! 4)
    by (vm_compute; reflexivity).
  split; [exact Hcf|].
  split; [vm_compute; reflexivity|].
  destruct (compositeFrame examplePlatform (fst (save liveWorld)))
    as [w1 c1] eqn:E.
  assert (E1 : c1 = Normal tt).
  { pose proof (f_equal snd E) as E'. vm_compute in E'. symmetry. exact E'. }
  assert (E2 : bitmap (canvas w1) = [255; 0; 0; 255; 0; 0; 0; 255]%Z).
  { pose proof (f_equal (fun r => bitmap (canvas (fst r))) E) as E'.
    vm_compute in E'. symmetry. exact E'. }
  subst c1.
  destruct (takeScreenshot_on_live_canvas examplePlatform liveWorld _ Hcf)
    as (_ & _ & _ & _ & Hshot).
  destruct (Hshot w1 E) as (_ & Hbitmap & _ & Hstack & _).
  split; [rewrite Hbitmap; exact E2 | rewrite Hstack; vm_compute; reflexivity].
Defined.

(** C3, the claim as stated fails: after one render tick with the trickster
    effect the live canvas shows the mirrored frame; the snapshot leaves the
    un-mirrored frame on that same canvas. *)
Lemma takeScreenshot_counterexample :
  bitmap (canvas liveWorld) = [0; 0; 0; 255; 255; 0; 0; 255]%Z /\
  bitmap (canvas (fst (takeScreenshot examplePlatform liveWorld)))
  = [255; 0; 0; 255; 0; 0; 0; 255]%Z.
Proof. vm_compute. auto. Qed.

(** When the overlay throws, the snapshot ends there: [restore] is not
    reached and the state pushed by [save] stays on the stack. *)
Lemma takeScreenshot_throw_keeps_saved_state :
  let w := set_currentFilter (archetypes !! 1) (worldWith 0 0 []) in
  snd (takeScreenshot examplePlatform w) = Throw IndexSizeError /\
  stateStack (canvas w) = [] /\
  stateStack (canvas (fst (takeScreenshot examplePlatform w)))
  = [defaultDrawState].
Proof. vm_compute. auto. Qed.

(** ** Selecting an effect *)

Lemma find_catalog_Some (filterId : string) (a : Archetype.t) :
  find (fun a => String.eqb (Archetype.id a) filterId) archetypes = Some a ->
  In a archetypes /\ Archetype.id a = filterId.
Proof.
  intros E. apply find_some in E. destruct E as [Hin Heq].
  apply String.eqb_eq in Heq. auto.
Qed.

Lemma find_catalog_None (filterId : string) :
  find (fun a => String.eqb (Archetype.id a) filterId) archetypes = None ->
  ~ In filterId catalogIds.
Proof.
  intros E Hin. unfold catalogIds in Hin. apply in_map_iff in Hin.
  destruct Hin as (a & Ha & Hin).
  pose proof (find_none _ _ E a Hin) as Hf. cbn in Hf.
  apply String.eqb_neq in Hf. contradiction.
Qed.

Lemma find_catalog_In (filterId : string) :
  In filterId catalogIds ->
  exists a,
    find (fun a => String.eqb (Archetype.id a) filterId) archetypes = Some a.
Proof.
  intros Hin.
  destruct (find _ archetypes) as [a|] eqn:E; [eauto|].
  exfalso. exact (find_catalog_None filterId E Hin).
Qed.

(** The world after [applyFilter] has found [a]. *)
Lemma applyFilter_found (filterId : string) (w : World) (a : Archetype.t) :
  find (fun a => String.eqb (Archetype.id a) filterId) archetypes = Some a ->
  applyFilter filterId w =
  (set_filterButtons (map (toggleActive filterId) (filterButtons w))
     (set_descriptionVisible true
        (set_descriptionHTML
           ("<h3>" ++ Archetype.name a ++ "</h3><p>"
            ++ Archetype.description a ++ "</p>")
           (set_canvas (set_className (Archetype.id a) (canvas w))
              (set_currentFilter (Some a) w)))),
   Normal tt).
Proof.
  intros E. unfold applyFilter. rewrite E. reflexivity.
Qed.

Lemma applyFilter_missing (filterId : string) (w : World) :
  find (fun a => String.eqb (Archetype.id a) filterId) archetypes = None ->
  applyFilter filterId w = (set_currentFilter None w, Throw TypeError).
Proof.
  intros E. unfold applyFilter. rewrite E. reflexivity.
Qed.

(** C1 (as amended).  [applyFilter] looks the id up in the five-entry
    catalog and stores the result in [currentFilter] without validating it.
    For an id of the catalog the result is the catalog's entry with that id:
    [currentFilter] is set to it, the canvas class is the id, and the call
    returns normally.  For any other id there is no UnknownEffect: the lookup
    gives [undefined], which is stored in [currentFilter], and the call then
    ends with a TypeError, nothing else having changed.  [currentFilter]
    stays a catalog entry because the callers (the button listeners) pass
    catalog ids. *)
Theorem applyFilter_selects (filterId : string) (w : World) :
  let w' := fst (applyFilter filterId w) in
  (In filterId catalogIds ->
   exists a,
     In a archetypes /\ Archetype.id a = filterId /\
     currentFilter w' = Some a /\
     className (canvas w') = filterId /\
     snd (applyFilter filterId w) = Normal tt) /\
  (~ In filterId catalogIds ->
   w' = set_currentFilter None w /\
   snd (applyFilter filterId w) = Throw TypeError) /\
  (forall arch,
     In arch archetypes ->
     snd (filterButtonClick arch w) = Normal tt /\
     exists a,
       In a archetypes /\ currentFilter (fst (filterButtonClick arch w)) = Some a).
Proof.
  intros w'. subst w'. split; [|split].
  - intros Hin. destruct (find_catalog_In filterId Hin) as [a E].
    destruct (find_catalog_Some filterId a E) as [Ha Hid].
    exists a. rewrite (applyFilter_found filterId w a E).
    repeat split; auto.
  - intros Hnot.
    destruct (find (fun a => String.eqb (Archetype.id a) filterId) archetypes)
      as [a|] eqn:E.
    + exfalso. apply Hnot. destruct (find_catalog_Some filterId a E) as [Ha <-].
      unfold catalogIds. apply in_map. exact Ha.
    + rewrite (applyFilter_missing filterId w E). split; reflexivity.
  - intros arch Harch. unfold filterButtonClick.
    assert (Hin : In (Archetype.id arch) catalogIds)
      by (unfold catalogIds; apply in_map; exact Harch).
    destruct (find_catalog_In _ Hin) as [a E].
    destruct (find_catalog_Some _ a E) as [Ha Hid].
    rewrite (applyFilter_found _ w a E). split; [reflexivity|].
    exists a. split; [exact Ha | reflexivity].
Qed.

(** C1, the claim as stated fails: in a world whose current filter is a
    catalog entry, selecting an id that is not in the catalog leaves
    [currentFilter] undefined and ends with a TypeError. *)
Lemma applyFilter_unknown_counterexample :
  currentFilter (worldWith 3 3 ring) = archetypes !! 0 /\
  applyFilter "ghost" (worldWith 3 3 ring)
  = (set_currentFilter None (worldWith 3 3 ring), Throw TypeError) /\
  currentFilter (fst (applyFilter "ghost" (worldWith 3 3 ring))) = None.
Proof. repeat split. Qed.

(** ** The spin *)

Section Spin.

Variable P : Platform.
Variable fuel : nat.

Lemma randomArchetype_run (w : World) :
  randomArchetype P w =
  (set_randomCalls (S (randomCalls w)) w, Normal (drawn P (randomCalls w))).
Proof. reflexivity. Qed.

Lemma pickFinal_S (f : nat) (w : World) (a : Archetype.t) :
  currentFilter w = Some a ->
  pickFinal P (S f) w =
  match drawn P (randomCalls w) with
  | None => (set_randomCalls (S (randomCalls w)) w, Throw TypeError)
  | Some b =>
      if String.eqb (Archetype.id b) (Archetype.id a)
      then pickFinal P f (set_randomCalls (S (randomCalls w)) w)
      else (set_randomCalls (S (randomCalls w)) w, Normal (Archetype.id b))
  end.
Proof.
  intros Hcf. cbn [pickFinal].
  rewrite (bind_normal _ _ _ _ _ (randomArchetype_run w)).
  destruct (drawn P (randomCalls w)) as [b|]; [|reflexivity].
  rewrite (bind_normal (prop (Some b) Archetype.id) _ _ _ _ eq_refl).
  rewrite bind_gets. proj. rewrite Hcf.
  rewrite (bind_normal (prop (Some a) Archetype.id) _ _ _ _ eq_refl).
  destruct (String.eqb _ _); reflexivity.
Qed.

(** What the resampling loop returns was drawn, is not the current id, and
    every draw before it was the current id. *)
Lemma pickFinal_result (f : nat) (w w' : World) (a : Archetype.t)
    (fid : string) :
  currentFilter w = Some a ->
  pickFinal P f w = (w', Normal fid) ->
  exists k b,
    k < f /\
    drawn P (randomCalls w + k) = Some b /\ Archetype.id b = fid /\
    fid <> Archetype.id a /\
    (forall j, j < k ->
       exists c, drawn P (randomCalls w + j) = Some c /\
                 Archetype.id c = Archetype.id a) /\
    w' = set_randomCalls (randomCalls w + k + 1) w.
Proof.
  revert w. induction f as [|f IH]; intros w Hcf E; [discriminate|].
  rewrite (pickFinal_S f w a Hcf) in E.
  destruct (drawn P (randomCalls w)) as [b|] eqn:Hb; [|discriminate].
  destruct (String.eqb (Archetype.id b) (Archetype.id a)) eqn:Heq.
  - apply String.eqb_eq in Heq.
    destruct (IH (set_randomCalls (S (randomCalls w)) w) Hcf E)
      as (k & b' & Hk & Hd & Hid & Hne & Hbefore & Hw').
    cbn [randomCalls set_randomCalls] in *.
    exists (S k), b'. repeat split; try assumption; try lia.
    + rewrite <- Hd. f_equal. lia.
    + intros j Hj. destruct j as [|j].
      * exists b. rewrite Nat.add_0_r. auto.
      * destruct (Hbefore j ltac:(lia)) as (c & Hc & Hcid).
        exists c. split; [|exact Hcid]. rewrite <- Hc. f_equal. lia.
    + rewrite Hw'. replace (S (randomCalls w) + k + 1) with
        (randomCalls w + S k + 1) by lia. reflexivity.
  - apply String.eqb_neq in Heq. injection E as <- <-.
    exists 0, b. rewrite !Nat.add_0_r.
    repeat split; try assumption; try lia.
    f_equal. lia.
Qed.

(** The resampling loop returns as soon as a draw differs from the current
    id, given the steps to get there. *)
Lemma pickFinal_total (k : nat) :
  forall (f : nat) (w : World) (a b : Archetype.t),
    currentFilter w = Some a ->
    k < f ->
    (forall j, j < k ->
       exists c, drawn P (randomCalls w + j) = Some c /\
                 Archetype.id c = Archetype.id a) ->
    drawn P (randomCalls w + k) = Some b ->
    Archetype.id b <> Archetype.id a ->
    pickFinal P f w =
    (set_randomCalls (randomCalls w + k + 1) w, Normal (Archetype.id b)).
Proof.
  induction k as [|k IH]; intros f w a b Hcf Hf Hbefore Hb Hne;
    (destruct f as [|f]; [lia|]); rewrite (pickFinal_S f w a Hcf).
  - rewrite Nat.add_0_r in Hb. rewrite Hb.
    apply String.eqb_neq in Hne. rewrite Hne.
    replace (randomCalls w + 0 + 1) with (S (randomCalls w)) by lia.
    reflexivity.
  - destruct (Hbefore 0 ltac:(lia)) as (c & Hc & Hcid).
    rewrite Nat.add_0_r in Hc. rewrite Hc.
    apply String.eqb_eq in Hcid. rewrite Hcid.
    rewrite (IH f (set_randomCalls (S (randomCalls w)) w) a b Hcf);
      cbn [randomCalls set_randomCalls]; try lia; try assumption.
    + replace (S (randomCalls w) + k + 1) with (randomCalls w + S k + 1) by lia.
      reflexivity.
    + intros j Hj. destruct (Hbefore (S j) ltac:(lia)) as (c' & Hc' & Hcid').
      exists c'. split; [|exact Hcid']. rewrite <- Hc'. f_equal. lia.
    + rewrite <- Hb. f_equal. lia.
Qed.

(** One call of the interval's callback. *)
Lemma spinTick_run (h : nat) (w : World) (l : Z) :
  intervals w !! h = Some l ->
  spinTick P fuel h w =
  let w1 := set_randomCalls (S (randomCalls w))
              (set_intervals (<[h := (l - 1)%Z]> (intervals w)) w) in
  match drawn P (randomCalls w) with
  | None => (w1, Throw TypeError)
  | Some b =>
      if (l - 1 <=? 0)%Z
      then settle P fuel
             (set_intervals (delete h (intervals (showTick b w1)))
                            (showTick b w1))
      else (showTick b w1, Normal tt)
  end.
Proof.
  intros Hl. unfold spinTick. rewrite bind_gets, Hl, bind_modify.
  rewrite (bind_normal _ _ _ _ _ (randomArchetype_run _)).
  proj. destruct (drawn P (randomCalls w)) as [b|]; [|reflexivity].
  rewrite (bind_normal (prop (Some b) Archetype.id) _ _ _ _ eq_refl).
  unfold modifyCanvas. rewrite !bind_modify.
  destruct (l - 1 <=? 0)%Z; reflexivity.
Qed.

Lemma drawn_In (n : nat) (b : Archetype.t) :
  drawn P n = Some b -> In b archetypes.
Proof.
  unfold drawn. intros E.
  destruct (floorIndex _) as [i|]; [|discriminate]. cbn in E.
  apply list_elem_of_In. apply (list_elem_of_lookup_2 _ i). exact E.
Qed.

Variable a : Archetype.t.
Variable h : nat.

(** A tick that is not the last one shows a random archetype and leaves
    [currentFilter] alone. *)
Lemma spinTick_visual (w : World) (l : Z) :
  spinning a h l w -> (1 < l)%Z ->
  let r := spinTick P fuel h w in
  currentFilter (fst r) = Some a /\
  (snd r = Normal tt /\ spinning a h (l - 1) (fst r) /\
   randomCalls (fst r) = S (randomCalls w) /\
   is_Some (drawn P (randomCalls w))
   \/
   snd r = Throw TypeError /\ drawn P (randomCalls w) = None).
Proof.
  intros [Hcf Hl] Hlt r. subst r. rewrite (spinTick_run h w l Hl). cbv zeta.
  destruct (drawn P (randomCalls w)) as [b|].
  - destruct (l - 1 <=? 0)%Z eqn:E; [apply Z.leb_le in E; lia|].
    split; [exact Hcf|]. left.
    repeat split; try reflexivity; try exact Hcf; [|eauto].
    unfold showTick. proj. apply lookup_insert_eq.
  - split; [exact Hcf|]. right. split; reflexivity.
Qed.

Lemma spinTicks_visual (n : nat) :
  forall (w : World) (l : Z),
    spinning a h l w -> (Z.of_nat n < l)%Z ->
    let r := spinTicks P fuel h n w in
    currentFilter (fst r) = Some a /\
    (snd r = Normal tt ->
     spinning a h (l - Z.of_nat n) (fst r) /\
     randomCalls (fst r) = randomCalls w + n) /\
    ((forall j, j < n -> is_Some (drawn P (randomCalls w + j))) ->
     snd r = Normal tt).
Proof.
  induction n as [|n IH]; intros w l Hsp Hlt r; subst r.
  - cbn [spinTicks ret fst snd]. destruct Hsp as [Hcf Hl].
    split; [exact Hcf|]. split; [|reflexivity].
    intros _. rewrite Z.sub_0_r, Nat.add_0_r. repeat split; assumption.
  - cbn [spinTicks].
    destruct (spinTick_visual w l Hsp ltac:(lia)) as [Hcf Hcase].
    destruct (spinTick P fuel h w) as [w1 c1] eqn:E. cbn [fst snd] in *.
    destruct Hcase as [(-> & Hsp1 & Hcalls & Hsome) | [-> Hnone]].
    + rewrite (bind_normal _ _ _ _ _ E).
      destruct (IH w1 (l - 1)%Z Hsp1 ltac:(lia)) as (H1 & H2 & H3).
      split; [exact H1|]. split.
      * intros Hn. destruct (H2 Hn) as [Hsp' Hc'].
        split; [|lia].
        replace (l - Z.of_nat (S n))%Z with (l - 1 - Z.of_nat n)%Z by lia.
        exact Hsp'.
      * intros Hall. apply H3. intros j Hj. rewrite Hcalls.
        replace (S (randomCalls w) + j) with (randomCalls w + S j) by lia.
        apply Hall. lia.
    + rewrite (bind_throw _ _ _ _ _ E). cbn [fst snd].
      split; [exact Hcf|]. split; [discriminate|].
      intros Hall. specialize (Hall 0 ltac:(lia)).
      rewrite Nat.add_0_r, Hnone in Hall. destruct Hall as [? ?]. discriminate.
Qed.

(** The last tick: the final archetype is not the current one, and it is
    selected by [applyFilter]. *)
Lemma spinTick_last (w w' : World) :
  spinning a h 1 w ->
  spinTick P fuel h w = (w', Normal tt) ->
  exists b wm,
    In b archetypes /\ Archetype.id b <> Archetype.id a /\
    currentFilter wm = Some a /\
    snd (applyFilter (Archetype.id b) wm) = Normal tt /\
    currentFilter (fst (applyFilter (Archetype.id b) wm)) = Some b /\
    w' = set_filterListPointerEvents "auto"
           (set_randomBtnDisabled false (fst (applyFilter (Archetype.id b) wm))).
Proof.
  intros [Hcf Hl] E. rewrite (spinTick_run h w 1 Hl) in E. cbv zeta in E.
  destruct (drawn P (randomCalls w)) as [b0|]; [|discriminate].
  change (1 - 1 <=? 0)%Z with true in E. cbv iota in E.
  unfold settle in E.
  match type of E with
  | bind (pickFinal P fuel) _ ?W = _ =>
      destruct (pickFinal P fuel W) as [w3 [fid|e|]] eqn:Epick;
        [ rewrite (bind_normal _ _ _ _ _ Epick) in E
        | rewrite (bind_throw _ _ _ _ _ Epick) in E; discriminate
        | unfold bind in E; rewrite Epick in E; discriminate ];
      destruct (pickFinal_result fuel W w3 a fid Hcf Epick)
        as (k & b1 & _ & Hd & Hid & Hne & _ & Hw3)
  end.
  assert (Hin : In fid catalogIds).
  { unfold catalogIds. rewrite <- Hid. apply in_map. exact (drawn_In _ _ Hd). }
  destruct (find_catalog_In fid Hin) as [b Hfind].
  destruct (find_catalog_Some fid b Hfind) as [Hb Hbid].
  exists b, w3. rewrite Hbid.
  rewrite (bind_normal _ _ _ _ _ (applyFilter_found fid w3 b Hfind)) in E.
  rewrite !bind_modify in E. unfold modify in E. injection E as <-.
  rewrite (applyFilter_found fid w3 b Hfind). cbn [fst snd].
  repeat split; try assumption; try reflexivity.
  rewrite Hw3. exact Hcf.
Qed.

Lemma spinTicks_add (n m : nat) (w : World) :
  spinTicks P fuel h (n + m) w =
  (spinTicks P fuel h n ;; spinTicks P fuel h m) w.
Proof.
  revert w. induction n as [|n IH]; intros w; cbn [spinTicks Nat.add].
  - reflexivity.
  - rewrite bind_assoc. apply bind_ext. intros _ w1. apply IH.
Qed.

End Spin.

Lemma randomFilterSlotMachine_run (w : World) :
  randomFilterSlotMachine w =
  (set_intervals (<[nextHandle w := 15%Z]> (intervals w))
     (set_nextHandle (S (nextHandle w))
        (set_filterListPointerEvents "none" (set_randomBtnDisabled true w))),
   Normal (nextHandle w)).
Proof. reflexivity. Qed.

Lemma spin_start (w : World) (a : Archetype.t) :
  currentFilter w = Some a ->
  spinning a (nextHandle w) 15 (fst (randomFilterSlotMachine w)) /\
  randomCalls (fst (randomFilterSlotMachine w)) = randomCalls w.
Proof.
  intros Hcf. rewrite randomFilterSlotMachine_run. proj.
  repeat split; [exact Hcf | apply lookup_insert_eq].
Qed.

Lemma spinTicks_one (P : Platform) (fuel h : nat) (w : World) :
  spinTicks P fuel h 1 w = spinTick P fuel h w.
Proof.
  cbn [spinTicks]. unfold bind.
  destruct (spinTick P fuel h w) as [w' [[]|e|]]; reflexivity.
Qed.

(** As long as every draw is the current archetype the resampling loop goes
    on: no number of rounds is enough. *)
Lemma pickFinal_unfinished (P : Platform) (f : nat) :
  forall (w : World) (a : Archetype.t),
    currentFilter w = Some a ->
    (forall j, j < f ->
       exists c, drawn P (randomCalls w + j) = Some c /\
                 Archetype.id c = Archetype.id a) ->
    snd (pickFinal P f w) = Unfinished.
Proof.
  induction f as [|f IH]; intros w a Hcf Hall; [reflexivity|].
  rewrite (pickFinal_S P f w a Hcf).
  destruct (Hall 0 ltac:(lia)) as (c & Hc & Hcid).
  rewrite Nat.add_0_r in Hc. rewrite Hc.
  apply String.eqb_eq in Hcid. rewrite Hcid.
  apply (IH (set_randomCalls (S (randomCalls w)) w) a Hcf). intros j Hj. cbn [randomCalls set_randomCalls].
  destruct (Hall (S j) ltac:(lia)) as (c' & Hc' & Hcid').
  exists c'. split; [|exact Hcid']. rewrite <- Hc'. f_equal. lia.
Qed.

(** The ticks of an interval with [S n] ticks to go, run to the end. *)
Lemma spinTicks_last (P : Platform) (fuel h n : nat) (c : Archetype.t)
    (w w' : World) :
  spinning c h (Z.of_nat (S n)) w ->
  spinTicks P fuel h (S n) w = (w', Normal tt) ->
  exists b wm,
    In b archetypes /\ Archetype.id b <> Archetype.id c /\
    currentFilter wm = Some c /\
    snd (applyFilter (Archetype.id b) wm) = Normal tt /\
    currentFilter (fst (applyFilter (Archetype.id b) wm)) = Some b /\
    w' = set_filterListPointerEvents "auto"
           (set_randomBtnDisabled false (fst (applyFilter (Archetype.id b) wm))).
Proof.
  intros Hsp E.
  replace (S n) with (n + 1) in E by lia. rewrite spinTicks_add in E.
  destruct (spinTicks_visual P fuel c h n w (Z.of_nat (S n)) Hsp ltac:(lia))
    as (_ & Hn & _).
  destruct (spinTicks P fuel h n w) as [wn [[]|e|]] eqn:En;
    [ rewrite (bind_normal _ _ _ _ _ En) in E
    | rewrite (bind_throw _ _ _ _ _ En) in E; discriminate
    | unfold bind in E; rewrite En in E; discriminate ].
  destruct (Hn eq_refl) as [Hspn _]. cbn [fst] in Hspn.
  replace (Z.of_nat (S n) - Z.of_nat n)%Z with 1%Z in Hspn by lia.
  rewrite spinTicks_one in E.
  exact (spinTick_last P fuel c h wn w' Hspn E).
Qed.

(** C9 (as amended).  The ticks of a spin, whatever ran before them: a tick
    that is not the last one never changes [currentFilter]; the last tick,
    when it completes, selects through [applyFilter] a catalog entry whose
    id is not the id of the filter that is current when that tick runs, and
    unlocks the controls.  So when other handlers run between the ticks and
    leave the selection at [c], the spin settles on an entry other than
    [c]; and when nothing runs between the click and its fifteen ticks, the
    spin settles on an entry other than [a], the one that was current when
    it began, and it does end, with the first draw of the last tick that is
    not the id of [a], when the draws select archetypes and the resampling
    loop is given the rounds to get to that draw. *)
Theorem spin_settles_on_another (P : Platform) (fuel : nat) (w : World)
    (a : Archetype.t) :
  currentFilter w = Some a ->
  (forall h l ws c,
     spinning c h l ws -> (1 < l)%Z ->
     currentFilter (fst (spinTick P fuel h ws)) = Some c) /\
  (forall h ws ws' c,
     spinning c h 1 ws ->
     spinTick P fuel h ws = (ws', Normal tt) ->
     exists b wm,
       In b archetypes /\ Archetype.id b <> Archetype.id c /\
       currentFilter ws' = Some b /\
       currentFilter wm = Some c /\
       snd (applyFilter (Archetype.id b) wm) = Normal tt /\
       ws' = set_filterListPointerEvents "auto"
               (set_randomBtnDisabled false
                  (fst (applyFilter (Archetype.id b) wm)))) /\
  (forall before others w1 w2 c w',
     before < 15 ->
     (h <- randomFilterSlotMachine ;; spinTicks P fuel h before) w
     = (w1, Normal tt) ->
     others w1 = (w2, Normal tt) ->
     intervals w2 = intervals w1 ->
     currentFilter w2 = Some c ->
     spinWith P fuel before others w = (w', Normal tt) ->
     exists b,
       In b archetypes /\ Archetype.id b <> Archetype.id c /\
       currentFilter w' = Some b) /\
  (forall n, n < 15 ->
     currentFilter
       (fst ((h <- randomFilterSlotMachine ;; spinTicks P fuel h n) w))
     = Some a) /\
  (forall w',
     spin P fuel w = (w', Normal tt) ->
     exists b wm,
       In b archetypes /\ Archetype.id b <> Archetype.id a /\
       currentFilter w' = Some b /\
       currentFilter wm = Some a /\
       snd (applyFilter (Archetype.id b) wm) = Normal tt /\
       w' = set_filterListPointerEvents "auto"
              (set_randomBtnDisabled false
                 (fst (applyFilter (Archetype.id b) wm)))) /\
  (forall k b,
     (forall j, j < 15 -> is_Some (drawn P (randomCalls w + j))) ->
     (forall j, j < k ->
        exists c, drawn P (randomCalls w + 15 + j) = Some c /\
                  Archetype.id c = Archetype.id a) ->
     drawn P (randomCalls w + 15 + k) = Some b ->
     Archetype.id b <> Archetype.id a ->
     k < fuel ->
     exists w',
       spin P fuel w = (w', Normal tt) /\
       randomCalls w' = randomCalls w + 15 + k + 1 /\
       exists b', currentFilter w' = Some b' /\
                  Archetype.id b' = Archetype.id b).
Proof.
  intros Hcf.
  destruct (spin_start w a Hcf) as [Hstart Hcalls].
  set (h := nextHandle w) in *.
  set (ws := fst (randomFilterSlotMachine w)) in *.
  assert (Hrun : forall {B} (k : nat -> M B),
             (h' <- randomFilterSlotMachine ;; k h') w = k h ws).
  { intros B k.
    exact (bind_normal _ _ _ _ _ (randomFilterSlotMachine_run w)). }
  split; [|split; [|split; [|split; [|split]]]].
  - intros h0 l w0 c Hsp Hl.
    exact (proj1 (spinTick_visual P fuel c h0 w0 l Hsp Hl)).
  - intros h0 w0 w0' c Hsp E.
    destruct (spinTick_last P fuel c h0 w0 w0' Hsp E)
      as (b & wm & Hb & Hne & Hwm & Hok & Hcur & ->).
    exists b, wm. repeat split; assumption.
  - intros before others w1 w2 c w' Hbefore E1 Eo Hiv Hc E.
    rewrite Hrun in E1. unfold spinWith in E. rewrite Hrun in E.
    rewrite (bind_normal _ _ _ _ _ E1), (bind_normal _ _ _ _ _ Eo) in E.
    destruct (spinTicks_visual P fuel a h before ws 15 Hstart ltac:(lia))
      as (_ & Hvis & _).
    rewrite E1 in Hvis. destruct (Hvis eq_refl) as [[_ Hl1] _].
    cbn [fst] in Hl1.
    assert (Hsp2 : spinning c h (Z.of_nat (S (14 - before))) w2).
    { split; [exact Hc|]. rewrite Hiv, Hl1. f_equal. lia. }
    replace (15 - before) with (S (14 - before)) in E by lia.
    destruct (spinTicks_last P fuel h (14 - before) c w2 w' Hsp2 E)
      as (b & wm & Hb & Hne & _ & _ & Hcur & ->).
    exists b. repeat split; assumption.
  - intros n Hn. rewrite Hrun.
    exact (proj1 (spinTicks_visual P fuel a h n ws 15 Hstart ltac:(lia))).
  - intros w' E. unfold spin in E. rewrite Hrun in E.
    destruct (spinTicks_last P fuel h 14 a ws w' Hstart E)
      as (b & wm & Hb & Hne & Hwm & Hok & Hcur & ->).
    exists b, wm. repeat split; assumption.
  - intros k b Hvalid Hsame Hb Hne Hk.
    unfold spin. rewrite Hrun.
    change 15 with (14 + 1) at 1. rewrite spinTicks_add.
    destruct (spinTicks_visual P fuel a h 14 ws 15 Hstart ltac:(lia))
      as (_ & H14 & Hnormal).
    destruct (spinTicks P fuel h 14 ws) as [w14 c14] eqn:E14.
    cbn [fst snd] in H14, Hnormal.
    assert (Hc14 : c14 = Normal tt).
    { apply Hnormal. intros j Hj. rewrite Hcalls. apply Hvalid. lia. }
    subst c14. destruct (H14 eq_refl) as [[Hcf14 Hl14] Hcalls14].
    rewrite Hcalls in Hcalls14.
    rewrite (bind_normal _ _ _ _ _ E14), spinTicks_one.
    rewrite (spinTick_run P fuel h w14 1 Hl14). cbv zeta.
    destruct (Hvalid 14 ltac:(lia)) as [b0 Hb0].
    rewrite Hcalls14, Hb0.
    change (1 - 1 <=? 0)%Z with true. cbv iota.
    unfold settle.
    match goal with
    | |- context [bind (pickFinal P fuel) _ ?W] =>
        rewrite (bind_normal _ _ _ _ _
                   (pickFinal_total P k fuel W a b Hcf14 Hk
                      ltac:(cbn [randomCalls set_randomCalls]; proj;
                            intros j Hj;
                            destruct (Hsame j Hj) as (c & Hc & Hcid);
                            exists c; split; [|exact Hcid];
                            rewrite <- Hc; f_equal; unfold showTick; proj; lia)
                      ltac:(rewrite <- Hb; f_equal; unfold showTick; proj; lia)
                      Hne))
    end.
    assert (Hin : In (Archetype.id b) catalogIds).
    { unfold catalogIds. apply in_map. exact (drawn_In P _ _ Hb). }
    destruct (find_catalog_In _ Hin) as [b' Hfind].
    destruct (find_catalog_Some _ b' Hfind) as [Hb' Hbid].
    rewrite (bind_normal _ _ _ _ _ (applyFilter_found _ _ b' Hfind)).
    rewrite !bind_modify. unfold modify.
    eexists. split; [reflexivity|]. unfold showTick. proj.
    split; [lia|]. exists b'. split; [reflexivity | exact Hbid].
Qed.

Lemma spin_settles_on_another_witness :
  currentFilter liveWorld = archetypes !! 4 /\
  exists w',
    spin spinPlatform 4 liveWorld = (w', Normal tt) /\
    randomCalls w' = randomCalls liveWorld + 15 + 3 + 1 /\
    exists b', currentFilter w' = Some b' /\
               Archetype.id b' = "persona"%string.
Proof.
  assert (Hcf : currentFilter liveWorld = archetypes !! 4)
    by (vm_compute; reflexivity).
  split; [exact Hcf|].
  destruct (spin_settles_on_another spinPlatform 4 liveWorld _ Hcf)
    as (_ & _ & _ & _ & _ & Hends).
  apply (Hends 3
           (Archetype.mk "persona" "The Persona" "fa-solid fa-theater-masks"
              "The social mask or facade you present to the world. It conceals your true self.")).
  - intros j Hj.
    do 15 (destruct j as [|j]; [eexists; vm_compute; reflexivity|]). lia.
  - intros j Hj.
    do 3 (destruct j as [|j];
          [eexists; split; vm_compute; reflexivity|]). lia.
  - vm_compute. reflexivity.
  - discriminate.
  - lia.
Defined.

(** The claim as it is written fails when the selection changes during the
    spin.  On a page that shows The Self, the random button is clicked and
    three ticks pass; the record button, which the spin has not disabled,
    is clicked on a platform that supports no format, and [stopRecording]
    unlocks the filter list; the Persona button is clicked; the twelve
    ticks that are left run.  The last tick excludes Persona, and the spin
    settles on The Self, the id that was current when it began. *)
Lemma spin_counterexample :
  currentFilter startWorld = archetypes !! 0 /\
  listeners startWorld = [RandomBtn; ScreenshotBtn; RecordBtn] /\
  recordBtnDisabled
    (fst ((h <- randomFilterSlotMachine ;; spinTicks stillPlatform 1 h 3)
            startWorld)) = false /\
  filterListPointerEvents
    (fst ((h <- randomFilterSlotMachine ;; spinTicks stillPlatform 1 h 3 ;;
           startRecording stillPlatform) startWorld)) = "auto"%string /\
  currentFilter
    (fst ((h <- randomFilterSlotMachine ;; spinTicks stillPlatform 1 h 3 ;;
           startRecording stillPlatform ;; applyFilter "persona") startWorld))
  = archetypes !! 1 /\
  snd (spinWith stillPlatform 1 3
         (startRecording stillPlatform ;; applyFilter "persona") startWorld)
  = Normal tt /\
  currentFilter
    (fst (spinWith stillPlatform 1 3
            (startRecording stillPlatform ;; applyFilter "persona")
            startWorld))
  = archetypes !! 0.
Proof. vm_compute. repeat split. Qed.

(** ** Recording *)

Lemma mimeTypes_order :
  mimeTypes =
  [ ("video/mp4; codecs=" ++ dquote ++ "avc1.42E01E" ++ dquote)%string;
    "video/webm; codecs=vp9"%string;
    "video/webm; codecs=vp8"%string;
    "video/webm"%string ].
Proof. reflexivity. Qed.

(** [find] returns the first element that passes the test. *)
Lemma find_first {A} (p : A -> bool) (l : list A) (x : A) :
  find p l = Some x ->
  exists before after,
    l = before ++ x :: after /\ p x = true /\
    forall y, In y before -> p y = false.
Proof.
  induction l as [|y l IH]; intros E; [discriminate|].
  cbn [find] in E. destruct (p y) eqn:Hy.
  - injection E as ->. exists [], l. repeat split; [exact Hy|]. intros ? [].
  - destruct (IH E) as (before & after & -> & Hx & Hb).
    exists (y :: before), after. repeat split; [exact Hx|].
    intros z [<-|Hz]; auto.
Qed.

Lemma find_all_false {A} (p : A -> bool) (l : list A) :
  (forall y, In y l -> p y = false) -> find p l = None.
Proof.
  induction l as [|y l IH]; intros H; [reflexivity|].
  cbn [find]. rewrite (H y (or_introl eq_refl)). apply IH.
  intros z Hz. apply H. right. exact Hz.
Qed.

Lemma startRecording_busy (P : Platform) (w : World) :
  isRecording w = true -> startRecording P w = (w, Normal tt).
Proof.
  intros Hbusy. unfold startRecording. rewrite bind_gets, Hbusy. reflexivity.
Qed.

(** The world in which the script has locked the controls for a recording. *)
Lemma startRecording_idle (P : Platform) (w : World) :
  isRecording w = false ->
  startRecording P w =
  match find (isTypeSupported P) mimeTypes with
  | None =>
      (emit (ConsoleError "No supported MIME type found for MediaRecorder") ;;
       emit (Alert "Video recording is not supported on this browser.") ;;
       stopRecording)
  | Some supportedMimeType =>
      (emit (ConsoleLog ("Using MIME type: " ++ supportedMimeType)) ;;
       modify (set_mediaRecorder
                 (Some (mkMediaRecorder supportedMimeType inactive))) ;;
       modify (set_mediaRecorder
                 (Some (mkMediaRecorder supportedMimeType recording))) ;;
       schedule (StopTimer 5000))
  end
    (set_filterListPointerEvents "none"
       (set_randomBtnDisabled true
          (set_screenshotBtnDisabled true
             (set_recordBtnDisabled true
                (set_recordBtnRecording true
                   (set_recordedChunks [] (set_isRecording true w))))))).
Proof.
  intros Hidle. unfold startRecording. rewrite bind_gets, Hidle.
  rewrite !bind_modify. reflexivity.
Qed.

(** C2 (as amended).  A call of [startRecording] while [isRecording] is set
    is ignored: it returns normally, it raises and reports no error (there is
    no AlreadyRecording), and it leaves the whole state as it was, the chunks
    recorded so far in particular. *)
Theorem startRecording_while_recording_ignored (P : Platform) (w : World) :
  isRecording w = true ->
  startRecording P w = (w, Normal tt) /\
  recordedChunks (fst (startRecording P w)) = recordedChunks w /\
  output (fst (startRecording P w)) = output w.
Proof.
  intros Hbusy. rewrite (startRecording_busy P w Hbusy).
  repeat split; reflexivity.
Qed.

Lemma startRecording_while_recording_ignored_witness :
  isRecording recordingWorld = true /\
  startRecording webmPlatform recordingWorld = (recordingWorld, Normal tt) /\
  recordedChunks (fst (startRecording webmPlatform recordingWorld))
  = recordedChunks recordingWorld /\
  output (fst (startRecording webmPlatform recordingWorld))
  = output recordingWorld.
Proof.
  assert (Hbusy : isRecording recordingWorld = true) by reflexivity.
  split; [exact Hbusy|].
  exact (startRecording_while_recording_ignored webmPlatform recordingWorld
           Hbusy).
Defined.

(** C2, the claim as stated fails: in a world that is recording and holds
    one chunk, the second start does not fail: it returns normally, and
    nothing (no alert, no console error) is reported. *)
Lemma startRecording_counterexample :
  isRecording recordingWorld = true /\
  recordedChunks recordingWorld = [[1; 2; 3]%Z] /\
  snd (startRecording webmPlatform recordingWorld) = Normal tt /\
  (forall e, snd (startRecording webmPlatform recordingWorld) <> Throw e) /\
  output (fst (startRecording webmPlatform recordingWorld))
  = output recordingWorld.
Proof. repeat split. intros e. discriminate. Qed.

Lemma stopRecording_idle (w : World) :
  match mediaRecorder w with
  | Some r => state r <> recording
  | None => True
  end ->
  stopRecording w =
  (set_filterListPointerEvents "auto"
     (set_randomBtnDisabled false
        (set_screenshotBtnDisabled false
           (set_recordBtnDisabled false
              (set_recordBtnRecording false (set_isRecording false w))))),
   Normal tt).
Proof.
  intros Hidle. unfold stopRecording. rewrite bind_gets.
  destruct (mediaRecorder w) as [[mt []]|]; cbn [state] in *;
    try contradiction; reflexivity.
Qed.

(** [recorderIdle] holds at the start and every function of the recording
    keeps it. *)
Lemma recorderIdle_invariant (P : Platform) (v : Frame) (now : Z) :
  recorderIdle (initialWorld v now) /\
  (forall w, recorderIdle w -> recorderIdle (fst (startRecording P w))) /\
  (forall w, recorderIdle w -> recorderIdle (fst (stopRecording w))) /\
  (forall w b, recorderIdle w -> recorderIdle (fst (ondataavailable b w))) /\
  (forall w, recorderIdle w -> recorderIdle (fst (handleRecordingStop w))).
Proof.
  split; [intros _; exact Logic.I|].
  split; [|split; [|split]].
  - intros w Hw. destruct (isRecording w) eqn:Hrec.
    + rewrite (startRecording_busy P w Hrec). exact Hw.
    + rewrite (startRecording_idle P w Hrec).
      destruct (find (isTypeSupported P) mimeTypes) as [t|].
      * intros Habs. discriminate Habs.
      * specialize (Hw Hrec).
        unfold emit. rewrite !bind_modify.
        rewrite stopRecording_idle by exact Hw.
        intros _. exact Hw.
  - intros w Hw. unfold stopRecording. rewrite bind_gets.
    destruct (mediaRecorder w) as [[mt []]|] eqn:E; intros _;
      cbn; try rewrite E; cbn; try discriminate; exact Logic.I.
  - intros w b Hw. unfold ondataavailable.
    destruct (0 <? length b); exact Hw.
  - intros w Hw. unfold handleRecordingStop. rewrite bind_gets.
    destruct (mediaRecorder w) as [r|] eqn:E; [|exact Hw].
    rewrite (bind_normal (prop (Some r) mimeType) _ _ _ _ eq_refl).
    rewrite bind_gets.
    rewrite (bind_normal (prop (Some r) mimeType) _ _ _ _ eq_refl).
    rewrite bind_gets.
    destruct (currentFilter w) as [a|]; [|exact Hw].
    rewrite (bind_normal (prop (Some a) Archetype.id) _ _ _ _ eq_refl).
    rewrite bind_gets. exact Hw.
Qed.

(** C10.  [startRecording] probes the fixed list of four formats in order
    (the MP4 format, then VP9 and VP8 in WebM, then plain WebM) and records
    with the first one that [isTypeSupported] accepts.  When none is
    accepted it reports the failure (a console error and an alert), unlocks
    the controls and is idle again; no recorder is made, nothing is scheduled
    and nothing is handed out. *)
Theorem startRecording_negotiates (P : Platform) (w : World) :
  isRecording w = false ->
  mimeTypes =
  [ ("video/mp4; codecs=" ++ dquote ++ "avc1.42E01E" ++ dquote)%string;
    "video/webm; codecs=vp9"%string;
    "video/webm; codecs=vp8"%string;
    "video/webm"%string ] /\
  (forall t,
     find (isTypeSupported P) mimeTypes = Some t ->
     (exists before after,
        mimeTypes = before ++ t :: after /\ isTypeSupported P t = true /\
        forall y, In y before -> isTypeSupported P y = false) /\
     snd (startRecording P w) = Normal tt /\
     mediaRecorder (fst (startRecording P w))
     = Some (mkMediaRecorder t recording) /\
     isRecording (fst (startRecording P w)) = true /\
     recordedChunks (fst (startRecording P w)) = [] /\
     scheduled (fst (startRecording P w)) = scheduled w ++ [StopTimer 5000]) /\
  ((forall t, In t mimeTypes -> isTypeSupported P t = false) ->
   recorderIdle w ->
   snd (startRecording P w) = Normal tt /\
   output (fst (startRecording P w))
   = output w ++
     [ConsoleError "No supported MIME type found for MediaRecorder";
      Alert "Video recording is not supported on this browser."] /\
   isRecording (fst (startRecording P w)) = false /\
   recordBtnRecording (fst (startRecording P w)) = false /\
   recordBtnDisabled (fst (startRecording P w)) = false /\
   screenshotBtnDisabled (fst (startRecording P w)) = false /\
   randomBtnDisabled (fst (startRecording P w)) = false /\
   filterListPointerEvents (fst (startRecording P w)) = "auto"%string /\
   mediaRecorder (fst (startRecording P w)) = mediaRecorder w /\
   scheduled (fst (startRecording P w)) = scheduled w /\
   recordedChunks (fst (startRecording P w)) = []).
Proof.
  intros Hidle. split; [exact mimeTypes_order|]. split.
  - intros t Hfind. split; [exact (find_first _ _ _ Hfind)|].
    rewrite (startRecording_idle P w Hidle), Hfind.
    repeat split; reflexivity.
  - intros Hnone Hrec.
    rewrite (startRecording_idle P w Hidle).
    rewrite (find_all_false _ _ Hnone).
    unfold emit. rewrite !bind_modify.
    rewrite stopRecording_idle by exact (Hrec Hidle).
    proj. rewrite <- app_assoc. repeat split; reflexivity.
Qed.

Lemma startRecording_negotiates_witness :
  isRecording liveWorld = false /\
  snd (startRecording examplePlatform liveWorld) = Normal tt /\
  output (fst (startRecording examplePlatform liveWorld))
  = output liveWorld ++
    [ConsoleError "No supported MIME type found for MediaRecorder";
     Alert "Video recording is not supported on this browser."] /\
  isRecording (fst (startRecording examplePlatform liveWorld)) = false.
Proof.
  assert (Hidle : isRecording liveWorld = false) by (vm_compute; reflexivity).
  split; [exact Hidle|].
  destruct (startRecording_negotiates examplePlatform liveWorld Hidle)
    as (_ & _ & Hnone).
  destruct (Hnone (fun t _ => eq_refl) (fun _ => Logic.I))
    as (H1 & H2 & H3 & _).
  repeat split; assumption.
Defined.

(** With the two VP formats supported, VP9 is chosen: it comes first. *)
Lemma startRecording_picks_first_supported :
  mediaRecorder (fst (startRecording webmPlatform liveWorld))
  = Some (mkMediaRecorder "video/webm; codecs=vp9" recording).
Proof. vm_compute. reflexivity. Qed.

(** Once [stopRecording] has run the script is idle for [startRecording],
    although the recorder's last data and its stop event are still to come:
    a start in between is accepted and empties [recordedChunks]. *)
Lemma startRecording_before_stop_event :
  let w := fst (stopRecording recordingWorld) in
  isRecording w = false /\
  In RecorderStopTask (scheduled w) /\
  recordedChunks w = [[1; 2; 3]%Z] /\
  snd (startRecording webmPlatform w) = Normal tt /\
  isRecording (fst (startRecording webmPlatform w)) = true /\
  recordedChunks (fst (startRecording webmPlatform w)) = [].
Proof. vm_compute. repeat split. auto. Qed.

(* ===================================================================== *)
(** * Part III: further properties of the script *)
(* ===================================================================== *)

(** Two worlds with the same fields are the same world. *)
Lemma world_ext (w w' : World) :
  currentFilter w = currentFilter w' ->
  videoReady w = videoReady w' ->
  mediaRecorder w = mediaRecorder w' ->
  recordedChunks w = recordedChunks w' ->
  isRecording w = isRecording w' ->
  canvas w = canvas w' ->
  video w = video w' ->
  descriptionHTML w = descriptionHTML w' ->
  descriptionVisible w = descriptionVisible w' ->
  filterButtons w = filterButtons w' ->
  randomBtnDisabled w = randomBtnDisabled w' ->
  screenshotBtnDisabled w = screenshotBtnDisabled w' ->
  recordBtnDisabled w = recordBtnDisabled w' ->
  recordBtnRecording w = recordBtnRecording w' ->
  filterListPointerEvents w = filterListPointerEvents w' ->
  intervals w = intervals w' ->
  nextHandle w = nextHandle w' ->
  scheduled w = scheduled w' ->
  randomCalls w = randomCalls w' ->
  clock w = clock w' ->
  output w = output w' ->
  listeners w = listeners w' ->
  w = w'.
Proof.
  destruct w, w'. cbn. intros. subst. reflexivity.
Qed.

Ltac world_eq := apply world_ext; proj; try reflexivity.

(** ** Invariants that do not look at returned values *)

Lemma keeps_ret_any {A} (I : World -> Prop) (a : A) : keeps I (ret a) anyValue.
Proof. apply keeps_ret. exact Logic.I. Qed.

Lemma keeps_bind_any {A B} (I : World -> Prop) (m : M A) (k : A -> M B) :
  keeps I m anyValue -> (forall a, keeps I (k a) anyValue) ->
  keeps I (bind m k) anyValue.
Proof. intros Hm Hk. eapply keeps_bind; [exact Hm|]. intros a _. apply Hk. Qed.

Lemma keeps_gets_any {A} (I : World -> Prop) (f : World -> A) :
  keeps I (gets f) anyValue.
Proof. intros w Hw. split; [exact Hw | exact Logic.I]. Qed.

Lemma keeps_modify_any (I : World -> Prop) (f : World -> World) :
  (forall w, I w -> I (f w)) -> keeps I (modify f) anyValue.
Proof. intros Hf. apply keeps_modify; [exact Hf | exact (fun _ => Logic.I)]. Qed.

Lemma keeps_prop_any {A B} (I : World -> Prop) (o : option A) (f : A -> B) :
  keeps I (prop o f) anyValue.
Proof. destruct o; [apply keeps_ret_any | apply keeps_throw]. Qed.

Lemma keeps_tryCatch {A} (I : World -> Prop) (m : M A)
    (handler : JsError -> M A) :
  keeps I m anyValue -> (forall e, keeps I (handler e) anyValue) ->
  keeps I (tryCatch m handler) anyValue.
Proof.
  intros Hm Hh w Hw. unfold tryCatch.
  pose proof (Hm w Hw) as [H1 _].
  destruct (m w) as [w' [a|e|]]; cbn [fst snd] in *.
  - split; [exact H1 | exact Logic.I].
  - apply Hh, H1.
  - split; [exact H1 | exact Logic.I].
Qed.

Lemma keeps_unfinished {A} (I : World -> Prop) :
  keeps I (fun w => (w, @Unfinished A)) anyValue.
Proof. intros w Hw. split; [exact Hw | exact Logic.I]. Qed.

(** An invariant that drawing cannot break is kept by what only draws. *)
Lemma keeps_of_redrawn {A} (I : World -> Prop) (m : M A) :
  (forall w0, keeps (redrawn w0) m anyValue) ->
  (forall w0 w, redrawn w0 w -> I w0 -> I w) ->
  keeps I m anyValue.
Proof.
  intros Hm HI w Hw. split.
  - apply (HI w); [|exact Hw]. exact (proj1 (Hm w w (redrawn_refl w))).
  - destruct (snd (m w)); exact Logic.I.
Qed.

Ltac keeps_steps tac :=
  repeat first
    [ apply keeps_bind_any; [|intros ?]
    | apply keeps_ret_any
    | apply keeps_throw
    | apply keeps_gets_any
    | apply keeps_prop_any
    | apply keeps_unfinished
    | apply keeps_tryCatch; [|intros ?]
    | apply keeps_modify_any; tac
    | match goal with
      | |- keeps _ (if ?b then _ else _) _ => destruct b
      | |- keeps _ (match ?x with _ => _ end) _ => destruct x
      end ].

(** ** What changing the selection changes *)

(** The functions that change the selected archetype are built from eleven
    updates of the page; an invariant that these updates keep is kept by the
    functions, however they end. *)
Section SelectionSteps.

Variable P : Platform.
Variable Inv : World -> Prop.
Variable h : nat.

Hypothesis Hcf : forall v w, Inv w -> Inv (set_currentFilter v w).
Hypothesis Hcls :
  forall v w, Inv w -> Inv (set_canvas (set_className v (canvas w)) w).
Hypothesis Hhtml : forall v w, Inv w -> Inv (set_descriptionHTML v w).
Hypothesis Hvis : forall v w, Inv w -> Inv (set_descriptionVisible v w).
Hypothesis Hbtn :
  forall f w,
    Inv w -> Inv (set_filterButtons (map (toggleActive f) (filterButtons w)) w).
Hypothesis Hrbd : forall v w, Inv w -> Inv (set_randomBtnDisabled v w).
Hypothesis Hpe : forall v w, Inv w -> Inv (set_filterListPointerEvents v w).
Hypothesis Hrc : forall v w, Inv w -> Inv (set_randomCalls v w).
Hypothesis Hins :
  forall l w, Inv w -> Inv (set_intervals (<[h := l]> (intervals w)) w).
Hypothesis Hdel :
  forall w, Inv w -> Inv (set_intervals (delete h (intervals w)) w).
Hypothesis Hnh : forall v w, Inv w -> Inv (set_nextHandle v w).

Ltac step :=
  intros ? HInv; cbv beta;
  first [ apply Hcf | apply Hcls | apply Hhtml | apply Hvis | apply Hbtn
        | apply Hrbd | apply Hpe | apply Hrc | apply Hins | apply Hdel
        | apply Hnh ];
  exact HInv.

Lemma kept_applyFilter (filterId : string) :
  keeps Inv (applyFilter filterId) anyValue.
Proof. unfold applyFilter, modifyCanvas. keeps_steps step. Qed.

Lemma kept_randomArchetype : keeps Inv (randomArchetype P) anyValue.
Proof. unfold randomArchetype, random. keeps_steps step. Qed.

Lemma kept_pickFinal (fuel : nat) : keeps Inv (pickFinal P fuel) anyValue.
Proof.
  induction fuel as [|fuel IH]; cbn [pickFinal].
  - apply keeps_unfinished.
  - apply keeps_bind_any; [apply kept_randomArchetype|]. intros finalArch.
    keeps_steps step. exact IH.
Qed.

Lemma kept_settle (fuel : nat) : keeps Inv (settle P fuel) anyValue.
Proof.
  unfold settle.
  apply keeps_bind_any; [apply kept_pickFinal|]. intros fid.
  apply keeps_bind_any; [apply kept_applyFilter|]. intros _.
  keeps_steps step.
Qed.

Lemma kept_spinTick (fuel : nat) : keeps Inv (spinTick P fuel h) anyValue.
Proof.
  unfold spinTick, modifyCanvas.
  apply keeps_bind_any; [apply keeps_gets_any|]. intros ivs.
  destruct (ivs !! h) as [loops|]; [|apply keeps_ret_any].
  apply keeps_bind_any; [apply keeps_modify_any; step|]. intros _.
  apply keeps_bind_any; [apply kept_randomArchetype|]. intros randomArch.
  apply keeps_bind_any; [apply keeps_prop_any|]. intros rid.
  apply keeps_bind_any; [apply keeps_modify_any; step|]. intros _.
  apply keeps_bind_any; [apply keeps_modify_any; step|]. intros _.
  destruct (_ <=? _)%Z; [|apply keeps_ret_any].
  apply keeps_bind_any; [apply keeps_modify_any; step|]. intros _.
  apply keeps_bind_any; [apply kept_pickFinal|]. intros fid.
  apply keeps_bind_any; [apply kept_applyFilter|]. intros _.
  keeps_steps step.
Qed.

Lemma kept_spinTicks (fuel n : nat) :
  keeps Inv (spinTicks P fuel h n) anyValue.
Proof.
  induction n as [|n IH]; cbn [spinTicks].
  - apply keeps_ret_any.
  - apply keeps_bind_any; [apply kept_spinTick|]. intros _. exact IH.
Qed.

End SelectionSteps.

(** What a computation that keeps an invariant does to a world. *)
Lemma kept_run {A} (F : World -> World -> Prop) (m : M A) (w : World) :
  F w w -> (forall w0, keeps (F w0) m anyValue) -> F w (fst (m w)).
Proof. intros Hrefl H. exact (proj1 (H w w Hrefl)). Qed.

(** ** The recording variables belong to the recording functions *)

Section RecordingFrame.

Variable P : Platform.
Variable w0 : World.

Local Abbreviation Inv := (recordingFrame w0).

Ltac same := intros ? HInv; exact HInv.

Lemma frame_applyFilter (filterId : string) :
  keeps Inv (applyFilter filterId) anyValue.
Proof. apply kept_applyFilter; intros; assumption. Qed.

Lemma frame_applyOverlayFilter (filterId : string) :
  keeps Inv (applyOverlayFilter P filterId) anyValue.
Proof.
  apply keeps_of_redrawn.
  - intros w1. apply redrawn_applyOverlayFilter.
  - intros w1 w (px & st & n & ->) H. exact H.
Qed.

Lemma frame_renderLoop : keeps Inv (renderLoop P) anyValue.
Proof.
  unfold renderLoop, save, restore, translate, scale, schedule,
    applyDynamicFilter, draw, modifyDrawState, modifyCanvas.
  keeps_steps same. apply frame_applyOverlayFilter.
Qed.

Lemma frame_takeScreenshot : keeps Inv (takeScreenshot P) anyValue.
Proof.
  unfold takeScreenshot, save, restore, emit, applyDynamicFilter, draw,
    modifyDrawState, modifyCanvas.
  keeps_steps same. apply frame_applyOverlayFilter.
Qed.

Lemma frame_randomFilterSlotMachine :
  keeps Inv randomFilterSlotMachine anyValue.
Proof. unfold randomFilterSlotMachine. keeps_steps same. Qed.

Lemma frame_spinTick (fuel h : nat) : keeps Inv (spinTick P fuel h) anyValue.
Proof. apply kept_spinTick; intros; assumption. Qed.

Lemma frame_spin (fuel : nat) : keeps Inv (spin P fuel) anyValue.
Proof.
  unfold spin.
  apply keeps_bind_any; [apply frame_randomFilterSlotMachine|]. intros h.
  apply kept_spinTicks; intros; assumption.
Qed.

Lemma frame_initFilterButtons : keeps Inv initFilterButtons anyValue.
Proof. unfold initFilterButtons. keeps_steps same. Qed.

Lemma frame_onloadedmetadata : keeps Inv onloadedmetadata anyValue.
Proof. unfold onloadedmetadata, modifyCanvas. keeps_steps same. Qed.

Lemma frame_startCamera : keeps Inv (startCamera P) anyValue.
Proof.
  unfold startCamera, emit.
  destruct (camera P);
    repeat first
      [ apply keeps_bind_any; [|intros ?]
      | apply frame_onloadedmetadata
      | apply keeps_throw
      | apply keeps_modify_any; same
      | match goal with
        | |- keeps _ (if ?b then _ else _) _ => destruct b
        end ].
Qed.

Lemma frame_init : keeps Inv (init P) anyValue.
Proof.
  unfold init, initEventListeners, emit.
  apply keeps_tryCatch; [|intros e; apply keeps_modify_any; same].
  apply keeps_bind_any; [apply frame_startCamera|]. intros _.
  apply keeps_bind_any; [apply frame_initFilterButtons|]. intros _.
  apply keeps_bind_any; [apply keeps_modify_any; same|]. intros _.
  apply keeps_bind_any; [apply keeps_gets_any|]. intros cf.
  apply keeps_bind_any; [apply keeps_prop_any|]. intros fid.
  apply keeps_bind_any; [apply frame_applyFilter|]. intros _.
  apply frame_renderLoop.
Qed.

End RecordingFrame.

Lemma recordingFrame_refl (w : World) : recordingFrame w w.
Proof. repeat split. Qed.

(** What a computation that keeps the recording frame does to a world. *)
Lemma frame_run {A} (m : M A) (w : World) :
  (forall w0, keeps (recordingFrame w0) m anyValue) ->
  recordingFrame w (fst (m w)).
Proof. apply kept_run. apply recordingFrame_refl. Qed.

(** ** The selection functions do not draw, emit or schedule *)

Lemma selectionFrame_refl (w : World) : selectionFrame w w.
Proof. repeat split. Qed.

Lemma selectionFrame_buttons (w0 w : World) (f : string) :
  selectionFrame w0 w ->
  selectionFrame w0
    (set_filterButtons (map (toggleActive f) (filterButtons w)) w).
Proof.
  intros (H1 & H2 & H3 & H4 & H5 & H6 & H7 & H8 & H9 & H10 & H11 & H12).
  repeat (split; [assumption|]).
  cbn [filterButtons set_filterButtons]. rewrite <- H12, map_map.
  reflexivity.
Qed.

Lemma selection_applyFilter (w0 : World) (filterId : string) :
  keeps (selectionFrame w0) (applyFilter filterId) anyValue.
Proof.
  apply kept_applyFilter; intros;
    first [assumption | apply selectionFrame_buttons; assumption].
Qed.

Lemma selection_spinTicks (P : Platform) (w0 : World) (fuel h n : nat) :
  keeps (selectionFrame w0) (spinTicks P fuel h n) anyValue.
Proof.
  apply kept_spinTicks; intros;
    first [assumption | apply selectionFrame_buttons; assumption].
Qed.

Lemma selection_spin (P : Platform) (w0 : World) (fuel : nat) :
  keeps (selectionFrame w0) (spin P fuel) anyValue.
Proof.
  unfold spin.
  apply keeps_bind_any; [|intros h; apply selection_spinTicks].
  unfold randomFilterSlotMachine.
  keeps_steps ltac:(intros ? HInv; exact HInv).
Qed.

(** ** Recording: data events, stop, delivery *)

Lemma set_recordedChunks_same (w : World) :
  set_recordedChunks (recordedChunks w ++ []) w = w.
Proof. destruct w. cbn. rewrite app_nil_r. reflexivity. Qed.

Lemma ondataavailable_run (b : Blob) (w : World) :
  ondataavailable b w =
  (set_recordedChunks
     (recordedChunks w ++ (if nonEmpty b then [b] else [])) w,
   Normal tt).
Proof.
  unfold ondataavailable, nonEmpty. destruct (0 <? length b).
  - reflexivity.
  - rewrite set_recordedChunks_same. reflexivity.
Qed.

Lemma deliverData_run (bs : list Blob) :
  forall w,
    deliverData bs w =
    (set_recordedChunks (recordedChunks w ++ List.filter nonEmpty bs) w,
     Normal tt).
Proof.
  induction bs as [|b bs IH]; intros w; cbn [deliverData List.filter].
  - rewrite set_recordedChunks_same. reflexivity.
  - rewrite (bind_normal _ _ _ _ _ (ondataavailable_run b w)), IH.
    cbn [recordedChunks set_recordedChunks].
    destruct (nonEmpty b); [rewrite <- app_assoc | rewrite app_nil_r];
      reflexivity.
Qed.

(** X1.  The data events of a recording are kept in the order they come:
    after any sequence of dataavailable events [recordedChunks] is what it
    was, followed by the non-empty blobs of the sequence in their order;
    empty blobs are skipped, nothing else is dropped or reordered, and no
    other part of the state changes. *)
Theorem dataavailable_keeps_order (bs : list Blob) (w : World) :
  snd (deliverData bs w) = Normal tt /\
  recordedChunks (fst (deliverData bs w))
  = recordedChunks w ++ List.filter nonEmpty bs /\
  fst (deliverData bs w)
  = set_recordedChunks (recordedChunks (fst (deliverData bs w))) w /\
  (Forall (fun b => length b <> 0) bs ->
   recordedChunks (fst (deliverData bs w)) = recordedChunks w ++ bs).
Proof.
  rewrite deliverData_run. cbn [fst snd recordedChunks set_recordedChunks].
  repeat split.
  intros Hall. f_equal. induction Hall as [|b bs Hb _ IH]; [reflexivity|].
  cbn [List.filter]. unfold nonEmpty at 1.
  destruct (length b) eqn:E; [contradiction|]. cbn. f_equal. exact IH.
Qed.

Lemma dataavailable_keeps_order_witness :
  Forall (fun b : Blob => length b <> 0) [[7]%Z; [8; 9]%Z] /\
  recordedChunks (fst (deliverData [[7]%Z; [8; 9]%Z] recordingWorld))
  = recordedChunks recordingWorld ++ [[7]%Z; [8; 9]%Z].
Proof.
  assert (H : Forall (fun b : Blob => length b <> 0) [[7]%Z; [8; 9]%Z])
    by (repeat constructor; discriminate).
  split; [exact H|].
  exact (proj2 (proj2 (proj2
           (dataavailable_keeps_order [[7]%Z; [8; 9]%Z] recordingWorld))) H).
Defined.

Lemma stopRecording_run (w : World) :
  stopRecording w =
  (set_filterListPointerEvents "auto"
     (set_randomBtnDisabled false
        (set_screenshotBtnDisabled false
           (set_recordBtnDisabled false
              (set_recordBtnRecording false
                 (set_isRecording false
                    match mediaRecorder w with
                    | Some (mkMediaRecorder mt recording) =>
                        set_scheduled (scheduled w ++ [RecorderStopTask])
                          (set_mediaRecorder
                             (Some (mkMediaRecorder mt inactive)) w)
                    | _ => w
                    end))))),
   Normal tt).
Proof.
  unfold stopRecording. rewrite bind_gets.
  destruct (mediaRecorder w) as [[mt []]|]; reflexivity.
Qed.

(** X2.  [stopRecording] always returns with [isRecording] cleared and the
    four controls unlocked; it stops the recorder, which queues the one task
    that delivers the file, only when the recorder is recording, and a second
    call changes nothing: stopping twice cannot deliver a file twice. *)
Theorem stopRecording_idempotent (w : World) :
  let w' := fst (stopRecording w) in
  snd (stopRecording w) = Normal tt /\
  isRecording w' = false /\ recordBtnRecording w' = false /\
  recordBtnDisabled w' = false /\ screenshotBtnDisabled w' = false /\
  randomBtnDisabled w' = false /\
  filterListPointerEvents w' = "auto"%string /\
  output w' = output w /\ recordedChunks w' = recordedChunks w /\
  (scheduled w' =
   match mediaRecorder w with
   | Some (mkMediaRecorder _ recording) => scheduled w ++ [RecorderStopTask]
   | _ => scheduled w
   end) /\
  stopRecording w' = (w', Normal tt).
Proof.
  cbv zeta. rewrite stopRecording_run. cbn [fst snd].
  set (w1 := match mediaRecorder w with
             | Some (mkMediaRecorder mt recording) =>
                 set_scheduled (scheduled w ++ [RecorderStopTask])
                   (set_mediaRecorder (Some (mkMediaRecorder mt inactive)) w)
             | _ => w
             end).
  assert (Hout : output w1 = output w /\ recordedChunks w1 = recordedChunks w)
    by (subst w1; destruct (mediaRecorder w) as [[mt []]|]; split; reflexivity).
  assert (Hsch : scheduled w1 =
                 match mediaRecorder w with
                 | Some (mkMediaRecorder _ recording) =>
                     scheduled w ++ [RecorderStopTask]
                 | _ => scheduled w
                 end)
    by (subst w1; destruct (mediaRecorder w) as [[mt []]|]; reflexivity).
  assert (Hidle : match mediaRecorder w1 with
                  | Some r => state r <> recording
                  | None => True
                  end).
  { subst w1. destruct (mediaRecorder w) as [[mt []]|] eqn:E; cbn;
      rewrite ?E; cbn; try discriminate; exact Logic.I. }
  destruct Hout as [Hout Hchunks]. proj.
  do 9 (split; [first [reflexivity | assumption]|]).
  split; [exact Hsch|].
  rewrite stopRecording_idle by exact Hidle.
  apply f_equal2; [world_eq | reflexivity].
Qed.

Lemma startRecording_started (P : Platform) (w : World) (t : string) :
  isRecording w = false ->
  find (isTypeSupported P) mimeTypes = Some t ->
  startRecording P w =
  (set_scheduled (scheduled w ++ [StopTimer 5000])
     (set_mediaRecorder (Some (mkMediaRecorder t recording))
        (set_output (output w ++ [ConsoleLog ("Using MIME type: " ++ t)])
           (set_filterListPointerEvents "none"
              (set_randomBtnDisabled true
                 (set_screenshotBtnDisabled true
                    (set_recordBtnDisabled true
                       (set_recordBtnRecording true
                          (set_recordedChunks []
                             (set_isRecording true w))))))))),
   Normal tt).
Proof.
  intros Hidle Hfind. rewrite (startRecording_idle P w Hidle), Hfind.
  unfold emit, schedule. rewrite !bind_modify. unfold modify.
  apply f_equal2; [world_eq | reflexivity].
Qed.

Lemma handleRecordingStop_run (w : World) (r : MediaRecorder)
    (a : Archetype.t) :
  mediaRecorder w = Some r -> currentFilter w = Some a ->
  handleRecordingStop w =
  (set_output
     (output w ++
      [Download ("jungian_mirror_" ++ Archetype.id a ++ "_"
                 ++ toString (clock w) ++ "." ++ fileExtensionOf (mimeType r))
                (BlobOf (mimeType r) (recordedChunks w))]) w,
   Normal tt).
Proof.
  intros Hmr Hcf. unfold handleRecordingStop.
  rewrite bind_gets, Hmr.
  rewrite (bind_normal (prop (Some r) mimeType) _ _ _ _ eq_refl).
  rewrite bind_gets.
  rewrite (bind_normal (prop (Some r) mimeType) _ _ _ _ eq_refl).
  rewrite bind_gets, Hcf.
  rewrite (bind_normal (prop (Some a) Archetype.id) _ _ _ _ eq_refl).
  rewrite bind_gets. reflexivity.
Qed.

Lemma fileExtensionOf_mimeTypes (t : string) :
  In t mimeTypes ->
  (fileExtensionOf t = "mp4"%string <-> Some t = head mimeTypes) /\
  (fileExtensionOf t = "webm"%string <-> Some t <> head mimeTypes).
Proof.
  intros [<-|[<-|[<-|[<-|[]]]]]; vm_compute;
    (split; split; intros H; try reflexivity; try discriminate;
     try (exfalso; apply H; reflexivity)).
Qed.

(** X3.  A whole recording: started while idle with the first supported
    format [t], fed any data events, stopped, and finished by the recorder's
    stop task.  Exactly one file is handed out; it holds the non-empty blobs
    of all data events, the last one included, in the order they came; its
    type is [t], its name is [jungian_mirror_<id>_<time>.<ext>] with the id
    of the current filter, and the extension is mp4 exactly when [t] is the
    first format of the list and webm otherwise.  Afterwards the script is
    idle with an inactive recorder. *)
Theorem recording_delivers_chunks (P : Platform) (w : World)
    (a : Archetype.t) (t : string) (bs : list Blob) (lastData : Blob) :
  isRecording w = false ->
  currentFilter w = Some a ->
  find (isTypeSupported P) mimeTypes = Some t ->
  let session :=
    startRecording P ;; deliverData bs ;; stopRecording ;;
    recorderStopTask lastData in
  let w' := fst (session w) in
  snd (session w) = Normal tt /\
  output w' =
  output w ++
  [ConsoleLog ("Using MIME type: " ++ t);
   Download ("jungian_mirror_" ++ Archetype.id a ++ "_"
             ++ toString (clock w) ++ "." ++ fileExtensionOf t)
            (BlobOf t (List.filter nonEmpty (bs ++ [lastData])))] /\
  isRecording w' = false /\
  mediaRecorder w' = Some (mkMediaRecorder t inactive) /\
  scheduled w' = scheduled w ++ [StopTimer 5000; RecorderStopTask] /\
  (fileExtensionOf t = "mp4"%string <-> Some t = head mimeTypes) /\
  (fileExtensionOf t = "webm"%string <-> Some t <> head mimeTypes).
Proof.
  intros Hidle Hcf Hfind session w'. subst w' session.
  rewrite (bind_normal _ _ _ _ _ (startRecording_started P w t Hidle Hfind)).
  rewrite (bind_normal _ _ _ _ _ (deliverData_run bs _)).
  rewrite (bind_normal _ _ _ _ _ (stopRecording_run _)).
  proj. unfold recorderStopTask.
  rewrite (bind_normal _ _ _ _ _ (ondataavailable_run lastData _)).
  proj.
  rewrite (handleRecordingStop_run _ (mkMediaRecorder t inactive) a)
    by (proj; first [reflexivity | exact Hcf]).
  proj. cbn [mimeType].
  split; [reflexivity|].
  split.
  { rewrite List.filter_app. cbn [List.filter app].
    rewrite <- !app_assoc. cbn [app].
    destruct (nonEmpty lastData); reflexivity. }
  split; [reflexivity|]. split; [reflexivity|].
  split; [rewrite <- app_assoc; reflexivity|].
  apply fileExtensionOf_mimeTypes.
  apply find_some in Hfind. exact (proj1 Hfind).
Qed.

Lemma recording_delivers_chunks_witness :
  isRecording liveWorld = false /\
  output
    (fst ((startRecording webmPlatform ;; deliverData [[1]%Z; []; [2; 3]%Z] ;;
           stopRecording ;; recorderStopTask [4]%Z) liveWorld))
  = output liveWorld ++
    [ConsoleLog "Using MIME type: video/webm; codecs=vp9";
     Download "jungian_mirror_trickster_0.webm"
       (BlobOf "video/webm; codecs=vp9" [[1]%Z; [2; 3]%Z; [4]%Z])].
Proof.
  assert (Hidle : isRecording liveWorld = false) by (vm_compute; reflexivity).
  assert (Hcf : currentFilter liveWorld = archetypes !! 4)
    by (vm_compute; reflexivity).
  assert (Hfind : find (isTypeSupported webmPlatform) mimeTypes
                  = Some "video/webm; codecs=vp9"%string)
    by (vm_compute; reflexivity).
  split; [exact Hidle|].
  destruct (recording_delivers_chunks webmPlatform liveWorld _ _
              [[1]%Z; []; [2; 3]%Z] [4]%Z Hidle Hcf Hfind)
    as (_ & Hout & _).
  rewrite Hout. vm_compute. reflexivity.
Defined.

(** ** Invariants of the recording state *)

Lemma controlsFollowRecording_frame (w0 w : World) :
  recordingFrame w0 w -> controlsFollowRecording w0 ->
  controlsFollowRecording w.
Proof.
  intros (H1 & _ & _ & H4 & H5 & H6) (A & B & C).
  unfold controlsFollowRecording. rewrite H1, H4, H5, H6. auto.
Qed.

Lemma recorderIdle_frame (w0 w : World) :
  recordingFrame w0 w -> recorderIdle w0 -> recorderIdle w.
Proof.
  intros (H1 & _ & H3 & _) H. unfold recorderIdle. rewrite H1, H3. exact H.
Qed.

(** X4.  The record button and the screenshot button are disabled, and the
    record button shows as recording, exactly while [isRecording] is set:
    every function the script attaches to an event or a timer keeps this,
    however the function ends. *)
Theorem controls_follow_recording (P : Platform) (w : World) :
  controlsFollowRecording w ->
  controlsFollowRecording (fst (startRecording P w)) /\
  controlsFollowRecording (fst (stopRecording w)) /\
  (forall b, controlsFollowRecording (fst (ondataavailable b w))) /\
  controlsFollowRecording (fst (handleRecordingStop w)) /\
  (forall filterId, controlsFollowRecording (fst (applyFilter filterId w))) /\
  (forall fuel, controlsFollowRecording (fst (spin P fuel w))) /\
  (forall fuel h, controlsFollowRecording (fst (spinTick P fuel h w))) /\
  controlsFollowRecording (fst (takeScreenshot P w)) /\
  controlsFollowRecording (fst (renderLoop P w)) /\
  controlsFollowRecording (fst (init P w)).
Proof.
  intros Hw.
  assert (Hframe : forall {A} (m : M A),
             (forall w0, keeps (recordingFrame w0) m anyValue) ->
             controlsFollowRecording (fst (m w))).
  { intros A m Hm.
    exact (controlsFollowRecording_frame w _ (frame_run m w Hm) Hw). }
  split; [|split; [|split; [|split]]].
  - destruct (isRecording w) eqn:Hrec.
    + rewrite (startRecording_busy P w Hrec). exact Hw.
    + rewrite (startRecording_idle P w Hrec).
      destruct (find (isTypeSupported P) mimeTypes) as [t|].
      * unfold emit, schedule. rewrite !bind_modify. repeat split.
      * unfold emit. rewrite !bind_modify, stopRecording_run. repeat split.
  - rewrite stopRecording_run. repeat split.
  - intros b. rewrite ondataavailable_run. exact Hw.
  - apply Hframe. intros w0. unfold handleRecordingStop, emit.
    keeps_steps ltac:(intros ? HInv; exact HInv).
  - split; [intros filterId; apply Hframe; intros w0; apply frame_applyFilter|].
    split; [intros fuel; apply Hframe; intros w0; apply frame_spin|].
    split; [intros fuel h; apply Hframe; intros w0; apply frame_spinTick|].
    split; [apply Hframe; intros w0; apply frame_takeScreenshot|].
    split; apply Hframe; intros w0; [apply frame_renderLoop | apply frame_init].
Qed.

Lemma controls_follow_recording_witness :
  controlsFollowRecording liveWorld /\
  controlsFollowRecording (fst (startRecording webmPlatform liveWorld)) /\
  isRecording (fst (startRecording webmPlatform liveWorld)) = true.
Proof.
  assert (H : controlsFollowRecording liveWorld)
    by (repeat split; vm_compute; reflexivity).
  split; [exact H|].
  split; [exact (proj1 (controls_follow_recording webmPlatform liveWorld H))|].
  vm_compute. reflexivity.
Defined.

(** X5.  Only the recording functions touch the recording: changing the
    filter, the spin and each of its ticks, a screenshot, a render tick, the
    creation of the filter buttons and [init] leave [isRecording], the
    recorded chunks, the recorder and the state of the record and screenshot
    buttons as they were, whether they return or throw, whatever the
    platform draws and whatever [Math.random] gives. *)
Theorem recording_state_untouched (P : Platform) (w : World) :
  (forall filterId, recordingFrame w (fst (applyFilter filterId w))) /\
  (forall fuel, recordingFrame w (fst (spin P fuel w))) /\
  (forall fuel h, recordingFrame w (fst (spinTick P fuel h w))) /\
  recordingFrame w (fst (takeScreenshot P w)) /\
  recordingFrame w (fst (renderLoop P w)) /\
  recordingFrame w (fst (initFilterButtons w)) /\
  recordingFrame w (fst (init P w)).
Proof.
  split; [intros filterId; apply frame_run; intros w0; apply frame_applyFilter|].
  split; [intros fuel; apply frame_run; intros w0; apply frame_spin|].
  split; [intros fuel h; apply frame_run; intros w0; apply frame_spinTick|].
  split; [apply frame_run; intros w0; apply frame_takeScreenshot|].
  split; [apply frame_run; intros w0; apply frame_renderLoop|].
  split; apply frame_run; intros w0;
    [apply frame_initFilterButtons | apply frame_init].
Qed.

(** ** Selecting an archetype *)

(** The ids of the catalog are distinct: an entry is found by its id. *)
Lemma find_catalog_id (a : Archetype.t) :
  In a archetypes ->
  find (fun x => String.eqb (Archetype.id x) (Archetype.id a)) archetypes
  = Some a.
Proof. intros [<-|[<-|[<-|[<-|[<-|[]]]]]]; reflexivity. Qed.

Lemma toggleActive_twice (f g : string) (bs : list FilterButton) :
  map (toggleActive g) (map (toggleActive f) bs) = map (toggleActive g) bs.
Proof. rewrite map_map. apply map_ext. intros b. reflexivity. Qed.

Lemma toggleActive_shows (f : string) (bs : list FilterButton) :
  Forall (fun b => active b = String.eqb (datasetFilter b) f)
         (map (toggleActive f) bs).
Proof.
  apply List.Forall_forall. intros x Hx.
  apply in_map_iff in Hx as (y & <- & _). reflexivity.
Qed.

Lemma applyFilter_catalog_run (a : Archetype.t) (w : World) :
  In a archetypes ->
  applyFilter (Archetype.id a) w =
  (set_filterButtons (map (toggleActive (Archetype.id a)) (filterButtons w))
     (set_descriptionVisible true
        (set_descriptionHTML
           ("<h3>" ++ Archetype.name a ++ "</h3><p>"
            ++ Archetype.description a ++ "</p>")
           (set_canvas (set_className (Archetype.id a) (canvas w))
              (set_currentFilter (Some a) w)))),
   Normal tt).
Proof. intros Hin. apply applyFilter_found, find_catalog_id, Hin. Qed.

(** X6.  Selecting a catalog entry [a] makes the page show [a]: it is the
    current filter, the canvas has its class, the description box holds its
    name and description and is visible, and a filter button is active
    exactly when it is the button of [a].  Nothing else of the page changes
    (nothing is drawn, emitted or scheduled).  The last selection wins:
    the result does not depend on what was selected before, and selecting
    [a] again changes nothing. *)
Theorem applyFilter_shows_selection (a : Archetype.t) (w : World) :
  In a archetypes ->
  let w' := fst (applyFilter (Archetype.id a) w) in
  shows a w' /\
  descriptionHTML w' =
  ("<h3>" ++ Archetype.name a ++ "</h3><p>" ++ Archetype.description a
   ++ "</p>")%string /\
  selectionFrame w w' /\
  (forall b,
     In b archetypes ->
     applyFilter (Archetype.id a) (fst (applyFilter (Archetype.id b) w))
     = (w', Normal tt)) /\
  applyFilter (Archetype.id a) w' = (w', Normal tt).
Proof.
  intros Hin w'.
  assert (Hlast : forall w1,
             (w1 = w \/ exists b, In b archetypes /\
                                  w1 = fst (applyFilter (Archetype.id b) w)) ->
             applyFilter (Archetype.id a) w1 = (w', Normal tt)).
  { intros w1 Hw1. subst w'.
    rewrite !(applyFilter_catalog_run a) by exact Hin.
    destruct Hw1 as [->|(b & Hb & ->)]; [reflexivity|].
    rewrite (applyFilter_catalog_run b w Hb).
    apply f_equal2; [|reflexivity]. world_eq.
    apply toggleActive_twice. }
  split; [|split; [|split; [|split]]].
  - subst w'. rewrite (applyFilter_catalog_run a w Hin).
    unfold shows. proj.
    split; [reflexivity|]. split; [reflexivity|]. split; [reflexivity|].
    apply toggleActive_shows.
  - subst w'. rewrite (applyFilter_catalog_run a w Hin). reflexivity.
  - apply (kept_run selectionFrame); [apply selectionFrame_refl|].
    intros w0. apply selection_applyFilter.
  - intros b Hb. apply Hlast. right. exists b. auto.
  - apply Hlast. right. exists a. auto.
Qed.

Lemma applyFilter_shows_selection_witness :
  exists anima,
    archetypes !! 3 = Some anima /\
    In anima archetypes /\
    shows anima (fst (applyFilter "anima" liveWorld)) /\
    map active (filterButtons (fst (applyFilter "anima" liveWorld)))
    = [false; false; false; true; false].
Proof.
  eexists. split; [reflexivity|].
  match goal with |- In ?a _ /\ _ => set (anima := a) end.
  assert (Hin : In anima archetypes) by (vm_compute; tauto).
  split; [exact Hin|].
  split; [exact (proj1 (applyFilter_shows_selection anima liveWorld Hin))|].
  vm_compute. reflexivity.
Defined.

(** ** The spin, once completed *)

(** X7.  A spin that completes leaves the page showing one catalog entry,
    with the random button and the filter list unlocked again, whether or
    not a recording is going on; its interval is cleared and the other
    intervals are as they were; and the spin has drawn nothing on the
    canvas, emitted nothing, scheduled nothing and left the recording
    alone. *)
Theorem spin_completed (P : Platform) (fuel : nat) (w w' : World)
    (a : Archetype.t) :
  currentFilter w = Some a ->
  spin P fuel w = (w', Normal tt) ->
  (exists b, In b archetypes /\ shows b w') /\
  randomBtnDisabled w' = false /\
  filterListPointerEvents w' = "auto"%string /\
  intervals w' !! nextHandle w = None /\
  (forall h, h <> nextHandle w -> intervals w' !! h = intervals w !! h) /\
  nextHandle w' = S (nextHandle w) /\
  selectionFrame w w'.
Proof.
  intros Hcf E.
  assert (Hsel : selectionFrame w w').
  { pose proof (kept_run selectionFrame (spin P fuel) w
                  (selectionFrame_refl w)
                  (fun w0 => selection_spin P w0 fuel)) as H.
    rewrite E in H. exact H. }
  assert (E1 : spinTicks P fuel (nextHandle w) 15
                 (fst (randomFilterSlotMachine w)) = (w', Normal tt)).
  { unfold spin in E.
    rewrite (bind_normal _ _ _ _ _ (randomFilterSlotMachine_run w)) in E.
    exact E. }
  destruct (spin_start w a Hcf) as [Hsp _].
  set (h := nextHandle w) in *.
  assert (Hnh : nextHandle (fst (randomFilterSlotMachine w)) = S h)
    by reflexivity.
  assert (Hoth : forall h', h' <> h ->
             intervals (fst (randomFilterSlotMachine w)) !! h'
             = intervals w !! h').
  { intros h' Hne. rewrite randomFilterSlotMachine_run. proj.
    apply lookup_insert_ne. intros Heq. apply Hne. symmetry. exact Heq. }
  set (w1 := fst (randomFilterSlotMachine w)) in *.
  assert (Hnh' : nextHandle w' = S h).
  { pose proof (kept_spinTicks P (fun x => nextHandle x = S h) h) as H.
    specialize (H ltac:(intros; assumption) ltac:(intros; assumption)
                  ltac:(intros; assumption) ltac:(intros; assumption)
                  ltac:(intros; assumption) ltac:(intros; assumption)
                  ltac:(intros; assumption) ltac:(intros; assumption)
                  ltac:(intros; assumption) ltac:(intros; assumption)
                  fuel 15 w1 Hnh).
    rewrite E1 in H. exact (proj1 H). }
  assert (Hoth' : forall h', h' <> h -> intervals w' !! h' = intervals w !! h').
  { intros h' Hne.
    assert (Hne' : h <> h') by (intros Heq; apply Hne; symmetry; exact Heq).
    pose proof (kept_spinTicks P
                  (fun x => intervals x !! h' = intervals w !! h') h) as H.
    specialize (H ltac:(intros; assumption) ltac:(intros; assumption)
                  ltac:(intros; assumption) ltac:(intros; assumption)
                  ltac:(intros; assumption) ltac:(intros; assumption)
                  ltac:(intros; assumption) ltac:(intros; assumption)).
    assert (Hi : forall (l : Z) (x : World),
               intervals x !! h' = intervals w !! h' ->
               intervals (set_intervals (<[h := l]> (intervals x)) x) !! h'
               = intervals w !! h').
    { intros l x Hx. proj. rewrite lookup_insert_ne by exact Hne'. exact Hx. }
    assert (Hd : forall x : World,
               intervals x !! h' = intervals w !! h' ->
               intervals (set_intervals (delete h (intervals x)) x) !! h'
               = intervals w !! h').
    { intros x Hx. proj. rewrite lookup_delete_ne by exact Hne'. exact Hx. }
    specialize (H Hi Hd fuel 15 w1 (Hoth h' Hne)).
    rewrite E1 in H. exact (proj1 H). }
  change 15 with (14 + 1) in E1. rewrite spinTicks_add in E1.
  destruct (spinTicks_visual P fuel a h 14 w1 15 Hsp ltac:(lia))
    as (_ & Hvis & _).
  destruct (spinTicks P fuel h 14 w1) as [w14 [[]|e|]] eqn:E14;
    [ rewrite (bind_normal _ _ _ _ _ E14) in E1
    | rewrite (bind_throw _ _ _ _ _ E14) in E1; discriminate
    | unfold bind in E1; rewrite E14 in E1; discriminate ].
  destruct (Hvis eq_refl) as [Hsp14 _]. cbn [fst] in Hsp14.
  change (15 - Z.of_nat 14)%Z with 1%Z in Hsp14.
  rewrite spinTicks_one in E1.
  assert (Hcleared : intervals w' !! h = None).
  { pose proof E1 as E2.
    rewrite (spinTick_run P fuel h w14 1 (proj2 Hsp14)) in E2.
    cbv zeta in E2.
    destruct (drawn P (randomCalls w14)) as [b0|]; [|discriminate].
    change (1 - 1 <=? 0)%Z with true in E2. cbv iota in E2.
    match type of E2 with
    | settle P fuel ?W = _ =>
        pose proof (kept_settle P (fun x => intervals x !! h = None)) as H;
        specialize (H ltac:(intros; assumption) ltac:(intros; assumption)
                      ltac:(intros; assumption) ltac:(intros; assumption)
                      ltac:(intros; assumption) ltac:(intros; assumption)
                      ltac:(intros; assumption) ltac:(intros; assumption)
                      fuel W);
        rewrite E2 in H; apply H
    end.
    proj. apply lookup_delete_eq. }
  destruct (spinTick_last P fuel a h w14 w' Hsp14 E1)
    as (b & wm & Hb & _ & _ & _ & _ & Hw').
  rewrite (applyFilter_catalog_run b wm Hb) in Hw'. cbn [fst] in Hw'.
  split.
  { exists b. split; [exact Hb|]. rewrite Hw'. unfold shows. proj.
    split; [reflexivity|]. split; [reflexivity|]. split; [reflexivity|].
    apply toggleActive_shows. }
  split; [rewrite Hw'; reflexivity|].
  split; [rewrite Hw'; reflexivity|].
  split; [exact Hcleared|].
  split; [exact Hoth'|].
  split; [exact Hnh' | exact Hsel].
Qed.

Lemma spin_completed_witness :
  currentFilter liveWorld = archetypes !! 4 /\
  exists w',
    spin spinPlatform 4 liveWorld = (w', Normal tt) /\
    randomBtnDisabled w' = false /\
    intervals w' !! nextHandle liveWorld = None /\
    output w' = output liveWorld.
Proof.
  assert (Hcf : currentFilter liveWorld = archetypes !! 4)
    by (vm_compute; reflexivity).
  split; [exact Hcf|].
  destruct (spin spinPlatform 4 liveWorld) as [w' c] eqn:E.
  assert (Hc : c = Normal tt).
  { pose proof (f_equal snd E) as E'. vm_compute in E'. symmetry. exact E'. }
  subst c. exists w'. split; [reflexivity|].
  destruct (spin_completed spinPlatform 4 liveWorld w' _ Hcf E)
    as (_ & Hrbd & _ & Hiv & _ & _ & Hsel).
  split; [exact Hrbd|]. split; [exact Hiv|].
  exact (proj1 (proj2 (proj2 (proj2 (proj2 (proj2 (proj2 (proj2 (proj2
           (proj2 (proj2 Hsel))))))))))).
Defined.

(** ** When a frame can be drawn *)

Lemma completes_ret {A} (a : A) : completes (ret a).
Proof. intros w. exists w, a. reflexivity. Qed.

Lemma completes_gets {A} (f : World -> A) : completes (gets f).
Proof. intros w. exists w, (f w). reflexivity. Qed.

Lemma completes_modify (f : World -> World) : completes (modify f).
Proof. intros w. exists (f w), tt. reflexivity. Qed.

Lemma completes_bind {A B} (m : M A) (k : A -> M B) :
  completes m -> (forall a, completes (k a)) -> completes (bind m k).
Proof.
  intros Hm Hk w. destruct (Hm w) as (w1 & a & E).
  rewrite (bind_normal _ _ _ _ _ E). apply Hk.
Qed.

Lemma completes_snd (m : M unit) (w : World) :
  completes m -> snd (m w) = Normal tt.
Proof. intros H. destruct (H w) as (w' & [] & ->). reflexivity. Qed.

Ltac completes_steps :=
  repeat first
    [ apply completes_bind; [|intros ?]
    | apply completes_ret
    | apply completes_gets
    | apply completes_modify
    | match goal with
      | |- completes (if ?b then _ else _) => destruct b
      end ].

Lemma completes_applySelfEffect (P : Platform) : completes (applySelfEffect P).
Proof.
  unfold applySelfEffect, draw, paint, modifyDrawState, modifyCanvas.
  completes_steps.
Qed.

Lemma zeroArea_true (c : Canvas) :
  zeroArea c = true -> width c = 0 \/ height c = 0.
Proof.
  unfold zeroArea. intros H. apply orb_true_iff in H.
  destruct H as [H|H]; apply Nat.eqb_eq in H; auto.
Qed.

Lemma zeroArea_false (c : Canvas) :
  zeroArea c = false -> width c <> 0 /\ height c <> 0.
Proof.
  unfold zeroArea. intros H. apply orb_false_iff in H.
  destruct H as [H1 H2]. apply Nat.eqb_neq in H1, H2. auto.
Qed.

(** *** Drawing calls *)

Lemma draw_run (P : Platform) (call : DrawCall) (w : World) :
  draw P call w =
  if fromCanvas call && zeroArea (canvas w)
  then (w, Throw InvalidStateError)
  else (set_canvas
          (set_bitmap
             (raster P call (drawState (canvas w)) (width (canvas w))
                (height (canvas w)) (bitmap (canvas w)))
             (canvas w)) w,
        Normal tt).
Proof.
  destruct call; try reflexivity;
    unfold draw, bind, gets, zeroArea; cbn [fromCanvas andb];
    destruct (_ || _); reflexivity.
Qed.

Lemma bind_draw {B} (P : Platform) (call : DrawCall) (k : unit -> M B)
    (w : World) :
  bind (draw P call) k w =
  if fromCanvas call && zeroArea (canvas w)
  then (w, Throw InvalidStateError)
  else k tt (set_canvas
               (set_bitmap
                  (raster P call (drawState (canvas w)) (width (canvas w))
                     (height (canvas w)) (bitmap (canvas w)))
                  (canvas w)) w).
Proof.
  unfold bind at 1. rewrite draw_run.
  destruct (fromCanvas call && zeroArea (canvas w)); reflexivity.
Qed.

Lemma bind_random {B} (P : Platform) (k : float -> M B) (w : World) :
  bind (random P) k w =
  k (mathRandom P (randomCalls w)) (set_randomCalls (S (randomCalls w)) w).
Proof. reflexivity. Qed.

(** *** The shadow effect *)

(** One slice of the glitch: three random values, then the copy. *)
Lemma bind_sliceGlitch {B} (P : Platform) (k : unit -> M B) (w : World) :
  exists px,
    bind (sliceGlitch P) k w =
    if zeroArea (canvas w)
    then (set_randomCalls (3 + randomCalls w) w, Throw InvalidStateError)
    else k tt (set_canvas (set_bitmap px (canvas w))
                 (set_randomCalls (3 + randomCalls w) w)).
Proof.
  unfold sliceGlitch.
  rewrite bind_assoc, bind_gets.
  rewrite bind_assoc, bind_random.
  rewrite bind_assoc, bind_random.
  rewrite bind_assoc, bind_random.
  rewrite bind_draw. cbn [fromCanvas andb]. unfold zeroArea. proj.
  eexists. destruct (_ || _); [reflexivity|].
  f_equal.
Qed.

(** The whole effect: the state it leaves and how it ends. *)
Lemma applyShadowEffect_run (P : Platform) (w : World) :
  let n := randomCalls w in
  let st := drawState (canvas w) in
  exists px,
    applyShadowEffect P w =
    (set_randomCalls
       (if zeroArea (canvas w)
        then (if glitches P n then 4 + n
              else if splits P n then 3 + n else 2 + n)
        else afterShadow P n)
       (set_canvas
          (set_drawState
             (set_globalCompositeOperation
                (if zeroArea (canvas w)
                 then (if glitches P n then globalCompositeOperation st
                       else if splits P n then "lighter"%string
                            else globalCompositeOperation st)
                 else (if splits P n then "source-over"%string
                       else globalCompositeOperation st))
                (set_fillStyle
                   (shadowGradient (width (canvas w)) (height (canvas w)))
                   st))
             (set_bitmap px (canvas w))) w),
     if zeroArea (canvas w) && copiesCanvas P n
     then Throw InvalidStateError else Normal tt).
Proof.
  cbv zeta.
  unfold applyShadowEffect, modifyDrawState, modifyCanvas.
  rewrite bind_gets, bind_modify, bind_draw. cbn [fromCanvas andb].
  rewrite bind_random. proj.
  unfold copiesCanvas, afterShadow, splits, afterGlitch, glitches.
  destruct (0.85 <? mathRandom P (randomCalls w))%float.
  - rewrite bind_assoc.
    match goal with
    | |- context [bind (sliceGlitch P) ?k ?W] =>
        destruct (bind_sliceGlitch P k W) as [px1 ->]
    end.
    unfold zeroArea. proj.
    destruct ((width (canvas w) =? 0) || (height (canvas w) =? 0))%nat eqn:Hz.
    + eexists. apply f_equal2; [world_eq | reflexivity].
    + match goal with
      | |- context [bind (sliceGlitch P) ?k ?W] =>
          destruct (bind_sliceGlitch P k W) as [px2 ->]
      end.
      unfold zeroArea. proj. rewrite Hz.
      rewrite bind_random. proj. cbn [Nat.add].
      destruct (0.95 <? _)%float.
      * rewrite bind_modify, bind_random.
        rewrite bind_draw. cbn [fromCanvas andb]. unfold zeroArea. proj.
        rewrite Hz.
        rewrite bind_draw. cbn [fromCanvas andb]. unfold zeroArea. proj.
        rewrite Hz.
        unfold modify. proj.
        eexists. apply f_equal2; [world_eq | reflexivity].
      * unfold ret. eexists. apply f_equal2; [world_eq | reflexivity].
  - rewrite bind_ret, bind_random. proj. cbn [Nat.add orb].
    destruct (0.95 <? _)%float.
    + rewrite bind_modify, bind_random.
      rewrite bind_draw. cbn [fromCanvas andb]. unfold zeroArea. proj.
      destruct ((width (canvas w) =? 0) || (height (canvas w) =? 0))%nat eqn:Hz.
      * eexists. apply f_equal2; [world_eq | reflexivity].
      * rewrite bind_draw. cbn [fromCanvas andb]. unfold zeroArea. proj.
        rewrite Hz. unfold modify. proj.
        eexists. apply f_equal2; [world_eq | reflexivity].
    + unfold ret. rewrite andb_false_r.
      destruct (zeroArea (canvas w)); eexists;
        (apply f_equal2; [world_eq | reflexivity]).
Qed.

Lemma applyShadowEffect_outcome (P : Platform) (w : World) :
  snd (applyShadowEffect P w) =
  if zeroArea (canvas w) && copiesCanvas P (randomCalls w)
  then Throw InvalidStateError else Normal tt.
Proof.
  destruct (applyShadowEffect_run P w) as [px ->]. reflexivity.
Qed.

(** *** The overlay *)

Lemma overlay_throws (P : Platform) (filterId : string) (w : World) :
  readsPixels filterId = true -> zeroArea (canvas w) = true ->
  applyOverlayFilter P filterId w = (w, Throw IndexSizeError).
Proof.
  intros Hr Hz. apply zeroArea_true in Hz.
  unfold readsPixels in Hr.
  apply orb_true_iff in Hr. destruct Hr as [Hr|Hr];
    [apply orb_true_iff in Hr; destruct Hr as [Hr|Hr]|];
    apply String.eqb_eq in Hr; subst filterId.
  - change (applyOverlayFilter P "persona") with (applyPersonaEffect P).
    unfold applyPersonaEffect.
    apply (bind_throw _ _ _ _ _ (getImageData_zero w Hz)).
  - change (applyOverlayFilter P "anima") with applyAnimaEffect.
    unfold applyAnimaEffect. rewrite bind_gets.
    apply (bind_throw _ _ _ _ _ (getImageData_zero w Hz)).
  - change (applyOverlayFilter P "trickster") with applyTricksterEffect.
    unfold applyTricksterEffect.
    apply (bind_throw _ _ _ _ _ (getImageData_zero w Hz)).
Qed.

Lemma overlay_outcome (P : Platform) (filterId : string) (w : World) :
  snd (applyOverlayFilter P filterId w) =
  completionOf (overlayError P filterId (canvas w) (randomCalls w)).
Proof.
  unfold overlayError.
  destruct (readsPixels filterId) eqn:Hr.
  { destruct (zeroArea (canvas w)) eqn:Hz.
    - rewrite (overlay_throws P filterId w Hr Hz). reflexivity.
    - apply zeroArea_false in Hz. destruct Hz as [Hw Hh].
      unfold readsPixels in Hr. unfold applyOverlayFilter.
      apply orb_true_iff in Hr. destruct Hr as [Hr|Hr];
        [apply orb_true_iff in Hr; destruct Hr as [Hr|Hr]|];
        apply String.eqb_eq in Hr; subst filterId; cbn [String.eqb Ascii.eqb
          Bool.eqb andb].
      + exact (proj1 (applyPersonaEffect_run P w Hw Hh)).
      + rewrite (applyAnimaEffect_run w Hw Hh). reflexivity.
      + rewrite (applyTricksterEffect_run w Hw Hh). reflexivity. }
  unfold readsPixels in Hr.
  apply orb_false_iff in Hr. destruct Hr as [Hr Ht].
  apply orb_false_iff in Hr. destruct Hr as [Hp Ha].
  unfold applyOverlayFilter. rewrite Ha, Hp, Ht.
  destruct (String.eqb filterId "shadow").
  - rewrite applyShadowEffect_outcome. cbn [andb].
    destruct (zeroArea (canvas w)); [|reflexivity].
    cbn [andb]. destruct (copiesCanvas P (randomCalls w)); reflexivity.
  - cbn [andb].
    replace (if zeroArea (canvas w) then None else None)
      with (@None JsError) by (destruct (zeroArea (canvas w)); reflexivity).
    destruct (String.eqb filterId "self"); [|reflexivity].
    apply completes_snd, completes_applySelfEffect.
Qed.

(** X8.  How the overlay ends.  On a canvas with pixels every overlay
    returns normally.  On a canvas of width or height zero, persona, anima
    and trickster throw an IndexSizeError when they read the pixels back,
    before anything has changed; the shadow effect throws an
    InvalidStateError when it copies the canvas onto itself, which it does
    when the slice glitch or the colour split runs, and returns normally
    otherwise; the self effect and an id that names no effect return
    normally. *)
Theorem applyOverlayFilter_outcome (P : Platform) (filterId : string)
    (w : World) :
  snd (applyOverlayFilter P filterId w) =
  completionOf (overlayError P filterId (canvas w) (randomCalls w)) /\
  (zeroArea (canvas w) = false ->
   snd (applyOverlayFilter P filterId w) = Normal tt) /\
  (zeroArea (canvas w) = true -> readsPixels filterId = true ->
   applyOverlayFilter P filterId w = (w, Throw IndexSizeError)) /\
  (zeroArea (canvas w) = true ->
   snd (applyOverlayFilter P "shadow" w) =
   if copiesCanvas P (randomCalls w) then Throw InvalidStateError
   else Normal tt) /\
  (In filterId catalogIds ->
   readsPixels filterId = false ->
   filterId = "self"%string \/ filterId = "shadow"%string).
Proof.
  split; [apply overlay_outcome|].
  split.
  { intros Hz. rewrite overlay_outcome. unfold overlayError. rewrite Hz.
    reflexivity. }
  split; [intros Hz Hr; apply overlay_throws; assumption|].
  split.
  { intros Hz. rewrite overlay_outcome. unfold overlayError. rewrite Hz.
    cbn. destruct (copiesCanvas P (randomCalls w)); reflexivity. }
  intros [<-|[<-|[<-|[<-|[<-|[]]]]]] Hr; auto; discriminate Hr.
Qed.

(** The frame pipeline fails when the overlay does. *)
Lemma compositeFrame_outcome (P : Platform) (w : World) (a : Archetype.t) :
  currentFilter w = Some a ->
  snd (compositeFrame P w) =
  completionOf (overlayError P (Archetype.id a) (canvas w) (randomCalls w)).
Proof.
  intros Hcf.
  unfold compositeFrame, applyDynamicFilter, draw, paint, modifyDrawState,
    modifyCanvas.
  rewrite bind_gets, bind_modify, bind_gets. proj. rewrite Hcf.
  rewrite (bind_normal (prop (Some a) Archetype.id) _ _ _ _ eq_refl).
  rewrite bind_modify, bind_gets, bind_modify, bind_gets. proj. rewrite Hcf.
  rewrite (bind_normal (prop (Some a) Archetype.id) _ _ _ _ eq_refl).
  rewrite overlay_outcome. reflexivity.
Qed.

Lemma compositeFrame_undefined (P : Platform) (w : World) :
  currentFilter w = None -> snd (compositeFrame P w) = Throw TypeError.
Proof.
  intros Hcf.
  unfold compositeFrame, draw, paint, modifyCanvas.
  rewrite bind_gets, bind_modify, bind_gets. proj. rewrite Hcf. reflexivity.
Qed.

Lemma renderLoop_ready (P : Platform) (w : World) :
  videoReady w = true ->
  renderLoop P w =
  (compositeFrame P ;; restore ;; schedule AnimationFrame)
    (set_canvas
       (set_drawState
          (set_transform
             (scaleMatrix (-1) 1
                (translateMatrix (Z.of_nat (width (canvas w))) 0
                   (transform (drawState (canvas w)))))
             (drawState (canvas w)))
          (set_stateStack (drawState (canvas w) :: stateStack (canvas w))
             (canvas w))) w).
Proof.
  intros Hready. unfold renderLoop.
  rewrite bind_gets, Hready. cbn [negb].
  unfold save, translate, scale, modifyDrawState, modifyCanvas.
  rewrite bind_modify, bind_gets. do 2 rewrite bind_modify.
  rewrite compositeFrame_bind, bind_gets.
  proj. reflexivity.
Qed.

Lemma compositeFrame_finishes (P : Platform) (w : World) :
  snd (compositeFrame P w) <> Unfinished.
Proof.
  destruct (currentFilter w) as [a|] eqn:Hcf.
  - rewrite (compositeFrame_outcome P w a Hcf).
    destruct (overlayError _ _ _ _); discriminate.
  - rewrite (compositeFrame_undefined P w Hcf). discriminate.
Qed.

(** The frame pipeline run on a world whose canvas is that of [w] with a
    drawing state pushed: what it leaves, and how what follows it runs. *)
Lemma compositeFrame_saved {B} (P : Platform) (w : World) (st0 : DrawState)
    (k : unit -> M B) :
  let W0 :=
    set_canvas
      (set_drawState st0
         (set_stateStack (drawState (canvas w) :: stateStack (canvas w))
            (canvas w))) w in
  (exists px st n,
     compositeFrame P W0 = (frameFailed px st n w, Normal tt) /\
     bind (compositeFrame P) k W0 = k tt (frameFailed px st n w)) \/
  (exists px st n e,
     compositeFrame P W0 = (frameFailed px st n w, Throw e) /\
     bind (compositeFrame P) k W0 = (frameFailed px st n w, Throw e)).
Proof.
  intros W0.
  destruct (compositeFrame_frame P W0) as (px & st & n & Hfr).
  pose proof (compositeFrame_finishes P W0) as Hfin.
  assert (HW : fst (compositeFrame P W0) = frameFailed px st n w).
  { rewrite Hfr. subst W0. unfold frameFailed. world_eq. }
  destruct (compositeFrame P W0) as [W1 [[]|e|]] eqn:Ecf;
    cbn [fst snd] in HW, Hfin; [| |contradiction]; subst W1.
  - left. exists px, st, n. split; [reflexivity|].
    apply (bind_normal _ _ _ _ _ Ecf).
  - right. exists px, st, n, e. split; [reflexivity|].
    apply (bind_throw _ _ _ _ _ Ecf).
Qed.

Lemma compositeFrame_saved_outcome (P : Platform) (w : World)
    (st0 : DrawState) (a : Archetype.t) :
  currentFilter w = Some a ->
  snd (compositeFrame P
         (set_canvas
            (set_drawState st0
               (set_stateStack (drawState (canvas w) :: stateStack (canvas w))
                  (canvas w))) w)) =
  completionOf (overlayError P (Archetype.id a) (canvas w) (randomCalls w)).
Proof.
  intros Hcf. rewrite (compositeFrame_outcome P _ a) by exact Hcf.
  reflexivity.
Qed.

(** X9.  One call of [renderLoop].  Before the video is ready it only asks
    for the next frame.  Once it is ready, a tick that completes changes the
    bitmap and the count of random values and nothing else (the drawing
    state and the save stack are back to what they were) and asks for the
    next frame; a tick whose frame throws asks for no next frame, so the
    render loop ends there, and leaves the saved drawing state on the
    stack.  With a filter selected the tick ends as the overlay of that
    filter does: normally on a canvas with pixels; on a canvas of width or
    height zero with an IndexSizeError for persona, anima and trickster, and
    with an InvalidStateError for the shadow effect when its slice glitch
    or its colour split runs. *)
Theorem renderLoop_tick (P : Platform) (w : World) :
  (videoReady w = false ->
   renderLoop P w =
   (set_scheduled (scheduled w ++ [AnimationFrame]) w, Normal tt)) /\
  (videoReady w = true ->
   (exists px n,
      renderLoop P w =
      (set_scheduled (scheduled w ++ [AnimationFrame]) (frameDone px n w),
       Normal tt)) \/
   (exists px st n e,
      renderLoop P w = (frameFailed px st n w, Throw e))) /\
  (videoReady w = true ->
   forall a,
     currentFilter w = Some a ->
     snd (renderLoop P w) =
     completionOf
       (overlayError P (Archetype.id a) (canvas w) (randomCalls w))) /\
  (videoReady w = true -> currentFilter w = None ->
   snd (renderLoop P w) = Throw TypeError).
Proof.
  split; [|split; [|split]].
  - intros Hready. unfold renderLoop. rewrite bind_gets, Hready. reflexivity.
  - intros Hready. rewrite (renderLoop_ready P w Hready).
    destruct (compositeFrame_saved P w
                (set_transform
                   (scaleMatrix (-1) 1
                      (translateMatrix (Z.of_nat (width (canvas w))) 0
                         (transform (drawState (canvas w)))))
                   (drawState (canvas w)))
                (fun _ => restore ;; schedule AnimationFrame))
      as [(px & st & n & _ & E)|(px & st & n & e & _ & E)].
    + left. exists px, n. etransitivity; [exact E|].
      unfold restore, schedule, modifyCanvas. rewrite bind_modify.
      unfold modify, frameDone, frameFailed.
      apply f_equal2; [world_eq | reflexivity].
    + right. exists px, st, n, e. exact E.
  - intros Hready a Hcf. rewrite (renderLoop_ready P w Hready).
    rewrite <- (compositeFrame_saved_outcome P w
                  (set_transform
                     (scaleMatrix (-1) 1
                        (translateMatrix (Z.of_nat (width (canvas w))) 0
                           (transform (drawState (canvas w)))))
                     (drawState (canvas w))) a Hcf).
    match goal with
    | |- snd (bind _ _ ?W0) = _ =>
        pose proof (compositeFrame_finishes P W0) as Hfin;
        destruct (compositeFrame P W0) as [W1 [[]|e|]] eqn:Ecf
    end.
    + rewrite (bind_normal _ _ _ _ _ Ecf). reflexivity.
    + rewrite (bind_throw _ _ _ _ _ Ecf). reflexivity.
    + contradiction.
  - intros Hready Hcf. rewrite (renderLoop_ready P w Hready).
    match goal with
    | |- snd (bind _ _ ?W0) = _ =>
        pose proof (compositeFrame_undefined P W0 Hcf) as Hc;
        destruct (compositeFrame P W0) as [W1 c] eqn:Ecf
    end.
    cbn [snd] in Hc. subst c.
    rewrite (bind_throw _ _ _ _ _ Ecf). reflexivity.
Qed.

(** X10.  [takeScreenshot] hands out a file exactly when it completes.
    With no filter selected it throws before anything has changed.
    Otherwise either the frame is drawn to the end, and then the one file
    [jungian_mirror_<id>.png] holds the very bitmap that is left on the
    canvas, nothing else but the count of random values having changed; or
    the frame throws, and then no file is handed out and the saved drawing
    state stays on the stack.  The call ends as the overlay of the current
    filter does: normally on a canvas with pixels; on a canvas of width or
    height zero with an IndexSizeError for persona, anima and trickster, and
    with an InvalidStateError for the shadow effect when its slice glitch
    or its colour split runs. *)
Theorem takeScreenshot_outcomes (P : Platform) (w : World) :
  (currentFilter w = None -> takeScreenshot P w = (w, Throw TypeError)) /\
  (forall a,
     currentFilter w = Some a ->
     ((exists px n,
         takeScreenshot P w =
         (set_output
            (output w ++
             [Download ("jungian_mirror_" ++ Archetype.id a ++ ".png")
                (DataURL (encodePNG P (width (canvas w)) (height (canvas w))
                            px))])
            (frameDone px n w),
          Normal tt)) \/
      (exists px st n e,
         takeScreenshot P w = (frameFailed px st n w, Throw e))) /\
     snd (takeScreenshot P w) =
     completionOf
       (overlayError P (Archetype.id a) (canvas w) (randomCalls w))).
Proof.
  split.
  - intros Hcf. unfold takeScreenshot. rewrite bind_gets, Hcf. reflexivity.
  - intros a Hcf. rewrite (takeScreenshot_pipeline P w a Hcf).
    unfold save, modifyCanvas. rewrite bind_modify.
    split.
    + match goal with
      | |- context [bind (compositeFrame P) ?k _] =>
          destruct (compositeFrame_saved P w (drawState (canvas w)) k)
            as [(px & st & n & _ & E)|(px & st & n & e & _ & E)]
      end.
      * left. exists px, n. etransitivity; [exact E|].
        rewrite bind_gets.
        unfold restore, emit, modifyCanvas. rewrite bind_modify.
        unfold modify, frameDone, frameFailed.
        apply f_equal2; [world_eq | reflexivity].
      * right. exists px, st, n, e. exact E.
    + rewrite <- (compositeFrame_saved_outcome P w (drawState (canvas w)) a
                    Hcf).
      match goal with
      | |- snd (bind _ _ ?W0) = snd (compositeFrame P ?W0') =>
          change W0' with W0
      end.
      match goal with
      | |- snd (bind _ _ ?W0) = _ =>
          pose proof (compositeFrame_finishes P W0) as Hfin;
          destruct (compositeFrame P W0) as [W1 [[]|e|]] eqn:Ecf
      end.
      * rewrite (bind_normal _ _ _ _ _ Ecf). reflexivity.
      * rewrite (bind_throw _ _ _ _ _ Ecf). reflexivity.
      * contradiction.
Qed.


(** X11.  The shadow effect on a canvas with pixels always returns.  It uses
    two random values for its two tests, six more when the slice glitch runs
    (both slices or none), and one more when the colour split runs; the
    second test reads the value that comes after those of the glitch.  The
    blending mode is back to source-over when the split ran and is
    untouched otherwise.  On a canvas of width or height zero the effect
    throws an InvalidStateError at the first copy of the canvas onto
    itself: after four random values when the glitch runs, else after three
    when the split runs, the blending mode then being left at lighter; it
    returns normally after two random values when neither runs.  In every
    case the fill style is left set to the vignette, transform, filter and
    save stack are as before, and only the bitmap changes besides. *)
Theorem applyShadowEffect_randoms (P : Platform) (w : World) :
  let w' := fst (applyShadowEffect P w) in
  let n := randomCalls w in
  let st := drawState (canvas w) in
  let st' := drawState (canvas w') in
  fillStyle st' = shadowGradient (width (canvas w)) (height (canvas w)) /\
  transform st' = transform st /\ filter st' = filter st /\
  redrawn w w' /\
  (zeroArea (canvas w) = false ->
   snd (applyShadowEffect P w) = Normal tt /\
   randomCalls w' = afterShadow P n /\
   n + 2 <= randomCalls w' <= n + 9 /\
   globalCompositeOperation st' =
   (if splits P n then "source-over"%string
    else globalCompositeOperation st)) /\
  (zeroArea (canvas w) = true ->
   snd (applyShadowEffect P w) =
   (if copiesCanvas P n then Throw InvalidStateError else Normal tt) /\
   randomCalls w' =
   (if glitches P n then 4 + n else if splits P n then 3 + n else 2 + n) /\
   globalCompositeOperation st' =
   (if glitches P n then globalCompositeOperation st
    else if splits P n then "lighter"%string
         else globalCompositeOperation st)).
Proof.
  cbv zeta.
  assert (Hred : redrawn w (fst (applyShadowEffect P w))).
  { exact (proj1 (redrawn_applyOverlayFilter P w "shadow" w (redrawn_refl w))). }
  destruct (applyShadowEffect_run P w) as [px Hrun]. cbv zeta in Hrun.
  rewrite Hrun in *. proj.
  split; [reflexivity|]. split; [reflexivity|]. split; [reflexivity|].
  split; [exact Hred|].
  split; intros Hz; rewrite Hz; cbn [andb].
  - split; [reflexivity|]. split; [reflexivity|].
    split; [|reflexivity].
    unfold afterShadow, afterGlitch.
    destruct (splits P _), (glitches P _); lia.
  - split; [reflexivity|]. split; reflexivity.
Qed.

(** On an empty canvas, with a first random value above 0.85: the first
    slice of the glitch throws, after the test and the three values of the
    slice. *)
Lemma applyShadowEffect_zero_example :
  snd (applyShadowEffect spinPlatform (worldWith 0 0 []))
  = Throw InvalidStateError /\
  randomCalls (fst (applyShadowEffect spinPlatform (worldWith 0 0 []))) = 4 /\
  snd (applyShadowEffect examplePlatform (worldWith 0 0 [])) = Normal tt.
Proof. vm_compute. repeat split. Qed.

(** ** The anima effect: palette and narrow canvases *)

Lemma fold_left_id {A B} (l : list B) (a : A) :
  fold_left (fun acc _ => acc) l a = a.
Proof. induction l as [|b l IH]; [reflexivity | exact IH]. Qed.

Lemma edgeDetect_narrow (gray : list Z) (w h : nat) (out : list Z) :
  w <= 2 \/ h <= 2 -> edgeDetect gray w h out = out.
Proof.
  intros [Hw|Hh]; unfold edgeDetect.
  - replace (w - 2) with 0 by lia. cbn [seq fold_left].
    apply fold_left_id.
  - replace (h - 2) with 0 by lia. reflexivity.
Qed.

Lemma cell_of_index (W H k : nat) :
  W <> 0 -> k < W * H ->
  k = k / W * W + k mod W /\ k mod W < W /\ k / W < H.
Proof.
  intros HW Hk.
  pose proof (Nat.div_mod_eq k W) as E.
  pose proof (Nat.mod_upper_bound k W HW) as Hm.
  split; [lia|]. split; [exact Hm|].
  apply Nat.Div0.div_lt_upper_bound. lia.
Qed.

(** X12.  On a canvas with pixels the anima effect leaves a bitmap of the
    same size in which every pixel is one of three colours: transparent
    black, opaque dark grey (20,20,20) or opaque white.  On a canvas that is
    at most two pixels wide or at most two pixels high there is no interior
    pixel, and the effect erases the whole picture to transparent black. *)
Theorem anima_palette (w : World) (W H : nat) :
  width (canvas w) = W -> height (canvas w) = H ->
  W <> 0 -> H <> 0 ->
  let out := bitmap (canvas (fst (applyAnimaEffect w))) in
  length out = 4 * (W * H) /\
  (forall k, k < W * H ->
     pixelAt out k = [0; 0; 0; 0]%Z \/
     pixelAt out k = [20; 20; 20; 255]%Z \/
     pixelAt out k = [255; 255; 255; 255]%Z) /\
  (W <= 2 \/ H <= 2 -> out = replicate (4 * (W * H)) 0%Z).
Proof.
  intros HW HH HW0 HH0 out.
  assert (Hout : out = edgeDetect (grayscale W H (bitmap (canvas w))) W H
                         (replicate (4 * (W * H)) 0%Z))
    by (apply anima_out; assumption).
  split; [|split].
  - rewrite Hout, edgeDetect_length. apply length_replicate.
  - intros k Hk.
    destruct (cell_of_index W H k HW0 Hk) as (Ek & Hx & Hy).
    set (x := k mod W) in *. set (y := k / W) in *. rewrite Ek.
    destruct (decide (1 <= x < W - 1 /\ 1 <= y < H - 1)) as [[Hxi Hyi]|Hb].
    + subst out.
      rewrite (anima_inner_pixel w W H HW HH HW0 HH0 x y Hxi Hyi).
      unfold edgePixel. destruct (isEdge _ _ _); auto.
    + left. subst out.
      apply (anima_outer_pixel w W H HW HH HW0 HH0 x y Hx Hy). lia.
  - intros Hnarrow. rewrite Hout. apply edgeDetect_narrow. exact Hnarrow.
Qed.

Lemma anima_palette_witness :
  width (canvas (worldWith 2 3 (white ++ black ++ white ++ white ++ black
                                ++ white))) = 2 /\
  bitmap (canvas (fst (applyAnimaEffect
                         (worldWith 2 3 (white ++ black ++ white ++ white
                                         ++ black ++ white)))))
  = replicate 24 0%Z.
Proof.
  split; [reflexivity|].
  exact (proj2 (proj2
           (anima_palette (worldWith 2 3 _) 2 3 eq_refl eq_refl
              ltac:(discriminate) ltac:(discriminate)))
           (or_introl (le_n 2))).
Defined.

(** ** Start of the script *)

Lemma finishes_ret {A} (a : A) : finishes (ret a).
Proof. intros w. discriminate. Qed.

Lemma finishes_throw {A} (e : JsError) : finishes (@throw A e).
Proof. intros w. discriminate. Qed.

Lemma finishes_gets {A} (f : World -> A) : finishes (gets f).
Proof. intros w. discriminate. Qed.

Lemma finishes_modify (f : World -> World) : finishes (modify f).
Proof. intros w. discriminate. Qed.

Lemma finishes_prop {A B} (o : option A) (f : A -> B) : finishes (prop o f).
Proof. destruct o; intros w; discriminate. Qed.

Lemma finishes_bind {A B} (m : M A) (k : A -> M B) :
  finishes m -> (forall a, finishes (k a)) -> finishes (bind m k).
Proof.
  intros Hm Hk w. unfold bind. pose proof (Hm w) as H.
  destruct (m w) as [w' [a|e|]]; cbn [snd] in *.
  - apply Hk.
  - discriminate.
  - contradiction.
Qed.

Lemma finishes_draw (P : Platform) (call : DrawCall) : finishes (draw P call).
Proof.
  intros w. rewrite draw_run. destruct (_ && _); discriminate.
Qed.

Lemma finishes_applyOverlayFilter (P : Platform) (filterId : string) :
  finishes (applyOverlayFilter P filterId).
Proof.
  intros w. rewrite overlay_outcome.
  destruct (overlayError _ _ _ _); discriminate.
Qed.

Ltac finishes_steps :=
  repeat first
    [ apply finishes_bind; [|intros ?]
    | apply finishes_ret
    | apply finishes_throw
    | apply finishes_gets
    | apply finishes_prop
    | apply finishes_modify
    | apply finishes_draw
    | apply finishes_applyOverlayFilter
    | match goal with
      | |- finishes (if ?b then _ else _) => destruct b
      | |- finishes (match ?x with _ => _ end) => destruct x
      end ].

Lemma finishes_applyFilter (filterId : string) :
  finishes (applyFilter filterId).
Proof. unfold applyFilter, modifyCanvas. finishes_steps. Qed.

Lemma finishes_renderLoop (P : Platform) : finishes (renderLoop P).
Proof.
  unfold renderLoop, save, restore, translate, scale, schedule,
    applyDynamicFilter, modifyDrawState, modifyCanvas.
  finishes_steps.
Qed.

Lemma finishes_startCamera (P : Platform) : finishes (startCamera P).
Proof.
  unfold startCamera, onloadedmetadata, emit, modifyCanvas.
  finishes_steps.
Qed.

(** A [try] whose [catch] only reports the error always returns. *)
Lemma tryCatch_reports (m : M unit) (report : JsError -> Output) (w : World) :
  finishes m ->
  snd (tryCatch m (fun err => emit (report err)) w) = Normal tt.
Proof.
  intros Hm. unfold tryCatch. pose proof (Hm w) as H.
  destruct (m w) as [w' [[]|e|]]; cbn [snd] in *;
    [reflexivity | reflexivity | contradiction].
Qed.

Lemma tryCatch_normal {A} (m : M A) (handler : JsError -> M A)
    (w w' : World) (a : A) :
  m w = (w', Normal a) -> tryCatch m handler w = (w', Normal a).
Proof. intros E. unfold tryCatch. rewrite E. reflexivity. Qed.

Lemma tryCatch_throw {A} (m : M A) (handler : JsError -> M A)
    (w w' : World) (e : JsError) :
  m w = (w', Throw e) -> tryCatch m handler w = handler e w'.
Proof. intros E. unfold tryCatch. rewrite E. reflexivity. Qed.

(** [startCamera], outcome by outcome. *)
Lemma startCamera_run (P : Platform) (w : World) :
  startCamera P w =
  match camera P with
  | GetUserMediaRejected name message =>
      (set_output
         (output w ++
          [ConsoleErrorOf "Camera access denied or failed:"
             (DOMException name message);
           Alert (if String.eqb name "NotAllowedError"
                  then "Camera permission was denied. Please allow camera access in your browser settings and refresh."
                  else "Could not access webcam. Is it being used by another app? Error: "
                       ++ message)]) w,
       Throw (DOMException name message))
  | VideoError =>
      (set_output
         (output w ++
          [ConsoleErrorOf "Video element error:" ErrorEvent;
           Alert "Video element error. Cannot play stream."]) w,
       Throw ErrorEvent)
  | PlayRejected name message =>
      (set_output
         (output w ++
          [ConsoleErrorOf "Video play failed:" (DOMException name message);
           Alert "Video playback failed. Please check console."])
         (fst (onloadedmetadata w)),
       Throw (DOMException name message))
  | Playing =>
      (set_output
         (output w ++ [ConsoleLog "Video playback started successfully."])
         (fst (onloadedmetadata w)),
       Normal tt)
  end.
Proof.
  unfold startCamera, emit.
  destruct (camera P) as [name message| |name message|].
  - rewrite bind_modify.
    destruct (String.eqb name "NotAllowedError");
      rewrite bind_modify; unfold throw;
      (apply f_equal2; [world_eq; rewrite <- app_assoc; reflexivity
                       | reflexivity]).
  - do 2 rewrite bind_modify. unfold throw.
    apply f_equal2; [world_eq; rewrite <- app_assoc; reflexivity
                    | reflexivity].
  - rewrite (bind_normal onloadedmetadata _ w (fst (onloadedmetadata w)) tt
               eq_refl).
    do 2 rewrite bind_modify. unfold throw.
    apply f_equal2; [world_eq; rewrite <- app_assoc; reflexivity
                    | reflexivity].
  - rewrite (bind_normal onloadedmetadata _ w (fst (onloadedmetadata w)) tt
               eq_refl).
    reflexivity.
Qed.

(** A tick that can draw its frame. *)
Lemma renderLoop_done (P : Platform) (w : World) (a : Archetype.t) :
  videoReady w = true -> currentFilter w = Some a ->
  overlayError P (Archetype.id a) (canvas w) (randomCalls w) = None ->
  exists px n,
    renderLoop P w =
    (set_scheduled (scheduled w ++ [AnimationFrame]) (frameDone px n w),
     Normal tt).
Proof.
  intros Hready Hcf Hok. rewrite (renderLoop_ready P w Hready).
  pose proof (compositeFrame_saved_outcome P w
                (set_transform
                   (scaleMatrix (-1) 1
                      (translateMatrix (Z.of_nat (width (canvas w))) 0
                         (transform (drawState (canvas w)))))
                   (drawState (canvas w))) a Hcf) as Hc.
  rewrite Hok in Hc.
  destruct (compositeFrame_saved P w
              (set_transform
                 (scaleMatrix (-1) 1
                    (translateMatrix (Z.of_nat (width (canvas w))) 0
                       (transform (drawState (canvas w)))))
                 (drawState (canvas w)))
              (fun _ => restore ;; schedule AnimationFrame))
    as [(px & st & n & _ & E)|(px & st & n & e & E1 & _)].
  - exists px, n. etransitivity; [exact E|].
    unfold restore, schedule, modifyCanvas. rewrite bind_modify.
    unfold modify, frameDone, frameFailed.
    apply f_equal2; [world_eq | reflexivity].
  - cbv zeta in E1. rewrite E1 in Hc. discriminate Hc.
Qed.

(** What [init] does after a camera that plays, on a page whose current
    filter is the first catalog entry. *)
Lemma init_playing (P : Platform) (w : World) (a : Archetype.t) :
  camera P = Playing -> currentFilter w = Some a ->
  archetypes !! 0 = Some a ->
  exists px n,
    init P w =
    (set_scheduled (scheduled w ++ [AnimationFrame])
       (frameDone px n
          (fst (applyFilter (Archetype.id a)
                  (set_listeners
                     (listeners w ++ [RandomBtn; ScreenshotBtn; RecordBtn])
                     (fst (initFilterButtons
                             (set_output
                                (output w ++
                                 [ConsoleLog
                                    "Video playback started successfully."])
                                (fst (onloadedmetadata w))))))))),
     Normal tt).
Proof.
  intros Hcam Hcf Ha.
  assert (Hin : In a archetypes /\ Archetype.id a = "self"%string).
  { cbn in Ha. injection Ha as <-. split; [left|]; reflexivity. }
  destruct Hin as [Hin Hself].
  pose proof (startCamera_run P w) as Hs. rewrite Hcam in Hs.
  unfold init, initEventListeners.
  match goal with
  | |- exists px n, tryCatch ?m ?h w = _ =>
      cut (exists px n, m w =
             (set_scheduled (scheduled w ++ [AnimationFrame])
                (frameDone px n
                   (fst (applyFilter (Archetype.id a)
                     (set_listeners
                        (listeners w ++ [RandomBtn; ScreenshotBtn; RecordBtn])
                        (fst (initFilterButtons
                                (set_output
                                   (output w ++
                                    [ConsoleLog
                                       "Video playback started successfully."])
                                   (fst (onloadedmetadata w))))))))),
              Normal tt));
        [intros (px & n & E); exists px, n; apply tryCatch_normal, E|]
  end.
  rewrite (bind_normal _ _ _ _ _ Hs).
  unfold initFilterButtons at 1. do 2 rewrite bind_modify.
  rewrite bind_gets.
  replace (currentFilter _) with (Some a) by (symmetry; exact Hcf).
  rewrite (bind_normal (prop (Some a) Archetype.id) _ _ _ _ eq_refl).
  rewrite (bind_normal _ _ _ _ _ (applyFilter_catalog_run a _ Hin)).
  match goal with
  | |- context [renderLoop P ?W] =>
      destruct (renderLoop_done P W a eq_refl eq_refl) as (px & n & ->)
  end.
  { unfold overlayError. rewrite Hself. cbn.
    destruct (zeroArea _); reflexivity. }
  exists px, n. rewrite (applyFilter_catalog_run a _ Hin).
  reflexivity.
Qed.

(** What [init] does after a camera that fails with [e], [startCamera]
    having left the world [W]. *)
Lemma init_failed (P : Platform) (w W : World) (e : JsError) :
  startCamera P w = (W, Throw e) ->
  init P w =
  (set_output (output W ++ [ConsoleErrorOf "Error initializing app:" e]) W,
   Normal tt).
Proof.
  intros Hs. unfold init.
  erewrite tryCatch_throw; [reflexivity|].
  apply (bind_throw _ _ _ _ _ Hs).
Qed.

Lemma finishes_init_body (P : Platform) :
  finishes
    (startCamera P ;;
     initFilterButtons ;;
     initEventListeners ;;
     cf <- gets currentFilter ;;
     fid <- prop cf Archetype.id ;;
     applyFilter fid ;;
     renderLoop P).
Proof.
  apply finishes_bind; [apply finishes_startCamera|]. intros _.
  apply finishes_bind; [apply finishes_modify|]. intros _.
  apply finishes_bind; [apply finishes_modify|]. intros _.
  apply finishes_bind; [apply finishes_gets|]. intros cf.
  apply finishes_bind; [apply finishes_prop|]. intros fid.
  apply finishes_bind; [apply finishes_applyFilter|]. intros _.
  apply finishes_renderLoop.
Qed.

(** X13.  [init] always returns: what is thrown inside it is caught and
    reported with console.error.  When the camera plays and the current
    filter is the first catalog entry (as the script declares it), the
    canvas has the size of the video, the page shows The Self, the filter
    list holds one button for each catalog entry after the buttons it had,
    in catalog order, the three control buttons have their listeners, one
    animation frame has been requested, the drawing state is the default
    one with an empty save stack, and the one message logged is that
    playback started.  When [getUserMedia] fails or the video element
    fires an error, the failure is reported (console.error, alert, then the
    console.error of [init]) and nothing else changes: no buttons, no
    listeners, no frame requested.  When [video.play()] rejects it is the
    same, except that [onloadedmetadata] has already sized the canvas and
    set [videoReady]. *)
Theorem init_outcomes (P : Platform) (w : World) :
  let w' := fst (init P w) in
  snd (init P w) = Normal tt /\
  (camera P = Playing -> currentFilter w = archetypes !! 0 ->
   (exists a, archetypes !! 0 = Some a /\ shows a w') /\
   videoReady w' = true /\
   width (canvas w') = videoWidth (video w) /\
   height (canvas w') = videoHeight (video w) /\
   map label (filterButtons w')
   = map label (filterButtons w) ++ map buttonLabel archetypes /\
   listeners w' = listeners w ++ [RandomBtn; ScreenshotBtn; RecordBtn] /\
   scheduled w' = scheduled w ++ [AnimationFrame] /\
   drawState (canvas w') = defaultDrawState /\
   stateStack (canvas w') = [] /\
   output w'
   = output w ++ [ConsoleLog "Video playback started successfully."] /\
   recordingFrame w w') /\
  (forall name message,
     camera P = GetUserMediaRejected name message ->
     w' =
     set_output
       (output w ++
        [ConsoleErrorOf "Camera access denied or failed:"
           (DOMException name message);
         Alert (if String.eqb name "NotAllowedError"
                then "Camera permission was denied. Please allow camera access in your browser settings and refresh."
                else "Could not access webcam. Is it being used by another app? Error: "
                     ++ message);
         ConsoleErrorOf "Error initializing app:" (DOMException name message)])
       w) /\
  (camera P = VideoError ->
   w' =
   set_output
     (output w ++
      [ConsoleErrorOf "Video element error:" ErrorEvent;
       Alert "Video element error. Cannot play stream.";
       ConsoleErrorOf "Error initializing app:" ErrorEvent])
     w) /\
  (forall name message,
     camera P = PlayRejected name message ->
     w' =
     set_output
       (output w ++
        [ConsoleErrorOf "Video play failed:" (DOMException name message);
         Alert "Video playback failed. Please check console.";
         ConsoleErrorOf "Error initializing app:" (DOMException name message)])
       (fst (onloadedmetadata w)) /\
     videoReady w' = true /\
     width (canvas w') = videoWidth (video w) /\
     height (canvas w') = videoHeight (video w) /\
     filterButtons w' = filterButtons w /\
     listeners w' = listeners w /\
     scheduled w' = scheduled w).
Proof.
  cbv zeta.
  split; [apply tryCatch_reports, finishes_init_body|].
  pose proof (startCamera_run P w) as Hs.
  split; [|split; [|split]].
  - intros Hcam Hcf.
    assert (Ha : exists a, archetypes !! 0 = Some a)
      by (eexists; reflexivity).
    destruct Ha as [a Ha]. rewrite Ha in Hcf.
    assert (Hin : In a archetypes).
    { cbn in Ha. injection Ha as <-. left. reflexivity. }
    destruct (init_playing P w a Hcam Hcf Ha) as (px & n & ->).
    rewrite (applyFilter_catalog_run a _ Hin).
    unfold frameDone, initFilterButtons, onloadedmetadata, modifyCanvas.
    rewrite bind_gets, bind_modify. unfold modify. proj.
    split.
    { exists a. split; [exact Ha|]. unfold shows. proj.
      split; [reflexivity|]. split; [reflexivity|]. split; [reflexivity|].
      apply toggleActive_shows. }
    split; [reflexivity|]. split; [reflexivity|]. split; [reflexivity|].
    split.
    { rewrite map_map, map_app, map_map. reflexivity. }
    split; [reflexivity|]. split; [reflexivity|]. split; [reflexivity|].
    split; [reflexivity|]. split; [reflexivity|].
    unfold recordingFrame. proj.
    do 5 (split; [reflexivity|]). reflexivity.
  - intros name message Hcam. rewrite Hcam in Hs.
    rewrite (init_failed P w _ _ Hs). proj.
    world_eq. rewrite <- app_assoc. reflexivity.
  - intros Hcam. rewrite Hcam in Hs.
    rewrite (init_failed P w _ _ Hs). proj.
    world_eq. rewrite <- app_assoc. reflexivity.
  - intros name message Hcam. rewrite Hcam in Hs.
    rewrite (init_failed P w _ _ Hs). proj.
    split; [world_eq; rewrite <- app_assoc; reflexivity|].
    unfold onloadedmetadata, modifyCanvas.
    rewrite bind_gets, bind_modify. unfold modify. proj.
    do 5 (split; [reflexivity|]). reflexivity.
Qed.

Lemma init_outcomes_witness :
  camera examplePlatform = Playing /\
  currentFilter (initialWorld twoPixels 0) = archetypes !! 0 /\
  snd (init examplePlatform (initialWorld twoPixels 0)) = Normal tt /\
  width (canvas (fst (init examplePlatform (initialWorld twoPixels 0)))) = 2 /\
  map active
    (filterButtons (fst (init examplePlatform (initialWorld twoPixels 0))))
  = [true; false; false; false; false] /\
  output
    (fst (init (withCamera (PlayRejected "NotAllowedError" "denied")
                  examplePlatform)
            (initialWorld twoPixels 0)))
  = [ConsoleErrorOf "Video play failed:"
       (DOMException "NotAllowedError" "denied");
     Alert "Video playback failed. Please check console.";
     ConsoleErrorOf "Error initializing app:"
       (DOMException "NotAllowedError" "denied")].
Proof.
  split; [reflexivity|]. split; [reflexivity|].
  destruct (init_outcomes examplePlatform (initialWorld twoPixels 0))
    as (Hn & Hplay & _).
  destruct (Hplay eq_refl eq_refl) as (_ & _ & Hw & _).
  split; [exact Hn|]. split; [exact Hw|].
  split; [vm_compute; reflexivity|].
  destruct (init_outcomes
              (withCamera (PlayRejected "NotAllowedError" "denied")
                 examplePlatform)
              (initialWorld twoPixels 0))
    as (_ & _ & _ & _ & Hrej).
  destruct (Hrej _ _ eq_refl) as (-> & _).
  reflexivity.
Defined.
(** ** The canvas stays well formed *)

Section CanvasKept.

Variable P : Platform.
Hypothesis raster_ok : RasterOK P.
Variables W H : nat.

Local Abbreviation Inv := (canvasInv W H).

Ltac same :=
  intros ? HInv; cbv beta; try (destruct (stateStack _)); exact HInv.

Ltac canvas_steps :=
  repeat first
    [ apply keeps_bind_any; [|intros ?]
    | apply (keeps_draw P raster_ok W H)
    | apply (keeps_applyOverlayFilter P raster_ok W H)
    | apply keeps_ret_any
    | apply keeps_throw
    | apply keeps_gets_any
    | apply keeps_prop_any
    | apply keeps_modify_any; same
    | match goal with
      | |- keeps _ (if ?b then _ else _) _ => destruct b
      | |- keeps _ (match ?x with _ => _ end) _ => destruct x
      end ].

Lemma canvas_renderLoop : keeps Inv (renderLoop P) anyValue.
Proof.
  unfold renderLoop, save, restore, translate, scale, schedule,
    applyDynamicFilter, modifyDrawState, modifyCanvas.
  canvas_steps.
Qed.

Lemma canvas_takeScreenshot : keeps Inv (takeScreenshot P) anyValue.
Proof.
  unfold takeScreenshot, save, restore, emit, applyDynamicFilter,
    modifyDrawState, modifyCanvas.
  canvas_steps.
Qed.

Lemma canvas_applyFilter (filterId : string) :
  keeps Inv (applyFilter filterId) anyValue.
Proof. apply kept_applyFilter; intros; assumption. Qed.

Lemma canvas_spinTick (fuel h : nat) : keeps Inv (spinTick P fuel h) anyValue.
Proof. apply kept_spinTick; intros; assumption. Qed.

Lemma canvas_spin (fuel : nat) : keeps Inv (spin P fuel) anyValue.
Proof.
  unfold spin, randomFilterSlotMachine.
  apply keeps_bind_any; [canvas_steps|]. intros h.
  apply kept_spinTicks; intros; assumption.
Qed.

Lemma canvas_stopRecording : keeps Inv stopRecording anyValue.
Proof. unfold stopRecording, schedule. canvas_steps. Qed.

Lemma canvas_startRecording : keeps Inv (startRecording P) anyValue.
Proof.
  unfold startRecording, emit, schedule.
  apply keeps_bind_any; [apply keeps_gets_any|]. intros busy.
  destruct busy; [apply keeps_ret_any|].
  do 7 (apply keeps_bind_any; [apply keeps_modify_any; same|]; intros _).
  destruct (find _ _).
  - canvas_steps.
  - do 2 (apply keeps_bind_any; [apply keeps_modify_any; same|]; intros _).
    apply canvas_stopRecording.
Qed.

Lemma canvas_ondataavailable (b : Blob) :
  keeps Inv (ondataavailable b) anyValue.
Proof. unfold ondataavailable. canvas_steps. Qed.

Lemma canvas_handleRecordingStop : keeps Inv handleRecordingStop anyValue.
Proof. unfold handleRecordingStop, emit. canvas_steps. Qed.

End CanvasKept.

Lemma canvas_onloadedmetadata (w : World) :
  canvasInv (videoWidth (video w)) (videoHeight (video w))
            (fst (onloadedmetadata w)).
Proof.
  unfold onloadedmetadata, modifyCanvas.
  rewrite bind_gets, bind_modify. unfold modify.
  unfold canvasInv, wfCanvas. proj.
  split; [reflexivity|]. split; [reflexivity|].
  split; [apply length_replicate|].
  apply Forall_replicate. unfold byte. lia.
Qed.

Lemma tryCatch_bind_normal {A B} (m : M A) (k : A -> M B)
    (handler : JsError -> M B) (w w' : World) (a : A) :
  m w = (w', Normal a) ->
  tryCatch (bind m k) handler w = tryCatch (k a) handler w'.
Proof. intros E. unfold tryCatch. rewrite (bind_normal _ _ _ _ _ E). reflexivity. Qed.

Lemma canvas_init (P : Platform) (w : World) :
  RasterOK P -> loadsMetadata (camera P) = true ->
  canvasInv (videoWidth (video w)) (videoHeight (video w)) (fst (init P w)).
Proof.
  intros Hok Hcam.
  pose proof (startCamera_run P w) as Hs.
  pose proof (canvas_onloadedmetadata w) as H0.
  destruct (camera P) as [name message| |name message|];
    try discriminate Hcam.
  - rewrite (init_failed P w _ _ Hs). exact H0.
  - unfold init. rewrite (tryCatch_bind_normal _ _ _ _ _ _ Hs).
    match goal with
    | |- canvasInv ?W ?H (fst (tryCatch ?m ?h ?w1)) =>
        assert (Hk : keeps (canvasInv W H) (tryCatch m h) anyValue)
    end.
    { unfold initFilterButtons, initEventListeners, emit.
      apply keeps_tryCatch;
        [|intros e; apply keeps_modify_any; intros ? HInv; exact HInv].
      apply keeps_bind_any;
        [apply keeps_modify_any; intros ? HInv; exact HInv|]. intros _.
      apply keeps_bind_any;
        [apply keeps_modify_any; intros ? HInv; exact HInv|]. intros _.
      apply keeps_bind_any; [apply keeps_gets_any|]. intros cf.
      apply keeps_bind_any; [apply keeps_prop_any|]. intros fid.
      apply keeps_bind_any; [apply canvas_applyFilter|]. intros _.
      apply canvas_renderLoop. exact Hok. }
    apply Hk. exact H0.
Qed.

(** When the camera fails before the metadata is loaded, [init] only
    reports. *)
Lemma canvas_init_unloaded (P : Platform) (W H : nat) (w : World) :
  loadsMetadata (camera P) = false ->
  canvasInv W H w -> canvasInv W H (fst (init P w)).
Proof.
  intros Hcam Hw.
  pose proof (startCamera_run P w) as Hs.
  destruct (camera P) as [name message| |name message|];
    try discriminate Hcam;
    rewrite (init_failed P w _ _ Hs); exact Hw.
Qed.

(** X14.  On a platform whose drawing calls keep the bitmap's size and
    store bytes, every function the script attaches to an event or a timer
    keeps the canvas well formed, however it ends: the width and the height
    stay what they were and the bitmap holds four bytes for each pixel.
    [init] makes the canvas well formed, with the size of the video,
    whatever it was before, when the camera gets as far as loading its
    metadata, and leaves the canvas as it was when it does not. *)
Theorem canvas_stays_wellformed (P : Platform) (w : World) :
  RasterOK P ->
  (loadsMetadata (camera P) = true ->
   canvasInv (videoWidth (video w)) (videoHeight (video w))
             (fst (init P w))) /\
  (wfCanvas (canvas w) ->
   let kept (w' : World) :=
     canvasInv (width (canvas w)) (height (canvas w)) w' in
   kept (fst (renderLoop P w)) /\
   kept (fst (takeScreenshot P w)) /\
   (forall filterId, kept (fst (applyFilter filterId w))) /\
   (forall fuel, kept (fst (spin P fuel w))) /\
   (forall fuel h, kept (fst (spinTick P fuel h w))) /\
   kept (fst (startRecording P w)) /\
   kept (fst (stopRecording w)) /\
   (forall b, kept (fst (ondataavailable b w))) /\
   kept (fst (handleRecordingStop w)) /\
   (loadsMetadata (camera P) = false -> kept (fst (init P w)))).
Proof.
  intros Hok. split; [apply canvas_init; exact Hok|].
  intros Hwf kept.
  assert (H0 : kept w) by (repeat split; apply Hwf).
  assert (Hrun : forall {A} (m : M A),
             keeps (canvasInv (width (canvas w)) (height (canvas w))) m
                   anyValue ->
             kept (fst (m w))).
  { intros A m Hm. exact (proj1 (Hm w H0)). }
  split; [apply Hrun, canvas_renderLoop, Hok|].
  split; [apply Hrun, canvas_takeScreenshot, Hok|].
  split; [intros filterId; apply Hrun, canvas_applyFilter|].
  split; [intros fuel; apply Hrun, canvas_spin|].
  split; [intros fuel h; apply Hrun, canvas_spinTick|].
  split; [apply Hrun, canvas_startRecording|].
  split; [apply Hrun, canvas_stopRecording|].
  split; [intros b; apply Hrun, canvas_ondataavailable|].
  split; [apply Hrun, canvas_handleRecordingStop|].
  intros Hcam. apply canvas_init_unloaded; assumption.
Qed.

Lemma canvas_stays_wellformed_witness :
  RasterOK examplePlatform /\
  wfCanvas (canvas liveWorld) /\
  length (bitmap (canvas (fst (takeScreenshot examplePlatform liveWorld))))
  = 4 * (2 * 1).
Proof.
  assert (Hok : RasterOK examplePlatform) by apply testPlatform_ok.
  assert (Hwf : wfCanvas (canvas liveWorld)).
  { split; [vm_compute; reflexivity|].
    vm_compute. repeat constructor; discriminate. }
  split; [exact Hok|]. split; [exact Hwf|].
  destruct (canvas_stays_wellformed examplePlatform liveWorld Hok)
    as [_ Hkept].
  destruct (Hkept Hwf) as (_ & (_ & _ & Hlen & _) & _).
  rewrite Hlen. vm_compute. reflexivity.
Defined.
(** ** A recording started before the stop event of the last one *)

(** X15.  [stopRecording] clears [isRecording] at once, but the recorder
    delivers its last data and its stop event in a later task.  A click on
    the record button in between is accepted: it empties [recordedChunks]
    and replaces the recorder.  The stop task of the first recording then
    hands out a file that holds its last blob only (the blobs [bs] received
    before are in no file), and that blob stays at the head of the chunks
    of the recording that is now going on. *)
Theorem restart_before_stop_event (P : Platform) (w : World)
    (a : Archetype.t) (t : string) (bs : list Blob) (lastData : Blob) :
  isRecording w = false ->
  currentFilter w = Some a ->
  find (isTypeSupported P) mimeTypes = Some t ->
  let session :=
    startRecording P ;; deliverData bs ;; stopRecording ;;
    startRecording P ;; recorderStopTask lastData in
  let w' := fst (session w) in
  snd (session w) = Normal tt /\
  isRecording w' = true /\
  mediaRecorder w' = Some (mkMediaRecorder t recording) /\
  recordedChunks w' = List.filter nonEmpty [lastData] /\
  output w' =
  output w ++
  [ConsoleLog ("Using MIME type: " ++ t);
   ConsoleLog ("Using MIME type: " ++ t);
   Download ("jungian_mirror_" ++ Archetype.id a ++ "_"
             ++ toString (clock w) ++ "." ++ fileExtensionOf t)
            (BlobOf t (List.filter nonEmpty [lastData]))] /\
  scheduled w' =
  scheduled w ++ [StopTimer 5000; RecorderStopTask; StopTimer 5000].
Proof.
  intros Hidle Hcf Hfind session w'. subst w' session.
  rewrite (bind_normal _ _ _ _ _ (startRecording_started P w t Hidle Hfind)).
  rewrite (bind_normal _ _ _ _ _ (deliverData_run bs _)).
  rewrite (bind_normal _ _ _ _ _ (stopRecording_run _)).
  proj.
  match goal with
  | |- context [bind (startRecording P) ?k ?W] =>
      rewrite (bind_normal (startRecording P) k W _ tt
                 (startRecording_started P W t eq_refl Hfind))
  end.
  proj. unfold recorderStopTask.
  rewrite (bind_normal _ _ _ _ _ (ondataavailable_run lastData _)).
  proj.
  rewrite (handleRecordingStop_run _ (mkMediaRecorder t recording) a)
    by (proj; first [reflexivity | exact Hcf]).
  proj. cbn [mimeType List.filter app].
  split; [reflexivity|]. split; [reflexivity|]. split; [reflexivity|].
  split; [destruct (nonEmpty lastData); reflexivity|].
  split.
  { rewrite <- !app_assoc. cbn [app].
    destruct (nonEmpty lastData); reflexivity. }
  rewrite <- !app_assoc. reflexivity.
Qed.

Lemma restart_before_stop_event_witness :
  isRecording liveWorld = false /\
  recordedChunks
    (fst ((startRecording webmPlatform ;; deliverData [[1]%Z; [2; 3]%Z] ;;
           stopRecording ;; startRecording webmPlatform ;;
           recorderStopTask [4]%Z) liveWorld))
  = [[4]%Z].
Proof.
  assert (Hidle : isRecording liveWorld = false) by (vm_compute; reflexivity).
  assert (Hcf : currentFilter liveWorld = archetypes !! 4)
    by (vm_compute; reflexivity).
  assert (Hfind : find (isTypeSupported webmPlatform) mimeTypes
                  = Some "video/webm; codecs=vp9"%string)
    by (vm_compute; reflexivity).
  split; [exact Hidle|].
  destruct (restart_before_stop_event webmPlatform liveWorld _ _
              [[1]%Z; [2; 3]%Z] [4]%Z Hidle Hcf Hfind)
    as (_ & _ & _ & Hch & _).
  rewrite Hch. reflexivity.
Defined.
